(** * Brain Inbox chat core: provider registry, storage, adapters, discovery

    A shallow embedding of the TypeScript sources

      - [lib/providers/types.ts]      catalog, pricing, [calculateCost]
      - [lib/providers/index.ts]      persisted preferences ([localStorage])
      - [lib/providers/anthropic.ts]  Anthropic adapter
      - [lib/providers/openai.ts]     OpenAI adapter
      - [lib/providers/gemini.ts]     Gemini adapter
      - [lib/brain-chat.ts]           system prompt listing, file discovery
      - [app/i/settings/page.tsx]     the guard of [handleProviderChange]
      - [app/i/chat/page.tsx]         the chat page's preferences and handlers
      - [app/i/chat/components/api-key-modal.tsx]  the key dialog
      - [app/api/inbox/files/route.ts]  the files route, one path at a time

    Conventions of the embedding.

    - JavaScript strings are [string]s (sequences of 8-bit characters); the
      case mapping is the ASCII one.
    - Token counts are integers ([Z]); prices and costs are IEEE binary64
      numbers ([float]), as JavaScript numbers are.
    - [localStorage] is a finite map from strings to strings, threaded
      explicitly through the functions that read or write it.
    - An adapter run is a function of what the outside world answers: the
      list of HTTP responses the vendor gives to the successive requests of
      one turn, and the file loader.  It returns the callbacks invoked, in
      order, the message lists of the requests sent, and how the promise
      settled. *)

From Stdlib Require Import ZArith Floats Ascii String List Bool Lia Sorted Permutation.
From stdpp Require Import base option list strings gmap pretty.
Import ListNotations.

Local Open Scope string_scope.
Local Open Scope Z_scope.

(** ** JavaScript string primitives *)

Module Js.

(** Truthiness of a string: every string but the empty one. *)
Definition truthy (s : string) : bool :=
  match s with EmptyString => false | String _ _ => true end.

(** [a || b] on strings. *)
Definition or_else (a b : string) : string := if truthy a then a else b.

(** An optional property read followed by [|| dflt]. *)
Definition or_default (a : option string) (dflt : string) : string :=
  match a with Some s => or_else s dflt | None => dflt end.

(** [s.startsWith(p)] *)
Definition startsWith (s p : string) : bool := String.prefix p s.

(** [s.includes(p)] *)
Fixpoint includes (s p : string) : bool :=
  String.prefix p s ||
  match s with
  | EmptyString => false
  | String _ rest => includes rest p
  end.

(** [s.endsWith(p)] *)
Definition endsWith (s p : string) : bool :=
  let ls := String.length s in
  let lp := String.length p in
  (lp <=? ls)%nat && String.eqb (String.substring (ls - lp) lp s) p.

Definition lower_char (c : ascii) : ascii :=
  let n := nat_of_ascii c in
  if ((65 <=? n) && (n <=? 90))%nat then ascii_of_nat (n + 32) else c.

(** [s.toLowerCase()] *)
Fixpoint toLowerCase (s : string) : string :=
  match s with
  | EmptyString => EmptyString
  | String c rest => String (lower_char c) (toLowerCase rest)
  end.

Definition is_digit (c : ascii) : bool :=
  let n := nat_of_ascii c in ((48 <=? n) && (n <=? 57))%nat.

Definition digit_value (c : ascii) : Z := Z.of_nat (nat_of_ascii c - 48).

(** [parseInt(s, 10)] on a string of decimal digits. *)
Definition parseInt_digits (s : string) : Z :=
  fold_left (fun acc c => 10 * acc + digit_value c) (list_ascii_of_string s) 0.

(** [s.split(sep)] for a one-character separator: never empty. *)
Fixpoint split (sep : ascii) (s : string) : list string :=
  match s with
  | EmptyString => [EmptyString]
  | String c rest =>
      if Ascii.eqb c sep then EmptyString :: split sep rest
      else match split sep rest with
           | [] => [String c EmptyString]
           | h :: t => String c h :: t
           end
  end.

(** [parts.join(sep)] *)
Fixpoint join (sep : string) (parts : list string) : string :=
  match parts with
  | [] => ""
  | [p] => p
  | p :: rest => p ++ sep ++ join sep rest
  end.

(** [s.slice(n)] for a position inside the string. *)
Definition sliceFrom (n : nat) (s : string) : string :=
  String.substring n (String.length s - n) s.

(** White space as [trim] sees it, among the 8-bit characters: tab, line
    feed, vertical tab, form feed, carriage return, space. *)
Definition is_space (c : ascii) : bool :=
  let n := nat_of_ascii c in (((9 <=? n) && (n <=? 13)) || (n =? 32))%nat.

Fixpoint trimStart (s : string) : string :=
  match s with
  | EmptyString => EmptyString
  | String c rest => if is_space c then trimStart rest else s
  end.

Definition reverse (s : string) : string :=
  string_of_list_ascii (rev (list_ascii_of_string s)).

(** [s.trim()] *)
Definition trim (s : string) : string :=
  reverse (trimStart (reverse (trimStart s))).

(** [arr.slice(0, n)]: a negative [n] counts from the end. *)
Definition slice0 {A} (n : Z) (l : list A) : list A :=
  if n <? 0 then firstn (Z.to_nat (Z.of_nat (length l) + n)) l
  else firstn (Z.to_nat n) l.

(** [arr.sort(cmp)].  The language requires a stable sort; for a comparator
    that is a consistent ordering every stable sort gives the same array, and
    it is computed here by insertion from the right. *)
Section Sort.
Context {A : Type} (cmp : A -> A -> Z).

Fixpoint insert_sorted (x : A) (l : list A) : list A :=
  match l with
  | [] => [x]
  | y :: rest => if cmp x y <=? 0 then x :: l else y :: insert_sorted x rest
  end.

Definition sort (l : list A) : list A := fold_right insert_sorted [] l.

End Sort.

(** A value caught by a [catch] clause: an [Error] object with its [name]
    and [message], or something that is not an [Error]. *)
Inductive Thrown :=
| ErrorObj (name message : string)
| NotAnError.

Definition Error (message : string) : Thrown := ErrorObj "Error" message.

(** [err instanceof Error ? err.message : dflt] *)
Definition message_or (e : Thrown) (dflt : string) : string :=
  match e with ErrorObj _ m => m | NotAnError => dflt end.

(** [err instanceof Error && err.name === 'AbortError'] *)
Definition is_abort (e : Thrown) : bool :=
  match e with
  | ErrorObj n _ => String.eqb n "AbortError"
  | NotAnError => false
  end.

End Js.

(** ** Catalog and pricing ([types.ts]) *)

Inductive Provider := anthropic | openai | gemini.

Definition Provider_eqb (a b : Provider) : bool :=
  match a, b with
  | anthropic, anthropic | openai, openai | gemini, gemini => true
  | _, _ => false
  end.

Inductive ModelTier := cheap | better.

Definition ModelTier_eqb (a b : ModelTier) : bool :=
  match a, b with
  | cheap, cheap | better, better => true
  | _, _ => false
  end.

Record ModelDefinition := {
  id : string;
  displayName : string;
  provider : Provider;
  tier : ModelTier;
  inputCostPerMillion : float;
  outputCostPerMillion : float;
}.

Record ProviderConfig := {
  name : string;
  keyPrefix : string;
  storageKey : string;
  modelStorageKey : string;
  supportsWebSearch : bool;
  supportsCodeExecution : bool;
}.

Definition PROVIDERS (p : Provider) : ProviderConfig :=
  match p with
  | anthropic =>
      {| name := "Claude"; keyPrefix := "sk-ant-";
         storageKey := "brain_anthropic_api_key";
         modelStorageKey := "brain_anthropic_model";
         supportsWebSearch := true; supportsCodeExecution := true |}
  | openai =>
      {| name := "OpenAI"; keyPrefix := "sk-";
         storageKey := "brain_openai_api_key";
         modelStorageKey := "brain_openai_model";
         supportsWebSearch := true; supportsCodeExecution := true |}
  | gemini =>
      {| name := "Gemini"; keyPrefix := "AIza";
         storageKey := "brain_gemini_api_key";
         modelStorageKey := "brain_gemini_model";
         supportsWebSearch := true; supportsCodeExecution := true |}
  end.

#[local] Set Warnings "-inexact-float".

Definition MODELS : list ModelDefinition :=
  [ {| id := "claude-haiku-4-5-20251001"; displayName := "Haiku 4.5";
       provider := anthropic; tier := cheap;
       inputCostPerMillion := 1.00; outputCostPerMillion := 5.00 |};
    {| id := "claude-sonnet-4-5-20250929"; displayName := "Sonnet 4.5";
       provider := anthropic; tier := better;
       inputCostPerMillion := 3.00; outputCostPerMillion := 15.00 |};
    {| id := "gpt-5-nano"; displayName := "GPT-5 Nano";
       provider := openai; tier := cheap;
       inputCostPerMillion := 0.05; outputCostPerMillion := 0.40 |};
    {| id := "gpt-5-mini"; displayName := "GPT-5 Mini";
       provider := openai; tier := better;
       inputCostPerMillion := 0.25; outputCostPerMillion := 2.00 |};
    {| id := "gemini-3-flash-preview"; displayName := "Flash 3";
       provider := gemini; tier := cheap;
       inputCostPerMillion := 0.50; outputCostPerMillion := 3.00 |};
    {| id := "gemini-3-pro-preview"; displayName := "Pro 3 Preview";
       provider := gemini; tier := better;
       inputCostPerMillion := 2.00; outputCostPerMillion := 12.00 |} ].

Definition ACTIVE_PROVIDER : string := "brain_api_provider".

Definition WEB_SEARCH_COST : float := 0.01.

Record UsageData := {
  inputTokens : Z;
  outputTokens : Z;
  webSearches : Z;
  cost : float;
}.

(** [MODELS.find(m => m.id === modelId)] *)
Definition getModelById (modelId : string) : option ModelDefinition :=
  List.find (fun m => String.eqb (id m) modelId) MODELS.

(** [MODELS.filter(m => m.provider === provider)] *)
Definition getModelsForProvider (p : Provider) : list ModelDefinition :=
  List.filter (fun m => Provider_eqb (provider m) p) MODELS.

(** [models.find(m => m.tier === 'cheap') || models[0]]; the result is
    [undefined] only for a provider without models. *)
Definition getDefaultModelForProvider (p : Provider) : option ModelDefinition :=
  let models := getModelsForProvider p in
  match List.find (fun m => ModelTier_eqb (tier m) cheap) models with
  | Some m => Some m
  | None => List.hd_error models
  end.

Definition calculateCost
  (inputTokens outputTokens : float) (modelId : string) (webSearches : float)
  : float :=
  match getModelById modelId with
  | None => 0%float
  | Some model =>
      let inputCost := (inputTokens / 1000000 * inputCostPerMillion model)%float in
      let outputCost := (outputTokens / 1000000 * outputCostPerMillion model)%float in
      let searchCost := (webSearches * WEB_SEARCH_COST)%float in
      (inputCost + outputCost + searchCost)%float
  end.

Definition getAllProviders : list Provider := [anthropic; openai; gemini].

(** An integer token count as a JavaScript number (exact below 2^53). *)
Definition number_of_Z (z : Z) : float :=
  if z <? 0 then (- PrimFloat.of_uint63 (Uint63.of_Z (- z)))%float
  else PrimFloat.of_uint63 (Uint63.of_Z z).

(** ** Persisted preferences ([index.ts]) *)

(** [localStorage]: string keys, string values. *)
Abbreviation Storage := (gmap string string).

(** The result of [safeLocalStorage()]: the store, or [null] where there is
    no [window]. *)
Abbreviation StorageRef := (option (gmap string string)).

Definition getItem (st : Storage) (key : string) : option string := st !! key.
Definition setItem (key value : string) (st : Storage) : Storage := <[key := value]> st.
Definition removeItem (key : string) (st : Storage) : Storage := delete key st.

(** Truthiness of a [string | null]. *)
Definition truthy_item (v : option string) : bool :=
  match v with Some s => Js.truthy s | None => false end.

Definition Provider_to_string (p : Provider) : string :=
  match p with
  | anthropic => "anthropic"
  | openai => "openai"
  | gemini => "gemini"
  end.

(** [saved === 'anthropic' || saved === 'openai' || saved === 'gemini'] *)
Definition Provider_of_saved (saved : option string) : option Provider :=
  match saved with
  | None => None
  | Some s =>
      if String.eqb s "anthropic" then Some anthropic
      else if String.eqb s "openai" then Some openai
      else if String.eqb s "gemini" then Some gemini
      else None
  end.

(** The fallback loop of [getActiveProvider]: the first provider of
    [getAllProviders()] with a configured key, else ['anthropic']. *)
Definition firstConfiguredProvider (st : Storage) : Provider :=
  match List.find (fun p => truthy_item (getItem st (storageKey (PROVIDERS p))))
                  getAllProviders with
  | Some p => p
  | None => anthropic
  end.

Definition getActiveProvider (storage : StorageRef) : Provider :=
  match storage with
  | None => anthropic
  | Some st =>
      let saved := getItem st ACTIVE_PROVIDER in
      match Provider_of_saved saved with
      | Some p =>
          if truthy_item (getItem st (storageKey (PROVIDERS p))) then p
          else firstConfiguredProvider st
      | None => firstConfiguredProvider st
      end
  end.

Definition setActiveProvider (p : Provider) (storage : StorageRef) : StorageRef :=
  match storage with
  | None => None
  | Some st => Some (setItem ACTIVE_PROVIDER (Provider_to_string p) st)
  end.

Definition getApiKey (p : Provider) (storage : StorageRef) : option string :=
  match storage with
  | None => None
  | Some st => getItem st (storageKey (PROVIDERS p))
  end.

Definition setApiKey (p : Provider) (key : string) (storage : StorageRef) : StorageRef :=
  match storage with
  | None => None
  | Some st => Some (setItem (storageKey (PROVIDERS p)) key st)
  end.

Definition clearApiKey (p : Provider) (storage : StorageRef) : StorageRef :=
  match storage with
  | None => None
  | Some st => Some (removeItem (storageKey (PROVIDERS p)) st)
  end.

(** [!!getApiKey(provider)] *)
Definition hasApiKey (p : Provider) (storage : StorageRef) : bool :=
  truthy_item (getApiKey p storage).

(** [getDefaultModelForProvider(provider).id]; reading [.id] of [undefined]
    throws, which is [None] here. *)
Definition defaultModelId (p : Provider) : option string :=
  id <$> getDefaultModelForProvider p.

Definition getSelectedModel (p : Provider) (storage : StorageRef) : option string :=
  match storage with
  | None => defaultModelId p
  | Some st =>
      let saved := getItem st (modelStorageKey (PROVIDERS p)) in
      match saved with
      | Some s =>
          if Js.truthy s
             && List.existsb (fun m => String.eqb (id m) s) (getModelsForProvider p)
          then Some s
          else defaultModelId p
      | None => defaultModelId p
      end
  end.

Definition setSelectedModel (p : Provider) (modelId : string) (storage : StorageRef)
  : StorageRef :=
  match storage with
  | None => None
  | Some st => Some (setItem (modelStorageKey (PROVIDERS p)) modelId st)
  end.

(** The legacy model identifiers [runMigration] remaps (the own properties
    of its [modelMap] object). *)
Definition modelMap (oldModel : string) : option string :=
  if String.eqb oldModel "haiku" then Some "claude-haiku-4-5-20251001"
  else if String.eqb oldModel "sonnet" then Some "claude-sonnet-4-5-20250929"
  else if String.eqb oldModel "claude-3-5-haiku-20241022"
       then Some "claude-haiku-4-5-20251001"
  else if String.eqb oldModel "claude-sonnet-4-20250514"
       then Some "claude-sonnet-4-5-20250929"
  else None.

Definition runMigration (storage : StorageRef) : StorageRef :=
  match storage with
  | None => None
  | Some st =>
      if truthy_item (getItem st ACTIVE_PROVIDER) then Some st
      else
        let st1 :=
          if truthy_item (getItem st (storageKey (PROVIDERS anthropic)))
          then setItem ACTIVE_PROVIDER "anthropic" st else st in
        match getItem st1 "brain_chat_model" with
        | Some oldModel =>
            if Js.truthy oldModel then
              let newModel := default oldModel (modelMap oldModel) in
              if Js.includes newModel "claude" || bool_decide (is_Some (modelMap oldModel))
              then Some (setItem (modelStorageKey (PROVIDERS anthropic)) newModel st1)
              else Some st1
            else Some st1
        | None => Some st1
        end
  end.

(** The storage effect of the settings page's [handleProviderChange]: the
    selection is written only for a provider that has a key. *)
Definition handleProviderChange (p : Provider) (storage : StorageRef) : StorageRef :=
  if negb (hasApiKey p storage) then storage
  else setActiveProvider p storage.

(** The storage states the exported operations can produce from a given
    initial one. *)
Inductive reachable (init : StorageRef) : StorageRef -> Prop :=
| reach_init : reachable init init
| reach_setApiKey p key s :
    reachable init s -> reachable init (setApiKey p key s)
| reach_clearApiKey p s :
    reachable init s -> reachable init (clearApiKey p s)
| reach_setActiveProvider p s :
    reachable init s -> reachable init (setActiveProvider p s)
| reach_setSelectedModel p m s :
    reachable init s -> reachable init (setSelectedModel p m s)
| reach_runMigration s :
    reachable init s -> reachable init (runMigration s).

(** One element of the array [getProvidersWithStatus] returns. *)
Record ProviderStatus := { config : ProviderConfig; hasKey : bool; isActive : bool }.

Definition getProvidersWithStatus (storage : StorageRef) : list ProviderStatus :=
  let activeProvider := getActiveProvider storage in
  map (fun provider =>
         {| config := PROVIDERS provider;
            hasKey := hasApiKey provider storage;
            isActive := Provider_eqb provider activeProvider |})
      getAllProviders.

(** [validateKeyFormat] ([types.ts]): the prefix check, with its own branch
    for OpenAI. *)
Definition validateKeyFormat (key : string) (p : Provider) : bool :=
  let config := PROVIDERS p in
  if Provider_eqb p openai then Js.startsWith key "sk-"
  else Js.startsWith key (keyPrefix config).

(** The names every object inherits from [Object.prototype].  Looking one of
    them up in an object literal finds the inherited member, not
    [undefined]. *)
Definition inheritedName (s : string) : bool :=
  existsb (String.eqb s)
    [ "constructor"; "__proto__"; "hasOwnProperty"; "isPrototypeOf";
      "propertyIsEnumerable"; "toLocaleString"; "toString"; "valueOf";
      "__defineGetter__"; "__defineSetter__"; "__lookupGetter__"; "__lookupSetter__" ].

(** Whether [runMigration] ends with an exception: for an old model that
    bears an inherited name, [modelMap[oldModel]] is the inherited member
    and [newModel.includes] is not a function.  [runMigration] then gives
    the store as the call leaves it. *)
Definition runMigrationThrows (storage : StorageRef) : bool :=
  match storage with
  | None => false
  | Some st =>
      negb (truthy_item (getItem st ACTIVE_PROVIDER))
      && match getItem st "brain_chat_model" with
         | Some oldModel => Js.truthy oldModel && inheritedName oldModel
         | None => false
         end
  end.

(** ** Chat orchestrator utilities ([brain-chat.ts]) *)

Module BrainChat.

Inductive NodeType := file | dir.

#[local] Set Warnings "-register-all".

(** [children] is optional in the source; an array, even an empty one, is
    truthy. *)
Inductive FileNode := {
  name : string;
  path : string;
  type : NodeType;
  children : option (list FileNode);
}.

Definition is_markdown_file (node : FileNode) : bool :=
  match type node with
  | file => Js.endsWith (name node) ".md"
  | dir => false
  end.

(** [flattenFileTree]: the paths pushed for one node and its subtree, in the
    order the shared [paths] array receives them. *)
Fixpoint flattenNode (node : FileNode) : list string :=
  (if is_markdown_file node then [path node] else [])
  ++ match type node, children node with
     | dir, Some cs => flat_map flattenNode cs
     | _, _ => []
     end.

Definition flattenFileTree (nodes : list FileNode) : list string :=
  flat_map flattenNode nodes.

(** The first match of [/(\d{8})/]: the leftmost run of eight decimal
    digits. *)
Fixpoint match_8_digits (s : string) : option string :=
  match s with
  | EmptyString => None
  | String _ rest =>
      let head := String.substring 0 8 s in
      if (String.length head =? 8)%nat
         && forallb Js.is_digit (list_ascii_of_string head)
      then Some head
      else match_8_digits rest
  end.

Definition extractDateFromPath (path : string) : Z :=
  match match_8_digits path with
  | Some m => Js.parseInt_digits m
  | None => 0
  end.

(** *** The directory listing of [buildSystemPrompt] *)

(** [grouped[dirPath].push(path)], creating the group on first use; groups
    are kept in creation order. *)
Fixpoint group_push (dirPath path : string) (grouped : list (string * list string))
  : list (string * list string) :=
  match grouped with
  | [] => [(dirPath, [path])]
  | (d, ps) :: rest =>
      if String.eqb d dirPath then (d, (ps ++ [path])%list) :: rest
      else (d, ps) :: group_push dirPath path rest
  end.

(** [parts.length > 1 ? parts.slice(0, -1).join('/') : '(root)'] *)
Definition dirPathOf (path : string) : string :=
  let parts := Js.split "/" path in
  if (1 <? length parts)%nat then Js.join "/" (removelast parts) else "(root)".

Definition groupByDirectory (allPaths : list string) : list (string * list string) :=
  fold_left (fun grouped path => group_push (dirPathOf path) path grouped) allPaths [].

(** The default comparator of [sort()] on strings. *)
Definition compareStrings (a b : string) : Z :=
  match String.compare a b with
  | Lt => -1
  | Eq => 0
  | Gt => 1
  end.

(** [(a, b) => extractDateFromPath(b) - extractDateFromPath(a)] *)
Definition newestFirst (a b : string) : Z :=
  extractDateFromPath b - extractDateFromPath a.

(** [[...dirPaths].sort(newestFirst)] *)
Definition sortByDate (dirPaths : list string) : list string :=
  Js.sort newestFirst dirPaths.

(** [ex.split('/').pop() || ex] *)
Definition filenameOf (ex : string) : string :=
  Js.or_else (List.last (Js.split "/" ex) "") ex.

Definition newline : string := String (ascii_of_nat 10) EmptyString.

(** The lines pushed for one directory. *)
Definition directoryLines (d : string) (dirPaths : list string) : list string :=
  let sortedPaths := sortByDate dirPaths in
  let n := length sortedPaths in
  let examples := Js.slice0 3 sortedPaths in
  [newline ++ "**" ++ d ++ "/** (" ++ pretty n ++ " files)"]
  ++ map (fun ex => "  - " ++ filenameOf ex) examples
  ++ (if (3 <? n)%nat then ["  - ... " ++ pretty (n - 3)%nat ++ " more"] else []).

(** The [lines] array of [buildSystemPrompt]. *)
Definition availableFilesLines (fileTree : list FileNode) : list string :=
  let allPaths := flattenFileTree fileTree in
  let grouped := groupByDirectory allPaths in
  let sortedDirs := Js.sort compareStrings (map fst grouped) in
  flat_map
    (fun d =>
       match List.find (fun g => String.eqb (fst g) d) grouped with
       | Some g => directoryLines d (snd g)
       | None => []
       end)
    sortedDirs.

(** *** Relevant-file discovery *)

Definition knownSources : list (string * list string) :=
  [ ("indy dev dan", ["research/youtube/indy"]);
    ("indy", ["research/youtube/indy"]);
    ("lenny", ["research/youtube/lenny"]);
    ("lenny rachitsky", ["research/youtube/lenny"]);
    ("lenny's podcast", ["research/youtube/lenny"]);
    ("anthropic", ["research/youtube/anthropic"]);
    ("no priors", ["research/youtube/nopriors"]);
    ("nopriors", ["research/youtube/nopriors"]);
    ("this day in ai", ["research/youtube/thisday"]);
    ("thisday", ["research/youtube/thisday"]);
    ("ai engineer", ["research/youtube/aie"]);
    ("aie", ["research/youtube/aie"]);
    ("ethan", ["research/newsletters/ethan"]);
    ("ethan mollick", ["research/newsletters/ethan"]);
    ("one useful thing", ["research/newsletters/ethan"]);
    ("simon", ["research/newsletters/simon"]);
    ("simon willison", ["research/newsletters/simon"]);
    ("avinash", ["research/newsletters/avinash"]);
    ("avinash kaushik", ["research/newsletters/avinash"]);
    ("sam", ["research/newsletters/sam"]);
    ("sam tomlinson", ["research/newsletters/sam"]);
    ("ben", ["research/newsletters/ben"]);
    ("ben tossell", ["research/newsletters/ben"]);
    ("ben's bites", ["research/newsletters/ben"]);
    ("exponential", ["research/newsletters/exponential"]);
    ("exponential view", ["research/newsletters/exponential"]);
    ("azeem", ["research/newsletters/exponential"]);
    ("dan shipper", ["research/newsletters/every"]);
    ("every newsletter", ["research/newsletters/every"]);
    ("newsletter", ["research/newsletters"]);
    ("newsletters", ["research/newsletters"]);
    ("youtube", ["research/youtube"]);
    ("research", ["research"]);
    ("todo", ["todo"]);
    ("todos", ["todo"]);
    ("projects", ["projects"]);
    ("customers", ["customers"]);
    ("travel", ["travel"]) ].

(** [[...new Set(xs)]]: the first occurrence of each string, in order. *)
Fixpoint uniq_from (seen : list string) (xs : list string) : list string :=
  match xs with
  | [] => []
  | x :: rest =>
      if existsb (String.eqb x) seen then uniq_from seen rest
      else x :: uniq_from (x :: seen) rest
  end.

Definition uniq (xs : list string) : list string := uniq_from [] xs.

Definition extractKeywords (query : string) : list string :=
  let queryLower := Js.toLowerCase query in
  let matchedPaths :=
    flat_map
      (fun entry : string * list string =>
         if Js.includes queryLower (fst entry) then snd entry else [])
      knownSources in
  uniq matchedPaths.

(** The inner loop over [folderPaths] only decides whether some prefix
    matches: it pushes at most once and breaks. *)
Definition inTargetFolder (folderPaths : list string) (node : FileNode) : bool :=
  let pathLower := Js.toLowerCase (path node) in
  existsb (fun folderPath => Js.startsWith pathLower (Js.toLowerCase folderPath))
          folderPaths.

Fixpoint searchNode (folderPaths : list string) (node : FileNode) : list string :=
  (if inTargetFolder folderPaths node && is_markdown_file node
   then [path node] else [])
  ++ match type node, children node with
     | dir, Some cs => flat_map (searchNode folderPaths) cs
     | _, _ => []
     end.

Definition searchTreeForKeywords (nodes : list FileNode) (folderPaths : list string)
  : list string :=
  flat_map (searchNode folderPaths) nodes.

Record Scored := { s_path : string; score : Z; date : Z }.

Definition scoreOf (keywords : list string) (p : string) : Scored :=
  let pathLower := Js.toLowerCase p in
  {| s_path := p;
     score := Z.of_nat (length (filter (fun keyword => Js.includes pathLower keyword) keywords));
     date := extractDateFromPath p |}.

(** Newest first, then by keyword score. *)
Definition byDateThenScore (a b : Scored) : Z :=
  if negb (date b =? date a) then date b - date a else score b - score a.

(** By keyword score first, then newest. *)
Definition byScoreThenDate (a b : Scored) : Z :=
  if negb (score b =? score a) then score b - score a else date b - date a.

Definition wantsRecent (query : string) : bool :=
  let queryLower := Js.toLowerCase query in
  Js.includes queryLower "recent"
  || Js.includes queryLower "latest"
  || Js.includes queryLower "newest"
  || Js.includes queryLower "most recent"
  || Js.includes queryLower "last".

Definition findRelevantFiles (query : string) (tree : list FileNode) (maxFiles : Z)
  : list string :=
  let keywords := extractKeywords query in
  match keywords with
  | [] => []
  | _ :: _ =>
      let matches := searchTreeForKeywords tree keywords in
      let scored := map (scoreOf keywords) matches in
      let sorted :=
        if wantsRecent query then Js.sort byDateThenScore scored
        else Js.sort byScoreThenDate scored in
      map s_path (Js.slice0 maxFiles sorted)
  end.

(** *** Keys, models and tool switches of the active provider *)

(** The names under which [brain-chat.ts] imports the storage helpers. *)
Definition getActiveProviderFromStorage := getActiveProvider.
Definition setActiveProviderInStorage := setActiveProvider.
Definition getProviderApiKey := getApiKey.
Definition setProviderApiKey := setApiKey.
Definition clearProviderApiKey := clearApiKey.
Definition providerHasApiKey := hasApiKey.
Definition getProviderSelectedModel := getSelectedModel.
Definition setProviderSelectedModel := setSelectedModel.

(** [provider || getActiveProviderFromStorage()]: an omitted provider is the
    active one. *)
Definition getApiKey (provider : option Provider) (storage : StorageRef)
  : option string :=
  let targetProvider := default (getActiveProviderFromStorage storage) provider in
  getProviderApiKey targetProvider storage.

Definition setApiKey (key : string) (provider : option Provider) (storage : StorageRef)
  : StorageRef :=
  let targetProvider := default (getActiveProviderFromStorage storage) provider in
  setProviderApiKey targetProvider key storage.

Definition clearApiKey (provider : option Provider) (storage : StorageRef) : StorageRef :=
  let targetProvider := default (getActiveProviderFromStorage storage) provider in
  clearProviderApiKey targetProvider storage.

Definition getActiveProvider (storage : StorageRef) : Provider :=
  getActiveProviderFromStorage storage.

Definition setActiveProvider (provider : Provider) (storage : StorageRef) : StorageRef :=
  setActiveProviderInStorage provider storage.

Definition hasApiKey (provider : option Provider) (storage : StorageRef) : bool :=
  let targetProvider := default (getActiveProviderFromStorage storage) provider in
  providerHasApiKey targetProvider storage.

(** [getSelectedModel()], [setSelectedModel(modelId)] and
    [getActiveProviderModels()]: those of the active provider. *)
Definition getSelectedModel (storage : StorageRef) : option string :=
  let provider := getActiveProviderFromStorage storage in
  getProviderSelectedModel provider storage.

Definition setSelectedModel (modelId : string) (storage : StorageRef) : StorageRef :=
  let provider := getActiveProviderFromStorage storage in
  setProviderSelectedModel provider modelId storage.

Definition getActiveProviderModels (storage : StorageRef) : list ModelDefinition :=
  let provider := getActiveProviderFromStorage storage in
  getModelsForProvider provider.

Definition WEB_SEARCH_STORAGE_KEY : string := "brain_chat_web_search".
Definition WEB_FETCH_STORAGE_KEY : string := "brain_chat_web_fetch".
Definition CODE_EXECUTION_STORAGE_KEY : string := "brain_chat_code_execution".

(** [storage.getItem(key) === 'true'] *)
Definition is_true_item (v : option string) : bool :=
  match v with Some s => String.eqb s "true" | None => false end.

(** [enabled ? 'true' : 'false'] *)
Definition flag (enabled : bool) : string := if enabled then "true" else "false".

Definition getWebSearchEnabled (storage : StorageRef) : bool :=
  match storage with
  | None => false
  | Some st => is_true_item (getItem st WEB_SEARCH_STORAGE_KEY)
  end.

Definition setWebSearchEnabled (enabled : bool) (storage : StorageRef) : StorageRef :=
  match storage with
  | None => None
  | Some st => Some (setItem WEB_SEARCH_STORAGE_KEY (flag enabled) st)
  end.

Definition getWebFetchEnabled (storage : StorageRef) : bool :=
  match storage with
  | None => false
  | Some st => is_true_item (getItem st WEB_FETCH_STORAGE_KEY)
  end.

Definition setWebFetchEnabled (enabled : bool) (storage : StorageRef) : StorageRef :=
  match storage with
  | None => None
  | Some st => Some (setItem WEB_FETCH_STORAGE_KEY (flag enabled) st)
  end.

Definition getCodeExecutionEnabled (storage : StorageRef) : bool :=
  match storage with
  | None => false
  | Some st => is_true_item (getItem st CODE_EXECUTION_STORAGE_KEY)
  end.

Definition setCodeExecutionEnabled (enabled : bool) (storage : StorageRef) : StorageRef :=
  match storage with
  | None => None
  | Some st => Some (setItem CODE_EXECUTION_STORAGE_KEY (flag enabled) st)
  end.

End BrainChat.

(** ** The adapter contract ([types.ts]) and the outside world *)

(** A [path] read off a parsed argument object: a string, or [undefined]
    when the object has no such property. *)
Abbreviation JsPath := (option string).

(** [`${path}`] *)
Definition show_path (p : JsPath) : string := default "undefined" p.

(** Truthiness of an optional string property. *)
Definition truthy_prop (p : option string) : bool := truthy_item p.

(** One invocation of a member of [StreamCallbacks], with its arguments. *)
Inductive Call :=
| OnStart
| OnToken (token : string)
| OnComplete (fullResponse : string)
| OnError (error : string)
| OnUsage (usage : UsageData)
| OnWebSearch (query : string)
| OnWebSearchResults (resultCount : Z)
| OnCodeExecution (status : string)
| OnCodeExecutionComplete
| OnToolError (toolName error : string)
| OnFileLoad (path : JsPath)
| OnFileLoaded (path : JsPath) (success : bool).

(** [StreamCallbacks]: every member is optional; a field says whether the
    caller supplied it. *)
Record StreamCallbacks := {
  onStart : bool;
  onToken : bool;
  onComplete : bool;
  onError : bool;
  onUsage : bool;
  onWebSearch : bool;
  onWebSearchResults : bool;
  onCodeExecution : bool;
  onCodeExecutionComplete : bool;
  onToolError : bool;
  onFileLoad : bool;
  onFileLoaded : bool;
}.

Definition supplied (callbacks : StreamCallbacks) (c : Call) : bool :=
  match c with
  | OnStart => onStart callbacks
  | OnToken _ => onToken callbacks
  | OnComplete _ => onComplete callbacks
  | OnError _ => onError callbacks
  | OnUsage _ => onUsage callbacks
  | OnWebSearch _ => onWebSearch callbacks
  | OnWebSearchResults _ => onWebSearchResults callbacks
  | OnCodeExecution _ => onCodeExecution callbacks
  | OnCodeExecutionComplete => onCodeExecutionComplete callbacks
  | OnToolError _ _ => onToolError callbacks
  | OnFileLoad _ => onFileLoad callbacks
  | OnFileLoaded _ _ => onFileLoaded callbacks
  end.

(** [callbacks.member?.(args)] *)
Definition invoke (callbacks : StreamCallbacks) (c : Call) : list Call :=
  if supplied callbacks c then [c] else [].

(** A caller that supplies every callback. *)
Definition allCallbacks : StreamCallbacks :=
  {| onStart := true; onToken := true; onComplete := true; onError := true;
     onUsage := true; onWebSearch := true; onWebSearchResults := true;
     onCodeExecution := true; onCodeExecutionComplete := true;
     onToolError := true; onFileLoad := true; onFileLoaded := true |}.

(** An element of the array the file loader resolves to. *)
Record LoadedFile := { file_path : string; file_content : string }.

(** What [await loadFileContents([path])] does. *)
Inductive LoadOutcome :=
| Loaded (files : list LoadedFile)
| LoadThrows (e : Js.Thrown).

Abbreviation FileLoader := (JsPath -> LoadOutcome).

Inductive Role := user | assistant.

Record ChatTurn := { turn_role : Role; turn_content : string }.

Record SendMessageOptions := {
  messages : list ChatTurn;
  systemPrompt : string;
  apiKey : string;
  modelId : string;
  callbacks : StreamCallbacks;
  enableWebSearch : bool;
  enableCodeExecution : bool;
  loadFileContents : option (JsPath -> LoadOutcome);
}.

Record KeyValidationResult := { valid : bool; error : option string }.

(** The JSON of an error body as the adapters obtain it,
    [await response.json().catch(() => ({}))]: the value [null], or any
    other value, with the text at [error.message] of it (absent when the
    body is not JSON, where the catch gives an empty object, or has no such
    member; a member that is there is a string, as in the vendors' error
    bodies).  Reading [error.error] of [null] throws a TypeError, whose
    message is the engine's and is carried here. *)
Inductive ErrorBody :=
| null_body (typeError : string)
| error_body (message : option string).

(** The status line of an HTTP response, and its body read as an error
    body. *)
Record HttpReply := { status : nat; errorBody : ErrorBody }.

(** [response.ok] *)
Definition ok (r : HttpReply) : bool :=
  ((200 <=? status r) && (status r <=? 299))%nat.

(** [error.error?.message || `API error: ${response.status}`]: its text, or
    what evaluating it throws. *)
Definition apiErrorMessage (r : HttpReply) : Js.Thrown + string :=
  match errorBody r with
  | null_body typeError => inl (Js.ErrorObj "TypeError" typeError)
  | error_body message =>
      inr (Js.or_default message ("API error: " ++ pretty (status r)))
  end.

(** What [throw new Error(error.error?.message || ...)] throws. *)
Definition apiError (r : HttpReply) : Js.Thrown :=
  match apiErrorMessage r with
  | inl err => err
  | inr message => Js.Error message
  end.

(** The result of [validateKey]'s [catch] clause. *)
Definition validationCaught (err : Js.Thrown) : KeyValidationResult :=
  {| valid := false; error := Some (Js.message_or err "Failed to validate key") |}.

(** [return { valid: false, error: error.error?.message || ... }], inside
    the [try] of [validateKey]. *)
Definition apiErrorResult (r : HttpReply) : KeyValidationResult :=
  match apiErrorMessage r with
  | inl err => validationCaught err
  | inr message => {| valid := false; error := Some message |}
  end.

(** The read loop's framing.  A chunk is appended to the buffer, the buffer
    is split at line feeds, and the last piece stays in the buffer:
    [buffer += chunk; lines = buffer.split('\n'); buffer = lines.pop() || '']. *)
Definition takeLines (buffer chunk : string) : list string * string :=
  let lines := Js.split (ascii_of_nat 10) (buffer ++ chunk) in
  (removelast lines, List.last lines "").

(** The lines the loop body sees over all chunks; what follows the last line
    feed is never seen. *)
Fixpoint completeLines (buffer : string) (chunks : list string) : list string :=
  match chunks with
  | [] => []
  | chunk :: rest =>
      let (lines, buffer1) := takeLines buffer chunk in
      (lines ++ completeLines buffer1 rest)%list
  end.

(** [line.startsWith('data: ') ? line.slice(6) : skip] *)
Definition dataOf (line : string) : option string :=
  if Js.startsWith line "data: " then Some (Js.sliceFrom 6 line) else None.

(** How reading the body ends: [done], or [reader.read()] rejects. *)
Inductive ReadEnd :=
| StreamDone
| ReadRejects (e : Js.Thrown).

(** The body of a streaming response as the loop body sees it: the JSON
    values of the complete [data: ] lines that parse, in order, and how the
    stream ends.  Lines that do not parse, and the [DONE] sentinel, are
    skipped by the loop and do not appear; each adapter's [parsedEvents]
    computes the values from the chunks read. *)
Record Body (Event : Type) := { events : list Event; ending : ReadEnd }.
Arguments events {Event} _.
Arguments ending {Event} _.

(** What [await fetch(...)] does. *)
Inductive Fetched (B : Type) :=
| FetchRejects (e : Js.Thrown)
| FetchResolves (reply : HttpReply) (body : B).
Arguments FetchRejects {B} e.
Arguments FetchResolves {B} reply body.

(** How the promise of [makeStreamingRequest] settles. *)
Inductive Settled :=
| Fulfilled
| Rejected (e : Js.Thrown).

(** One run: the message lists of the requests sent, the callbacks invoked,
    and how the promise settled. *)
Record Run (Req : Type) := { sent : list Req; calls : list Call; settled : Settled }.
Arguments sent {Req} _.
Arguments calls {Req} _.
Arguments settled {Req} _.

(** A run that starts with one request and some callbacks, then goes on as
    [rest]. *)
Definition after {Req} (req : Req) (cs : list Call) (rest : Run Req) : Run Req :=
  {| sent := req :: sent rest; calls := (cs ++ calls rest)%list; settled := settled rest |}.

(** [JSON.parse] of a tool-argument text, as far as the adapters look at the
    result: the [path] and [query] members of the object.  The vendors send
    an object for the arguments of a tool call. *)
Record ToolInput := { arg_path : option string; arg_query : option string }.

Inductive Parse :=
| Parsed (value : ToolInput)
| SyntaxError (message : string).

(** The final usage report and completion of a turn. *)
Definition reportAndComplete
  (callbacks : StreamCallbacks) (modelId : string)
  (inputTokens outputTokens webSearchCount : Z) (fullResponse : string) : list Call :=
  ((if onUsage callbacks && ((0 <? inputTokens) || (0 <? outputTokens))
    then [OnUsage (Build_UsageData inputTokens outputTokens webSearchCount
                     (calculateCost (number_of_Z inputTokens) (number_of_Z outputTokens)
                        modelId (number_of_Z webSearchCount)))]
    else [])
   ++ invoke callbacks (OnComplete fullResponse))%list.

(** [`File: ${file.path}\n\n${file.content}`] *)
Definition fileResult (f : LoadedFile) : string :=
  "File: " ++ file_path f
  ++ String (ascii_of_nat 10) (String (ascii_of_nat 10) (file_content f)).

(** The message of the [else] branch; the path stands between double
    quotes. *)
Definition notLoadedResult (path : JsPath) : string :=
  "Error: Could not load file " ++ String (ascii_of_nat 34) (show_path path)
  ++ String (ascii_of_nat 34) ". Make sure the path is correct.".

(** [`Error loading file: ${err instanceof Error ? err.message : 'Unknown error'}`] *)
Definition loadErrorResult (e : Js.Thrown) : string :=
  "Error loading file: " ++ Js.message_or e "Unknown error".

(** [!file.content.startsWith('[Error')] *)
Definition notErrorMarked (f : LoadedFile) : bool :=
  negb (Js.startsWith (file_content f) "[Error").

(** The tool result for one [load_file] call once the path is known, and
    the success flag reported: [files[0]] decides. *)
Definition loadOne (loader : JsPath -> LoadOutcome) (path : JsPath) : string * bool :=
  match loader path with
  | Loaded (f :: _) =>
      if notErrorMarked f then (fileResult f, true)
      else (notLoadedResult path, false)
  | Loaded [] => (notLoadedResult path, false)
  | LoadThrows e => (loadErrorResult e, false)
  end.

(** ** Anthropic adapter ([anthropic.ts]) *)

Module Anthropic.

Definition validateKey (fetched : Fetched unit) : KeyValidationResult :=
  match fetched with
  | FetchRejects e => validationCaught e
  | FetchResolves response _ =>
      if ok response then {| valid := true; error := None |}
      else if (status response =? 401)%nat
      then {| valid := false; error := Some "Invalid API key" |}
      else if (status response =? 403)%nat
      then {| valid := false; error := Some "API key lacks required permissions" |}
      else apiErrorResult response
  end.

Definition getModels : list ModelDefinition := getModelsForProvider anthropic.

(** [content_block] of a [content_block_start] event, by its [type]. *)
Inductive ContentBlock :=
| tool_use (id name : option string)
| server_tool_use (name : option string)
| code_execution_tool_result
| code_execution_tool_result_error (error_message : option string)
| web_search_tool_result_error (error_message : option string)
| web_search_tool_result (search_results : option nat)
| other_block.

(** [delta] of a [content_block_delta] event, by its [type]. *)
Inductive Delta :=
| text_delta (text : option string)
| input_json_delta (partial_json : option string)
| other_delta.

(** A parsed event, by its [type].  [input_tokens] is
    [message.usage.input_tokens], [output_tokens] is [usage.output_tokens],
    [stop_reason] is [delta.stop_reason]; a member that is missing is
    [None]. *)
Inductive Event :=
| content_block_start (content_block : option ContentBlock)
| content_block_delta (delta : Delta)
| content_block_stop
| message_start (input_tokens : option Z)
| message_delta (output_tokens : option Z) (stop_reason : option string)
| other_event.

(** The events of the chunks read: the payload of each complete [data: ]
    line but the [DONE] sentinel, through [JSON.parse]; [parseEvent] is
    [None] where [JSON.parse] throws. *)
Definition parsedEvents (parseEvent : string -> option Event) (chunks : list string)
  : list Event :=
  omap (fun line =>
          match dataOf line with
          | Some data => if String.eqb data "[DONE]" then None else parseEvent data
          | None => None
          end)
       (completeLines "" chunks).

(** [PendingToolCall], also the [tool_use] entry kept in [contentBlocks]. *)
Record PendingToolCall := { id : string; name : string; input : ToolInput }.

Inductive MessageBlock :=
| text_block (text : string)
| tool_use_block (call : PendingToolCall)
| tool_result_block (tool_use_id content : string).

Inductive MessageContent :=
| plain (text : string)
| blocks (bs : list MessageBlock).

Record Message := { role : string; content : MessageContent }.

(** The local variables of one [makeStreamingRequest] call. *)
Record Locals := {
  fullResponse : string;
  currentToolId : string;
  currentToolName : string;
  currentToolInput : string;
  webSearchCount : Z;
  inputTokens : Z;
  outputTokens : Z;
  stopReason : string;
  pendingToolCalls : list PendingToolCall;
  contentBlocks : list PendingToolCall;
}.

Definition initLocals (totalInputTokens totalOutputTokens totalWebSearches : Z)
  (accumulatedResponse : string) : Locals :=
  {| fullResponse := accumulatedResponse;
     currentToolId := ""; currentToolName := ""; currentToolInput := "";
     webSearchCount := totalWebSearches;
     inputTokens := totalInputTokens; outputTokens := totalOutputTokens;
     stopReason := ""; pendingToolCalls := []; contentBlocks := [] |}.

Definition setCurrentTool (i n inp : string) (l : Locals) : Locals :=
  {| fullResponse := fullResponse l;
     currentToolId := i; currentToolName := n; currentToolInput := inp;
     webSearchCount := webSearchCount l;
     inputTokens := inputTokens l; outputTokens := outputTokens l;
     stopReason := stopReason l; pendingToolCalls := pendingToolCalls l;
     contentBlocks := contentBlocks l |}.

Definition setFullResponse (r : string) (l : Locals) : Locals :=
  {| fullResponse := r;
     currentToolId := currentToolId l; currentToolName := currentToolName l;
     currentToolInput := currentToolInput l;
     webSearchCount := webSearchCount l;
     inputTokens := inputTokens l; outputTokens := outputTokens l;
     stopReason := stopReason l; pendingToolCalls := pendingToolCalls l;
     contentBlocks := contentBlocks l |}.

Definition setCounters (ws i o : Z) (sr : string) (l : Locals) : Locals :=
  {| fullResponse := fullResponse l;
     currentToolId := currentToolId l; currentToolName := currentToolName l;
     currentToolInput := currentToolInput l;
     webSearchCount := ws; inputTokens := i; outputTokens := o;
     stopReason := sr; pendingToolCalls := pendingToolCalls l;
     contentBlocks := contentBlocks l |}.

Definition pushToolCall (c : PendingToolCall) (l : Locals) : Locals :=
  {| fullResponse := fullResponse l;
     currentToolId := currentToolId l; currentToolName := currentToolName l;
     currentToolInput := currentToolInput l;
     webSearchCount := webSearchCount l;
     inputTokens := inputTokens l; outputTokens := outputTokens l;
     stopReason := stopReason l;
     pendingToolCalls := (pendingToolCalls l ++ [c])%list;
     contentBlocks := (contentBlocks l ++ [c])%list |}.

Section WithOptions.

Variable JSON_parse : string -> Parse.
Variable options : SendMessageOptions.

(** The body of the [for (const line of lines)] loop for one parsed event:
    the updated locals and the callbacks invoked. *)
Definition onEvent (l : Locals) (parsed : Event) : Locals * list Call :=
  let cb := callbacks options in
  match parsed with
  | content_block_start (Some (tool_use i n)) =>
      let toolName := Js.or_default n "" in
      (setCurrentTool (Js.or_default i "") toolName "" l,
       if String.eqb toolName "load_file"
       then invoke cb (OnFileLoad (Some "Loading file..."))
       else [])
  | content_block_start (Some (server_tool_use n)) =>
      let toolName := Js.or_default n "" in
      (setCurrentTool (currentToolId l) toolName (currentToolInput l) l,
       if String.eqb toolName "web_search"
       then invoke cb (OnWebSearch "Searching the web...")
       else if String.eqb toolName "code_execution"
       then invoke cb (OnCodeExecution "Running code...")
       else [])
  | content_block_start (Some code_execution_tool_result) =>
      (l, invoke cb OnCodeExecutionComplete)
  | content_block_start (Some (code_execution_tool_result_error m)) =>
      (l, invoke cb (OnToolError "code_execution" (Js.or_default m "Code execution failed")))
  | content_block_start (Some (web_search_tool_result_error m)) =>
      (l, invoke cb (OnToolError "web_search" (Js.or_default m "Web search failed")))
  | content_block_start (Some (web_search_tool_result (Some n))) =>
      (setCounters (webSearchCount l + 1) (inputTokens l) (outputTokens l) (stopReason l) l,
       invoke cb (OnWebSearchResults (Z.of_nat n)))
  | content_block_start _ => (l, [])
  | content_block_delta (text_delta (Some text)) =>
      if Js.truthy text
      then (setFullResponse (fullResponse l ++ text) l, invoke cb (OnToken text))
      else (l, [])
  | content_block_delta (input_json_delta (Some partial_json)) =>
      if Js.truthy partial_json then
        let toolInput := currentToolInput l ++ partial_json in
        (setCurrentTool (currentToolId l) (currentToolName l) toolInput l,
         if String.eqb (currentToolName l) "load_file" then
           match JSON_parse toolInput with
           | Parsed partialInput =>
               if truthy_prop (arg_path partialInput)
               then invoke cb (OnFileLoad (arg_path partialInput))
               else []
           | SyntaxError _ => []
           end
         else if String.eqb (currentToolName l) "web_search" then
           match JSON_parse toolInput with
           | Parsed partialInput =>
               match arg_query partialInput with
               | Some q => if Js.truthy q then invoke cb (OnWebSearch q) else []
               | None => []
               end
           | SyntaxError _ => []
           end
         else [])
      else (l, [])
  | content_block_delta _ => (l, [])
  | content_block_stop =>
      let l1 :=
        if String.eqb (currentToolName l) "load_file"
           && Js.truthy (currentToolId l) && Js.truthy (currentToolInput l)
        then match JSON_parse (currentToolInput l) with
             | Parsed inp =>
                 pushToolCall {| id := currentToolId l; name := currentToolName l;
                                 input := inp |} l
             | SyntaxError _ => l
             end
        else l in
      (setCurrentTool "" "" "" l1, [])
  | message_start u =>
      (setCounters (webSearchCount l) (inputTokens l + default 0 u) (outputTokens l)
         (stopReason l) l, [])
  | message_delta u sr =>
      (setCounters (webSearchCount l) (inputTokens l) (outputTokens l + default 0 u)
         (if truthy_prop sr then default "" sr else stopReason l) l, [])
  | other_event => (l, [])
  end.

(** The read loop over a whole body. *)
Fixpoint readAll (l : Locals) (evs : list Event) : Locals * list Call :=
  match evs with
  | [] => (l, [])
  | parsed :: rest =>
      let (l1, cs1) := onEvent l parsed in
      let (l2, cs2) := readAll l1 rest in
      (l2, (cs1 ++ cs2)%list)
  end.

(** One iteration of [for (const toolCall of pendingToolCalls)]: the tool
    result pushed, if any, and the callbacks invoked. *)
Definition resolveToolCall (loader : JsPath -> LoadOutcome) (toolCall : PendingToolCall)
  : list MessageBlock * list Call :=
  let cb := callbacks options in
  if String.eqb (name toolCall) "load_file" then
    let path := arg_path (input toolCall) in
    let (content, success) := loadOne loader path in
    ([tool_result_block (id toolCall) content],
     (invoke cb (OnFileLoad path) ++ invoke cb (OnFileLoaded path success))%list)
  else ([], []).

Fixpoint resolveToolCalls (loader : JsPath -> LoadOutcome) (pending : list PendingToolCall)
  : list MessageBlock * list Call :=
  match pending with
  | [] => ([], [])
  | toolCall :: rest =>
      let (r1, cs1) := resolveToolCall loader toolCall in
      let (r2, cs2) := resolveToolCalls loader rest in
      ((r1 ++ r2)%list, (cs1 ++ cs2)%list)
  end.

Definition assistantContent (l : Locals) : list MessageBlock :=
  ((if Js.truthy (fullResponse l) then [text_block (fullResponse l)] else [])
   ++ map tool_use_block (contentBlocks l))%list.

(** [makeStreamingRequest].  [responses] are the vendor's answers to the
    successive requests of the turn; the result is [None] when the turn
    asks for more requests than [responses] answers. *)
Fixpoint makeStreamingRequest
  (responses : list (Fetched (option (Body Event))))
  (currentMessages : list Message)
  (totalInputTokens totalOutputTokens totalWebSearches : Z)
  (accumulatedResponse : string) : option (Run (list Message)) :=
  match responses with
  | [] => None
  | FetchRejects e :: _ =>
      Some {| sent := [currentMessages]; calls := []; settled := Rejected e |}
  | FetchResolves response body :: later =>
      if negb (ok response) then
        Some {| sent := [currentMessages]; calls := [];
                settled := Rejected (apiError response) |}
      else
        match body with
        | None =>
            Some {| sent := [currentMessages]; calls := [];
                    settled := Rejected (Js.Error "No response body") |}
        | Some b =>
            let (l, streamed) :=
              readAll (initLocals totalInputTokens totalOutputTokens totalWebSearches
                         accumulatedResponse) (events b) in
            match ending b with
            | ReadRejects e =>
                Some {| sent := [currentMessages]; calls := streamed;
                        settled := Rejected e |}
            | StreamDone =>
                match loadFileContents options with
                | Some loader =>
                    if String.eqb (stopReason l) "tool_use"
                       && (0 <? length (pendingToolCalls l))%nat
                    then
                      let (toolResults, resolved) :=
                        resolveToolCalls loader (pendingToolCalls l) in
                      let updatedMessages :=
                        (currentMessages
                         ++ [ {| role := "assistant"; content := blocks (assistantContent l) |};
                              {| role := "user"; content := blocks toolResults |} ])%list in
                      after currentMessages (streamed ++ resolved)%list
                        <$> makeStreamingRequest later updatedMessages
                              (inputTokens l) (outputTokens l) (webSearchCount l)
                              (fullResponse l)
                    else
                      Some {| sent := [currentMessages];
                              calls := (streamed
                                        ++ reportAndComplete (callbacks options) (modelId options)
                                             (inputTokens l) (outputTokens l)
                                             (webSearchCount l) (fullResponse l))%list;
                              settled := Fulfilled |}
                | None =>
                    Some {| sent := [currentMessages];
                            calls := (streamed
                                      ++ reportAndComplete (callbacks options) (modelId options)
                                           (inputTokens l) (outputTokens l)
                                           (webSearchCount l) (fullResponse l))%list;
                            settled := Fulfilled |}
                end
            end
        end
  end.

Definition initialMessages : list Message :=
  map (fun m => {| role := match turn_role m with user => "user" | assistant => "assistant" end;
                   content := plain (turn_content m) |})
      (messages options).

(** [sendMessage]: the callbacks invoked, in order. *)
Definition sendMessage (responses : list (Fetched (option (Body Event))))
  : option (list Call) :=
  let cb := callbacks options in
  match makeStreamingRequest responses initialMessages 0 0 0 "" with
  | None => None
  | Some run =>
      Some (invoke cb OnStart
            ++ calls run
            ++ match settled run with
               | Fulfilled => []
               | Rejected err =>
                   if Js.is_abort err then []
                   else invoke cb (OnError (Js.message_or err "Failed to send message"))
               end)%list
  end.

End WithOptions.

End Anthropic.

(** ** OpenAI adapter ([openai.ts]) *)

Module OpenAI.

Definition validateKey (fetched : Fetched unit) : KeyValidationResult :=
  match fetched with
  | FetchRejects e => validationCaught e
  | FetchResolves response _ =>
      if ok response then {| valid := true; error := None |}
      else if (status response =? 401)%nat
      then {| valid := false; error := Some "Invalid API key" |}
      else apiErrorResult response
  end.

Definition getModels : list ModelDefinition := getModelsForProvider openai.

(** An element of [delta.tool_calls]; [function_name] and
    [function_arguments] are [function?.name] and [function?.arguments]. *)
Record ToolCallDelta := {
  index : option Z;
  tc_id : option string;
  function_name : option string;
  function_arguments : option string;
}.

Record ChoiceDelta := {
  delta_content : option string;
  tool_calls : option (list ToolCallDelta);
}.

Record Usage := { prompt_tokens : option Z; completion_tokens : option Z }.

(** A parsed chunk: [delta] is [choices?.[0]?.delta], [finish_reason] is
    [choices?.[0]?.finish_reason]. *)
Record Chunk := {
  delta : option ChoiceDelta;
  finish_reason : option string;
  usage : option Usage;
}.

(** The chunks parsed: the trimmed payload of each complete [data: ] line
    but the [DONE] sentinel, through [JSON.parse]. *)
Definition parsedEvents (parseEvent : string -> option Chunk) (chunks : list string)
  : list Chunk :=
  omap (fun line =>
          match dataOf line with
          | Some data =>
              if String.eqb (Js.trim data) "[DONE]" then None
              else parseEvent (Js.trim data)
          | None => None
          end)
       (completeLines "" chunks).

Record PendingToolCall := { id : string; name : string; arguments : string }.

Inductive Message :=
| chat (role content : string)
| assistant_tool_calls (content : option string) (calls : list PendingToolCall)
| tool (tool_call_id content : string).

(** The local variables of one [makeStreamingRequest] call.
    [pendingToolCalls] is the [Map], in insertion order. *)
Record Locals := {
  fullResponse : string;
  inputTokens : Z;
  outputTokens : Z;
  pendingToolCalls : list (Z * PendingToolCall);
  finishReason : string;
}.

Definition initLocals (totalInputTokens totalOutputTokens : Z)
  (accumulatedResponse : string) : Locals :=
  {| fullResponse := accumulatedResponse;
     inputTokens := totalInputTokens; outputTokens := totalOutputTokens;
     pendingToolCalls := []; finishReason := "" |}.

(** [pendingToolCalls.has(index)] *)
Definition has (i : Z) (m : list (Z * PendingToolCall)) : bool :=
  existsb (fun e => fst e =? i) m.

(** The entry at [index] replaced in place by [f] of it. *)
Fixpoint update (i : Z) (f : PendingToolCall -> PendingToolCall)
  (m : list (Z * PendingToolCall)) : list (Z * PendingToolCall) :=
  match m with
  | [] => []
  | (j, p) :: rest =>
      if j =? i then (j, f p) :: rest else (j, p) :: update i f rest
  end.

(** [pendingToolCalls.get(index)] *)
Definition get (i : Z) (m : list (Z * PendingToolCall)) : option PendingToolCall :=
  snd <$> List.find (fun e => fst e =? i) m.

Section WithOptions.

Variable JSON_parse : string -> Parse.
Variable options : SendMessageOptions.

(** The body of [for (const toolCall of delta.tool_calls)]. *)
Definition onToolCallDelta (m : list (Z * PendingToolCall)) (toolCall : ToolCallDelta)
  : list (Z * PendingToolCall) * list Call :=
  let cb := callbacks options in
  let i := default 0 (index toolCall) in
  let '(m1, cs1) :=
    if negb (has i m) then
      ((m ++ [(i, {| id := Js.or_default (tc_id toolCall) "";
                     name := Js.or_default (function_name toolCall) "";
                     arguments := "" |})])%list,
       match function_name toolCall with
       | Some n => if String.eqb n "load_file"
                   then invoke cb (OnFileLoad (Some "Loading file...")) else []
       | None => []
       end)
    else (m, []) in
  let m2 :=
    update i (fun p =>
      {| id := if truthy_prop (tc_id toolCall) then default "" (tc_id toolCall) else id p;
         name := if truthy_prop (function_name toolCall)
                 then default "" (function_name toolCall) else name p;
         arguments := if truthy_prop (function_arguments toolCall)
                      then arguments p ++ default "" (function_arguments toolCall)
                      else arguments p |}) m1 in
  let cs2 :=
    if truthy_prop (function_arguments toolCall) then
      match get i m2 with
      | Some pending =>
          if String.eqb (name pending) "load_file" then
            match JSON_parse (arguments pending) with
            | Parsed args =>
                if truthy_prop (arg_path args)
                then invoke cb (OnFileLoad (arg_path args)) else []
            | SyntaxError _ => []
            end
          else []
      | None => []
      end
    else [] in
  (m2, (cs1 ++ cs2)%list).

Fixpoint onToolCallDeltas (m : list (Z * PendingToolCall)) (tcs : list ToolCallDelta)
  : list (Z * PendingToolCall) * list Call :=
  match tcs with
  | [] => (m, [])
  | toolCall :: rest =>
      let (m1, cs1) := onToolCallDelta m toolCall in
      let (m2, cs2) := onToolCallDeltas m1 rest in
      (m2, (cs1 ++ cs2)%list)
  end.

(** The body of the line loop for one parsed chunk. *)
Definition onChunk (l : Locals) (parsed : Chunk) : Locals * list Call :=
  let cb := callbacks options in
  let '(response1, pending1, cs1) :=
    match delta parsed with
    | Some d =>
        let '(r, csText) :=
          match delta_content d with
          | Some c => if Js.truthy c
                      then (fullResponse l ++ c, invoke cb (OnToken c))
                      else (fullResponse l, [])
          | None => (fullResponse l, [])
          end in
        let '(m, csTools) :=
          match tool_calls d with
          | Some tcs => onToolCallDeltas (pendingToolCalls l) tcs
          | None => (pendingToolCalls l, [])
          end in
        (r, m, (csText ++ csTools)%list)
    | None => (fullResponse l, pendingToolCalls l, [])
    end in
  let finish1 :=
    if truthy_prop (finish_reason parsed) then default "" (finish_reason parsed)
    else finishReason l in
  let '(in1, out1) :=
    match usage parsed with
    | Some u => (default 0 (prompt_tokens u), default 0 (completion_tokens u))
    | None => (inputTokens l, outputTokens l)
    end in
  ({| fullResponse := response1; inputTokens := in1; outputTokens := out1;
      pendingToolCalls := pending1; finishReason := finish1 |}, cs1).

Fixpoint readAll (l : Locals) (chunks : list Chunk) : Locals * list Call :=
  match chunks with
  | [] => (l, [])
  | parsed :: rest =>
      let (l1, cs1) := onChunk l parsed in
      let (l2, cs2) := readAll l1 rest in
      (l2, (cs1 ++ cs2)%list)
  end.

(** One iteration of the loop that executes the pending calls: the tool
    result pushed, if any, and the callbacks invoked.  The [catch] clause
    reports [toolCall.arguments], the raw argument text. *)
Definition resolveToolCall (loader : JsPath -> LoadOutcome) (toolCall : PendingToolCall)
  : list (string * string) * list Call :=
  let cb := callbacks options in
  if String.eqb (name toolCall) "load_file" then
    match JSON_parse (arguments toolCall) with
    | SyntaxError message =>
        ([(id toolCall, "Error loading file: " ++ message)],
         invoke cb (OnFileLoaded (Some (arguments toolCall)) false))
    | Parsed args =>
        let path := arg_path args in
        let (content, success) := loadOne loader path in
        let reported :=
          match loader path with
          | LoadThrows _ => Some (arguments toolCall)
          | Loaded _ => path
          end in
        ([(id toolCall, content)],
         (invoke cb (OnFileLoad path) ++ invoke cb (OnFileLoaded reported success))%list)
    end
  else ([], []).

Fixpoint resolveToolCalls (loader : JsPath -> LoadOutcome) (pending : list PendingToolCall)
  : list (string * string) * list Call :=
  match pending with
  | [] => ([], [])
  | toolCall :: rest =>
      let (r1, cs1) := resolveToolCall loader toolCall in
      let (r2, cs2) := resolveToolCalls loader rest in
      ((r1 ++ r2)%list, (cs1 ++ cs2)%list)
  end.

(** [makeStreamingRequest]; [None] when the turn asks for more requests
    than [responses] answers. *)
Fixpoint makeStreamingRequest
  (responses : list (Fetched (option (Body Chunk))))
  (currentMessages : list Message)
  (totalInputTokens totalOutputTokens : Z)
  (accumulatedResponse : string) : option (Run (list Message)) :=
  match responses with
  | [] => None
  | FetchRejects e :: _ =>
      Some {| sent := [currentMessages]; calls := []; settled := Rejected e |}
  | FetchResolves response body :: later =>
      if negb (ok response) then
        Some {| sent := [currentMessages]; calls := [];
                settled := Rejected (apiError response) |}
      else
        match body with
        | None =>
            Some {| sent := [currentMessages]; calls := [];
                    settled := Rejected (Js.Error "No response body") |}
        | Some b =>
            let (l, streamed) :=
              readAll (initLocals totalInputTokens totalOutputTokens accumulatedResponse)
                      (events b) in
            match ending b with
            | ReadRejects e =>
                Some {| sent := [currentMessages]; calls := streamed;
                        settled := Rejected e |}
            | StreamDone =>
                match loadFileContents options with
                | Some loader =>
                    if String.eqb (finishReason l) "tool_calls"
                       && (0 <? length (pendingToolCalls l))%nat
                    then
                      let toolCallsArray := map snd (pendingToolCalls l) in
                      let (toolResults, resolved) :=
                        resolveToolCalls loader (map snd (pendingToolCalls l)) in
                      let updatedMessages :=
                        (currentMessages
                         ++ [ assistant_tool_calls
                                (if Js.truthy (fullResponse l) then Some (fullResponse l) else None)
                                toolCallsArray ]
                         ++ map (fun tr => tool (fst tr) (snd tr)) toolResults)%list in
                      after currentMessages (streamed ++ resolved)%list
                        <$> makeStreamingRequest later updatedMessages
                              (inputTokens l) (outputTokens l) (fullResponse l)
                    else
                      Some {| sent := [currentMessages];
                              calls := (streamed
                                        ++ reportAndComplete (callbacks options) (modelId options)
                                             (inputTokens l) (outputTokens l) 0
                                             (fullResponse l))%list;
                              settled := Fulfilled |}
                | None =>
                    Some {| sent := [currentMessages];
                            calls := (streamed
                                      ++ reportAndComplete (callbacks options) (modelId options)
                                           (inputTokens l) (outputTokens l) 0
                                           (fullResponse l))%list;
                            settled := Fulfilled |}
                end
            end
        end
  end.

Definition openAIMessages : list Message :=
  chat "developer" (systemPrompt options)
  :: map (fun m => chat (match turn_role m with user => "user" | assistant => "assistant" end)
                        (turn_content m))
         (messages options).

(** [sendMessage]: the callbacks invoked, in order. *)
Definition sendMessage (responses : list (Fetched (option (Body Chunk))))
  : option (list Call) :=
  let cb := callbacks options in
  match makeStreamingRequest responses openAIMessages 0 0 "" with
  | None => None
  | Some run =>
      Some (invoke cb OnStart
            ++ calls run
            ++ match settled run with
               | Fulfilled => []
               | Rejected err =>
                   if Js.is_abort err then []
                   else invoke cb (OnError (Js.message_or err "Failed to send message"))
               end)%list
  end.

End WithOptions.

End OpenAI.

(** ** Gemini adapter ([gemini.ts]) *)

Module Gemini.

Definition validateKey (fetched : Fetched unit) : KeyValidationResult :=
  match fetched with
  | FetchRejects e => validationCaught e
  | FetchResolves response _ =>
      if ok response then {| valid := true; error := None |}
      else if ((status response =? 400) || (status response =? 403))%nat
      then {| valid := false; error := Some "Invalid API key" |}
      else apiErrorResult response
  end.

Definition getModels : list ModelDefinition := getModelsForProvider gemini.

(** [part.functionCall]; [args] is absent when the call carries none. *)
Record FunctionCall := { fc_name : string; fc_args : option ToolInput }.

Record Part := { text : option string; functionCall : option FunctionCall }.

Record Candidate := { parts : option (list Part); finishReason : option string }.

Record UsageMetadata := {
  promptTokenCount : option Z;
  candidatesTokenCount : option Z;
}.

(** A parsed chunk: [candidate] is [candidates?.[0]], [parts] is its
    [content?.parts]. *)
Record Chunk := { candidate : option Candidate; usageMetadata : option UsageMetadata }.

(** The chunks parsed: the trimmed payload of each complete [data: ] line,
    unless empty, through [JSON.parse]. *)
Definition parsedEvents (parseEvent : string -> option Chunk) (chunks : list string)
  : list Chunk :=
  omap (fun line =>
          match dataOf line with
          | Some data =>
              if Js.truthy (Js.trim data) then parseEvent (Js.trim data) else None
          | None => None
          end)
       (completeLines "" chunks).

Record PendingFunctionCall := { name : string; args : ToolInput }.

Inductive ContentPart :=
| text_part (text : string)
| function_call_part (call : PendingFunctionCall)
| function_response_part (name content : string).

Record Content := { role : string; content_parts : list ContentPart }.

(** The local variables of one [makeStreamingRequest] call. *)
Record Locals := {
  fullResponse : string;
  inputTokens : Z;
  outputTokens : Z;
  pendingFunctionCalls : list PendingFunctionCall;
  finishReasonSeen : string;
}.

Definition initLocals (totalInputTokens totalOutputTokens : Z)
  (accumulatedResponse : string) : Locals :=
  {| fullResponse := accumulatedResponse;
     inputTokens := totalInputTokens; outputTokens := totalOutputTokens;
     pendingFunctionCalls := []; finishReasonSeen := "" |}.

(** [{}] *)
Definition emptyArgs : ToolInput := {| arg_path := None; arg_query := None |}.

(** [count || previous] on a token count. *)
Definition latestOr (count : option Z) (previous : Z) : Z :=
  match count with
  | Some n => if n =? 0 then previous else n
  | None => previous
  end.

Section WithOptions.

Variable options : SendMessageOptions.

(** The body of [for (const part of parts)]: the text so far, the pending
    calls, the callbacks invoked. *)
Definition onPart (acc : string * list PendingFunctionCall) (part : Part)
  : (string * list PendingFunctionCall) * list Call :=
  let cb := callbacks options in
  let '(response, pending) := acc in
  let '(response1, csText) :=
    match text part with
    | Some t => if Js.truthy t then (response ++ t, invoke cb (OnToken t))
                else (response, [])
    | None => (response, [])
    end in
  let '(pending1, csCall) :=
    match functionCall part with
    | Some funcCall =>
        ((pending ++ [ {| name := fc_name funcCall;
                          args := default emptyArgs (fc_args funcCall) |} ])%list,
         if String.eqb (fc_name funcCall) "load_file" then
           let path := fc_args funcCall ≫= arg_path in
           invoke cb (OnFileLoad (if truthy_prop path then path else Some "Loading file..."))
         else [])
    | None => (pending, [])
    end in
  ((response1, pending1), (csText ++ csCall)%list).

Fixpoint onParts (acc : string * list PendingFunctionCall) (ps : list Part)
  : (string * list PendingFunctionCall) * list Call :=
  match ps with
  | [] => (acc, [])
  | part :: rest =>
      let (acc1, cs1) := onPart acc part in
      let (acc2, cs2) := onParts acc1 rest in
      (acc2, (cs1 ++ cs2)%list)
  end.

(** The body of the line loop for one parsed chunk. *)
Definition onChunk (l : Locals) (parsed : Chunk) : Locals * list Call :=
  let '(response1, pending1, finish1, cs1) :=
    match candidate parsed with
    | Some c =>
        let '((r, p), cs) :=
          match parts c with
          | Some ps => onParts (fullResponse l, pendingFunctionCalls l) ps
          | None => ((fullResponse l, pendingFunctionCalls l), [])
          end in
        (r, p,
         if truthy_prop (finishReason c) then default "" (finishReason c)
         else finishReasonSeen l,
         cs)
    | None => (fullResponse l, pendingFunctionCalls l, finishReasonSeen l, [])
    end in
  let '(in1, out1) :=
    match usageMetadata parsed with
    | Some u => (latestOr (promptTokenCount u) (inputTokens l),
                 latestOr (candidatesTokenCount u) (outputTokens l))
    | None => (inputTokens l, outputTokens l)
    end in
  ({| fullResponse := response1; inputTokens := in1; outputTokens := out1;
      pendingFunctionCalls := pending1; finishReasonSeen := finish1 |}, cs1).

Fixpoint readAll (l : Locals) (chunks : list Chunk) : Locals * list Call :=
  match chunks with
  | [] => (l, [])
  | parsed :: rest =>
      let (l1, cs1) := onChunk l parsed in
      let (l2, cs2) := readAll l1 rest in
      (l2, (cs1 ++ cs2)%list)
  end.

(** One iteration of [for (const funcCall of pendingFunctionCalls)]. *)
Definition resolveFunctionCall (loader : JsPath -> LoadOutcome)
  (funcCall : PendingFunctionCall) : list ContentPart * list Call :=
  let cb := callbacks options in
  if String.eqb (name funcCall) "load_file" then
    let path := arg_path (args funcCall) in
    let (content, success) := loadOne loader path in
    ([function_response_part (name funcCall) content],
     (invoke cb (OnFileLoad path) ++ invoke cb (OnFileLoaded path success))%list)
  else ([], []).

Fixpoint resolveFunctionCalls (loader : JsPath -> LoadOutcome)
  (pending : list PendingFunctionCall) : list ContentPart * list Call :=
  match pending with
  | [] => ([], [])
  | funcCall :: rest =>
      let (r1, cs1) := resolveFunctionCall loader funcCall in
      let (r2, cs2) := resolveFunctionCalls loader rest in
      ((r1 ++ r2)%list, (cs1 ++ cs2)%list)
  end.

Definition modelParts (l : Locals) : list ContentPart :=
  ((if Js.truthy (fullResponse l) then [text_part (fullResponse l)] else [])
   ++ map function_call_part (pendingFunctionCalls l))%list.

(** [makeStreamingRequest]; [None] when the turn asks for more requests
    than [responses] answers. *)
Fixpoint makeStreamingRequest
  (responses : list (Fetched (option (Body Chunk))))
  (currentContents : list Content)
  (totalInputTokens totalOutputTokens : Z)
  (accumulatedResponse : string) : option (Run (list Content)) :=
  match responses with
  | [] => None
  | FetchRejects e :: _ =>
      Some {| sent := [currentContents]; calls := []; settled := Rejected e |}
  | FetchResolves response body :: later =>
      if negb (ok response) then
        Some {| sent := [currentContents]; calls := [];
                settled := Rejected (apiError response) |}
      else
        match body with
        | None =>
            Some {| sent := [currentContents]; calls := [];
                    settled := Rejected (Js.Error "No response body") |}
        | Some b =>
            let (l, streamed) :=
              readAll (initLocals totalInputTokens totalOutputTokens accumulatedResponse)
                      (events b) in
            match ending b with
            | ReadRejects e =>
                Some {| sent := [currentContents]; calls := streamed;
                        settled := Rejected e |}
            | StreamDone =>
                let hasFunctionCalls := (0 <? length (pendingFunctionCalls l))%nat in
                match loadFileContents options with
                | Some loader =>
                    if hasFunctionCalls then
                      let (functionResponses, resolved) :=
                        resolveFunctionCalls loader (pendingFunctionCalls l) in
                      let updatedContents :=
                        (currentContents
                         ++ [ {| role := "model"; content_parts := modelParts l |};
                              {| role := "user"; content_parts := functionResponses |} ])%list in
                      after currentContents (streamed ++ resolved)%list
                        <$> makeStreamingRequest later updatedContents
                              (inputTokens l) (outputTokens l) (fullResponse l)
                    else
                      Some {| sent := [currentContents];
                              calls := (streamed
                                        ++ reportAndComplete (callbacks options) (modelId options)
                                             (inputTokens l) (outputTokens l) 0
                                             (fullResponse l))%list;
                              settled := Fulfilled |}
                | None =>
                    Some {| sent := [currentContents];
                            calls := (streamed
                                      ++ reportAndComplete (callbacks options) (modelId options)
                                           (inputTokens l) (outputTokens l) 0
                                           (fullResponse l))%list;
                            settled := Fulfilled |}
                end
            end
        end
  end.

Definition geminiContents : list Content :=
  map (fun msg => {| role := match turn_role msg with assistant => "model" | user => "user" end;
                     content_parts := [text_part (turn_content msg)] |})
      (messages options).

(** [sendMessage]: the callbacks invoked, in order. *)
Definition sendMessage (responses : list (Fetched (option (Body Chunk))))
  : option (list Call) :=
  let cb := callbacks options in
  match makeStreamingRequest responses geminiContents 0 0 "" with
  | None => None
  | Some run =>
      Some (invoke cb OnStart
            ++ calls run
            ++ match settled run with
               | Fulfilled => []
               | Rejected err =>
                   if Js.is_abort err then []
                   else
                     let errorMessage := Js.message_or err "Failed to send message" in
                     if Js.includes errorMessage "blocked" || Js.includes errorMessage "safety"
                     then invoke cb (OnError "Response was blocked by safety filters. Try rephrasing your question.")
                     else invoke cb (OnError errorMessage)
               end)%list
  end.

End WithOptions.

End Gemini.

(** ** Routing by provider ([index.ts]) *)

Definition validateKey (providerId : Provider) (fetched : Fetched unit)
  : KeyValidationResult :=
  match providerId with
  | anthropic => Anthropic.validateKey fetched
  | openai => OpenAI.validateKey fetched
  | gemini => Gemini.validateKey fetched
  end.

(** The vendors' answers to the requests of one turn, one script for each
    endpoint. *)
Record Vendors := {
  anthropicApi : list (Fetched (option (Body Anthropic.Event)));
  openaiApi : list (Fetched (option (Body OpenAI.Chunk)));
  geminiApi : list (Fetched (option (Body Gemini.Chunk)));
}.

(** [sendMessage(providerId, options)]: the adapter of [providerId] runs
    against its vendor. *)
Definition sendMessage (JSON_parse : string -> Parse) (providerId : Provider)
  (options : SendMessageOptions) (vendors : Vendors) : option (list Call) :=
  match providerId with
  | anthropic => Anthropic.sendMessage JSON_parse options (anthropicApi vendors)
  | openai => OpenAI.sendMessage JSON_parse options (openaiApi vendors)
  | gemini => Gemini.sendMessage options (geminiApi vendors)
  end.

Definition getModels (providerId : Provider) : list ModelDefinition :=
  match providerId with
  | anthropic => Anthropic.getModels
  | openai => OpenAI.getModels
  | gemini => Gemini.getModels
  end.

(** ** The files route ([app/api/inbox/files/route.ts]) *)

Module FilesRoute.

Definition MAX_FILE_SIZE : Z := 100 * 1024.

(** The JSON of a contents response of GitHub, as far as the route reads
    it: [response.json()] rejects, or there is [data.size] (absent when it
    is no number) and the text that decoding [data.content] from base64
    gives, or what the decoding throws. *)
Inductive GithubBody :=
| json_rejects (e : Js.Thrown)
| contents (size : option Z) (text : Js.Thrown + string).

(** An element of the [files] array; [error] is [true] or left out. *)
Record FileRecord := { path : string; content : string; error : bool }.

(** [`[Error: ${err instanceof Error ? err.message : 'Unknown error'}]`] *)
Definition caught (path : string) (err : Js.Thrown) : FileRecord :=
  {| path := path;
     content := "[Error: " ++ Js.message_or err "Unknown error" ++ "]";
     error := true |}.

(** [data.size > MAX_FILE_SIZE], with the size when it holds. *)
Definition oversize (size : option Z) : option Z :=
  match size with
  | Some n => if MAX_FILE_SIZE <? n then Some n else None
  | None => None
  end.

(** The function mapped over [paths]: what GitHub answers for one path
    becomes one record, a failure a record whose content is a notice.
    [Math.round(data.size / 1024)] is exact for a size in bytes. *)
Definition loadPath (github : Fetched GithubBody) (path : string) : FileRecord :=
  match github with
  | FetchRejects err => caught path err
  | FetchResolves response data =>
      if negb (ok response)
      then {| path := path;
              content := "[Error loading file: " ++ pretty (status response) ++ "]";
              error := true |}
      else match data with
           | json_rejects err => caught path err
           | contents size text =>
               match oversize size with
               | Some n =>
                   {| path := path;
                      content := "[File too large: " ++ pretty ((n + 512) / 1024)
                                 ++ "KB, max " ++ pretty (MAX_FILE_SIZE / 1024) ++ "KB]";
                      error := true |}
               | None =>
                   match text with
                   | inl err => caught path err
                   | inr content => {| path := path; content := content; error := false |}
                   end
               end
           end
  end.

End FilesRoute.

(** ** Reaching a provider from the chat ([brain-chat.ts]) *)

Module BrainChatApi.

(** [sendMessage] of the provider router, as [brain-chat.ts] imports it. *)
Definition providerSendMessage := sendMessage.
Definition providerValidateKey := validateKey.

Definition validateApiKey (provider : option Provider) (answer : Fetched unit)
  (storage : StorageRef) : KeyValidationResult :=
  let targetProvider := default (BrainChat.getActiveProviderFromStorage storage) provider in
  providerValidateKey targetProvider answer.

(** [Math.ceil(text.length / 4)] *)
Definition estimateTokens (text : string) : Z :=
  - ((- Z.of_nat (String.length text)) / 4).

Record LoadedFile := { path : string; content : string; tokenEstimate : Z }.

(** The JSON body the files endpoint answers with: its [files] array, each
    element with its [path] and [content], or a body [loadFileContents]
    cannot use, because [response.json()] rejects or [data.files] cannot be
    mapped. *)
Inductive FilesBody :=
| files_array (files : list (string * string))
| unusable.

(** [loadFileContents]; [endpoint] is what the POST to the files endpoint
    does for the paths sent.  Every failure is caught and gives the empty
    array. *)
Definition loadFileContents (endpoint : list JsPath -> Fetched FilesBody)
  (paths : list JsPath) : list LoadedFile :=
  match paths with
  | [] => []
  | _ :: _ =>
      match endpoint paths with
      | FetchRejects _ => []
      | FetchResolves response body =>
          if negb (ok response) then []
          else match body with
               | unusable => []
               | files_array files =>
                   map (fun file => {| path := fst file; content := snd file;
                                       tokenEstimate := estimateTokens (snd file) |})
                       files
               end
      end
  end.

(** The [fileLoader] closure of [sendMessage]: the paths and contents of
    what [loadFileContents] returns. *)
Definition fileLoader (endpoint : list JsPath -> Fetched FilesBody) (paths : list JsPath) :=
  map (fun f => {| file_path := path f; file_content := content f |})
      (loadFileContents endpoint paths).

(** The loader as an adapter calls it, with the one path of a tool call. *)
Definition providerLoader (endpoint : list JsPath -> Fetched FilesBody)
  : JsPath -> LoadOutcome :=
  fun path => Loaded (fileLoader endpoint [path]).

(** The tool switches the chat passes along; a switch left out is off. *)
Record ToolOptions := {
  tool_enableWebSearch : bool;
  tool_enableWebFetch : bool;
  tool_enableCodeExecution : bool;
}.

(** [sendMessage] of the chat: the active provider's adapter, with the model
    given or else the one selected for that provider, and the file loader.
    [None] also stands for the exception of a provider without models. *)
Definition sendMessage (JSON_parse : string -> Parse) (storage : StorageRef)
  (endpoint : list JsPath -> Fetched FilesBody) (vendors : Vendors)
  (messages : list ChatTurn) (systemPrompt apiKey : string)
  (callbacks : StreamCallbacks) (modelId : option string) (options : ToolOptions)
  : option (list Call) :=
  let provider := BrainChat.getActiveProviderFromStorage storage in
  let providerConfig := PROVIDERS provider in
  match (if truthy_prop modelId then modelId
         else BrainChat.getProviderSelectedModel provider storage) with
  | None => None
  | Some actualModelId =>
      let enableWebSearch :=
        tool_enableWebSearch options && supportsWebSearch providerConfig in
      let enableCodeExecution :=
        tool_enableCodeExecution options && supportsCodeExecution providerConfig in
      providerSendMessage JSON_parse provider
        (Build_SendMessageOptions messages systemPrompt apiKey actualModelId callbacks
           enableWebSearch enableCodeExecution (Some (providerLoader endpoint)))
        vendors
  end.

End BrainChatApi.

(** ** The chat page ([app/i/chat/page.tsx]) *)

Module ChatPage.

(** What [handleProviderChange] writes: nothing for a provider without a
    key; else the selection, and the first model of the provider as its
    selected model. *)
Definition handleProviderChange (provider : Provider) (storage : StorageRef)
  : StorageRef :=
  if negb (truthy_item (BrainChat.getApiKey (Some provider) storage)) then storage
  else
    let storage1 := BrainChat.setActiveProvider provider storage in
    let providerModels := getModelsForProvider provider in
    match providerModels with
    | m :: _ => BrainChat.setSelectedModel (id m) storage1
    | [] => storage1
    end.

(** What [handleModelChange] writes. *)
Definition handleModelChange (modelId : string) (storage : StorageRef) : StorageRef :=
  BrainChat.setSelectedModel modelId storage.

(** The state the mount effect sets. *)
Record Preferences := {
  activeProvider : Provider;
  availableModels : list ModelDefinition;
  selectedModelId : string;
  webSearchEnabled : bool;
  webFetchEnabled : bool;
  codeExecutionEnabled : bool;
}.

(** The mount effect: the migration runs first; the saved model is taken
    if the provider's models hold it, else their first; with no model the
    state keeps its initial empty string.  [None] stands for an exception,
    of the migration or of a provider without models, which leaves the
    state as it was. *)
Definition loadPreferences (storage : StorageRef) : option (StorageRef * Preferences) :=
  if runMigrationThrows storage then None
  else
    let storage1 := runMigration storage in
    let provider := BrainChat.getActiveProvider storage1 in
    let models := BrainChat.getActiveProviderModels storage1 in
    match BrainChat.getSelectedModel storage1 with
    | None => None
    | Some savedModel =>
        Some (storage1,
              {| activeProvider := provider;
                 availableModels := models;
                 selectedModelId :=
                   if existsb (fun m => String.eqb (id m) savedModel) models
                   then savedModel
                   else match models with
                        | m :: _ => id m
                        | [] => ""
                        end;
                 webSearchEnabled := BrainChat.getWebSearchEnabled storage1;
                 webFetchEnabled := BrainChat.getWebFetchEnabled storage1;
                 codeExecutionEnabled := BrainChat.getCodeExecutionEnabled storage1 |})
    end.

End ChatPage.

(** ** The key dialog ([ApiKeyModal]) *)

Module ApiKeyModal.

(** How [handleSubmit] ends: the store, the error shown, and whether
    [onSuccess] was called. *)
Record Submitted := { store : StorageRef; shown : string; succeeded : bool }.

Section HandleSubmit.

(** [String.prototype.trim] *)
Variable trim : string -> string.

(** [handleSubmit] for the text typed, the provider of the open tab, and
    the vendor's answer to the validation request, which is sent only for a
    key that passes the two checks before it. *)
Definition handleSubmit (key : string) (activeProvider : Provider)
  (answer : Fetched unit) (storage : StorageRef) : Submitted :=
  let providerConfig := PROVIDERS activeProvider in
  let trimmedKey := trim key in
  if negb (Js.truthy trimmedKey)
  then {| store := storage; shown := "Please enter your API key"; succeeded := false |}
  else if negb (Js.startsWith trimmedKey (keyPrefix providerConfig))
  then {| store := storage;
          shown := "API key should start with '" ++ keyPrefix providerConfig ++ "'";
          succeeded := false |}
  else
    let result := BrainChatApi.validateApiKey (Some activeProvider) answer storage in
    if valid result
    then {| store := BrainChat.setApiKey trimmedKey (Some activeProvider) storage;
            shown := ""; succeeded := true |}
    else {| store := storage; shown := Js.or_default (error result) "Invalid API key";
            succeeded := false |}.

End HandleSubmit.

End ApiKeyModal.

(** ** A reference argument parser

    The adapters are stated for any [JSON.parse].  Concrete runs use this
    one, which reads the one-member object that a [load_file] call carries,
    written without white space, escapes or control characters, and rejects
    every other text; on the texts it accepts and on text that is not JSON at all it
    agrees with [JSON.parse]. *)

Definition quote : string := String (ascii_of_nat 34) EmptyString.

(** The text up to the first double quote, when that quote is followed by a
    closing brace and nothing else. *)
Fixpoint closingQuote (s : string) : option string :=
  match s with
  | EmptyString => None
  | String c rest =>
      if Ascii.eqb c (ascii_of_nat 34)
      then if String.eqb rest "}" then Some EmptyString else None
      else if Ascii.eqb c (ascii_of_nat 92) || (nat_of_ascii c <? 32)%nat then None
      else String c <$> closingQuote rest
  end.

Definition parsePathObject (s : string) : Parse :=
  let opening := "{" ++ quote ++ "path" ++ quote ++ ":" ++ quote in
  if String.prefix opening s then
    match closingQuote (String.substring (String.length opening)
                          (String.length s - String.length opening) s) with
    | Some p => Parsed {| arg_path := Some p; arg_query := None |}
    | None => SyntaxError "Unexpected token in JSON"
    end
  else SyntaxError "Unexpected token in JSON".

(** [JSON.stringify({path})] for a path without quotes or backslashes. *)
Definition pathObject (p : string) : string :=
  "{" ++ quote ++ "path" ++ quote ++ ":" ++ quote ++ p ++ quote ++ "}".

(** ** Vocabulary of the statements *)

(** The concatenation of a list of strings. *)
Definition concatAll (l : list string) : string := fold_right String.append "" l.

Definition isComplete (c : Call) : bool :=
  match c with OnComplete _ => true | _ => false end.

Definition isError (c : Call) : bool :=
  match c with OnError _ => true | _ => false end.

Definition isFileLoaded (c : Call) : bool :=
  match c with OnFileLoaded _ _ => true | _ => false end.

(** The two callbacks that end a turn. *)
Definition isTerminal (c : Call) : bool := isComplete c || isError c.

(** What one [load_file] call comes to, by what the loader does for the
    path: the text of the tool result and the success flag. *)
Inductive FileResolution (loader : JsPath -> LoadOutcome) (path : JsPath)
  : string -> bool -> Prop :=
| resolved_file f rest :
    loader path = Loaded (f :: rest) -> notErrorMarked f = true ->
    FileResolution loader path (fileResult f) true
| resolved_marked f rest :
    loader path = Loaded (f :: rest) -> notErrorMarked f = false ->
    FileResolution loader path (notLoadedResult path) false
| resolved_missing :
    loader path = Loaded [] ->
    FileResolution loader path (notLoadedResult path) false
| resolved_throws e :
    loader path = LoadThrows e ->
    FileResolution loader path (loadErrorResult e) false.

(** The usage report of a turn with the given totals: none when both token
    counts are zero. *)
Definition usageReport (modelId : string) (inputTokens outputTokens webSearches : Z)
  : list Call :=
  if (0 <? inputTokens) || (0 <? outputTokens)
  then [OnUsage (Build_UsageData inputTokens outputTokens webSearches
                   (calculateCost (number_of_Z inputTokens) (number_of_Z outputTokens)
                      modelId (number_of_Z webSearches)))]
  else [].

(** The calls of a plain turn, in order, as far as the caller supplied the
    callbacks: start, the tokens, the usage report, completion with the
    whole text. *)
Definition plainTurn (callbacks : StreamCallbacks) (tokens : list string)
  (usage : list Call) (fullResponse : string) : list Call :=
  List.filter (supplied callbacks)
    ([OnStart] ++ map OnToken tokens ++ usage ++ [OnComplete fullResponse])%list.

(** A successful response: a 2xx status and a body read to its end. *)
Definition streamed {Event : Type} (reply : HttpReply) (evs : list Event)
  : Fetched (option (Body Event)) :=
  FetchResolves reply (Some {| events := evs; ending := StreamDone |}).

(** *** Anthropic streams *)

(** The [text] of every text delta, in order. *)
Definition anthropicTextDeltas (evs : list Anthropic.Event) : list string :=
  flat_map (fun ev => match ev with
                      | Anthropic.content_block_delta (Anthropic.text_delta (Some t)) => [t]
                      | _ => []
                      end) evs.

(** The input tokens the [message_start] events of a stream report. *)
Definition anthropicInputReported (evs : list Anthropic.Event) : Z :=
  fold_right (fun ev n => match ev with
                          | Anthropic.message_start (Some k) => k + n
                          | _ => n
                          end) 0 evs.

(** The output tokens the [message_delta] events of a stream report. *)
Definition anthropicOutputReported (evs : list Anthropic.Event) : Z :=
  fold_right (fun ev n => match ev with
                          | Anthropic.message_delta (Some k) _ => k + n
                          | _ => n
                          end) 0 evs.

(** The events of a response that has a body. *)
Definition anthropicEventsOf (r : Fetched (option (Body Anthropic.Event)))
  : list Anthropic.Event :=
  match r with
  | FetchResolves _ (Some b) => events b
  | _ => []
  end.

(** The input and output tokens reported over the rounds of a turn. *)
Definition anthropicTurnInput (rounds : list (Fetched (option (Body Anthropic.Event))))
  : Z :=
  fold_right (fun r n => anthropicInputReported (anthropicEventsOf r) + n) 0 rounds.

Definition anthropicTurnOutput (rounds : list (Fetched (option (Body Anthropic.Event))))
  : Z :=
  fold_right (fun r n => anthropicOutputReported (anthropicEventsOf r) + n) 0 rounds.

(** An event that opens no tool block and reports no tool outcome. *)
Definition anthropicNoTool (ev : Anthropic.Event) : bool :=
  match ev with
  | Anthropic.content_block_start (Some Anthropic.other_block) => true
  | Anthropic.content_block_start (Some _) => false
  | _ => true
  end.

(** *** OpenAI streams *)

Definition openaiTextDeltas (chunks : list OpenAI.Chunk) : list string :=
  flat_map (fun c => match OpenAI.delta c with
                     | Some d => match OpenAI.delta_content d with
                                 | Some t => [t]
                                 | None => []
                                 end
                     | None => []
                     end) chunks.

(** A chunk whose delta carries no tool call. *)
Definition openaiNoTool (c : OpenAI.Chunk) : bool :=
  match OpenAI.delta c with
  | Some d => match OpenAI.tool_calls d with
              | Some (_ :: _) => false
              | _ => true
              end
  | None => true
  end.

(** The token counts after a stream: those of its last usage chunk, else
    the ones carried in. *)
Definition openaiUsageAfter (chunks : list OpenAI.Chunk) (carried : Z * Z) : Z * Z :=
  fold_left (fun acc c => match OpenAI.usage c with
                          | Some u => (default 0 (OpenAI.prompt_tokens u),
                                       default 0 (OpenAI.completion_tokens u))
                          | None => acc
                          end) chunks carried.

(** The chunks of a response that has a body. *)
Definition openaiEventsOf (r : Fetched (option (Body OpenAI.Chunk))) : list OpenAI.Chunk :=
  match r with
  | FetchResolves _ (Some b) => events b
  | _ => []
  end.

(** The token counts after the rounds of a turn, each round starting from
    what the one before left. *)
Definition openaiTurnUsage (rounds : list (Fetched (option (Body OpenAI.Chunk))))
  (carried : Z * Z) : Z * Z :=
  fold_left (fun acc r => openaiUsageAfter (openaiEventsOf r) acc) rounds carried.

(** *** Gemini streams *)

Definition geminiParts (c : Gemini.Chunk) : list Gemini.Part :=
  match Gemini.candidate c with
  | Some cand => default [] (Gemini.parts cand)
  | None => []
  end.

(** The [text] of every part that has one. *)
Definition geminiPartTexts (ps : list Gemini.Part) : list string :=
  flat_map (fun p => match Gemini.text p with Some t => [t] | None => [] end) ps.

Definition geminiTextDeltas (chunks : list Gemini.Chunk) : list string :=
  flat_map (fun c => geminiPartTexts (geminiParts c)) chunks.

(** A chunk none of whose parts is a function call. *)
Definition geminiNoTool (c : Gemini.Chunk) : bool :=
  forallb (fun p => match Gemini.functionCall p with
                    | Some _ => false
                    | None => true
                    end) (geminiParts c).

(** The token counts after a stream: the latest non-zero count of each
    kind, else the one carried in. *)
Definition geminiUsageAfter (chunks : list Gemini.Chunk) (carried : Z * Z) : Z * Z :=
  fold_left (fun acc c => match Gemini.usageMetadata c with
                          | Some u => (Gemini.latestOr (Gemini.promptTokenCount u) (fst acc),
                                       Gemini.latestOr (Gemini.candidatesTokenCount u) (snd acc))
                          | None => acc
                          end) chunks carried.

Definition geminiEventsOf (r : Fetched (option (Body Gemini.Chunk))) : list Gemini.Chunk :=
  match r with
  | FetchResolves _ (Some b) => events b
  | _ => []
  end.

Definition geminiTurnUsage (rounds : list (Fetched (option (Body Gemini.Chunk))))
  (carried : Z * Z) : Z * Z :=
  fold_left (fun acc r => geminiUsageAfter (geminiEventsOf r) acc) rounds carried.

(** *** The examples the statements are run on *)

Definition exampleLoader : JsPath -> LoadOutcome := fun p =>
  match p with
  | Some s =>
      if String.eqb s "notes/a.md"
      then Loaded [ {| file_path := "notes/a.md"; file_content := "alpha" |} ]
      else if String.eqb s "notes/down.md"
      then LoadThrows (Js.Error "network down")
      else Loaded [ {| file_path := s; file_content := "[Error: not found]" |} ]
  | None => Loaded []
  end.

Definition exampleOptions (model : string) : SendMessageOptions :=
  {| messages := [ {| turn_role := user; turn_content := "What is in a.md?" |} ];
     systemPrompt := "You are a helpful assistant.";
     apiKey := "key"; modelId := model; callbacks := allCallbacks;
     enableWebSearch := false; enableCodeExecution := false;
     loadFileContents := Some exampleLoader |}.

Definition ok200 : HttpReply := {| status := 200; errorBody := error_body None |}.

Definition abortError : Js.Thrown := Js.ErrorObj "AbortError" "The operation was aborted.".

(** A tool round and a closing round of each vendor.  The first asks for
    [load_file] with the given argument text and reports 100 input and 20
    output tokens; the second answers in text and reports 150 and 30. *)

Definition anthropicToolRound (arguments : string)
  : Fetched (option (Body Anthropic.Event)) :=
  streamed ok200
    [ Anthropic.message_start (Some 100);
      Anthropic.content_block_delta (Anthropic.text_delta (Some "Let me look. "));
      Anthropic.content_block_start
        (Some (Anthropic.tool_use (Some "toolu_1") (Some "load_file")));
      Anthropic.content_block_delta (Anthropic.input_json_delta (Some arguments));
      Anthropic.content_block_stop;
      Anthropic.message_delta (Some 20) (Some "tool_use") ].

Definition anthropicTextRound : Fetched (option (Body Anthropic.Event)) :=
  streamed ok200
    [ Anthropic.message_start (Some 150);
      Anthropic.content_block_delta (Anthropic.text_delta (Some "It says alpha."));
      Anthropic.message_delta (Some 30) (Some "end_turn") ].

Definition openaiChunk (d : option OpenAI.ChoiceDelta) (fr : option string)
  (u : option OpenAI.Usage) : OpenAI.Chunk :=
  {| OpenAI.delta := d; OpenAI.finish_reason := fr; OpenAI.usage := u |}.

Definition openaiToolRound (arguments : string)
  : Fetched (option (Body OpenAI.Chunk)) :=
  streamed ok200
    [ openaiChunk
        (Some {| OpenAI.delta_content := None;
                 OpenAI.tool_calls :=
                   Some [ {| OpenAI.index := Some 0; OpenAI.tc_id := Some "call_1";
                             OpenAI.function_name := Some "load_file";
                             OpenAI.function_arguments := Some arguments |} ] |})
        None None;
      openaiChunk None (Some "tool_calls") None;
      openaiChunk None None
        (Some {| OpenAI.prompt_tokens := Some 100; OpenAI.completion_tokens := Some 20 |}) ].

Definition openaiTextRound : Fetched (option (Body OpenAI.Chunk)) :=
  streamed ok200
    [ openaiChunk
        (Some {| OpenAI.delta_content := Some "It says alpha."; OpenAI.tool_calls := None |})
        None None;
      openaiChunk None (Some "stop") None;
      openaiChunk None None
        (Some {| OpenAI.prompt_tokens := Some 150; OpenAI.completion_tokens := Some 30 |}) ].

Definition geminiToolRound (path : string) : Fetched (option (Body Gemini.Chunk)) :=
  streamed ok200
    [ {| Gemini.candidate :=
           Some {| Gemini.parts :=
                     Some [ {| Gemini.text := None;
                               Gemini.functionCall :=
                                 Some {| Gemini.fc_name := "load_file";
                                         Gemini.fc_args :=
                                           Some {| arg_path := Some path;
                                                   arg_query := None |} |} |} ];
                   Gemini.finishReason := None |};
         Gemini.usageMetadata :=
           Some {| Gemini.promptTokenCount := Some 100;
                   Gemini.candidatesTokenCount := Some 20 |} |} ].

Definition geminiTextRound : Fetched (option (Body Gemini.Chunk)) :=
  streamed ok200
    [ {| Gemini.candidate :=
           Some {| Gemini.parts :=
                     Some [ {| Gemini.text := Some "It says alpha.";
                               Gemini.functionCall := None |} ];
                   Gemini.finishReason := Some "STOP" |};
         Gemini.usageMetadata :=
           Some {| Gemini.promptTokenCount := Some 150;
                   Gemini.candidatesTokenCount := Some 30 |} |} ].

(** The usage record with the given token counts, priced for a model. *)
Definition usageOf (model : string) (i o : Z) : UsageData :=
  Build_UsageData i o 0
    (calculateCost (number_of_Z i) (number_of_Z o) model 0).

Definition anthropicAbortedRound : Fetched (option (Body Anthropic.Event)) :=
  FetchResolves ok200
    (Some {| events := [ Anthropic.message_start (Some 150);
                         Anthropic.content_block_delta (Anthropic.text_delta (Some "It s")) ];
             ending := ReadRejects abortError |}).

Definition openaiAbortedRound : Fetched (option (Body OpenAI.Chunk)) :=
  FetchResolves ok200
    (Some {| events := [ openaiChunk
                           (Some {| OpenAI.delta_content := Some "It s";
                                    OpenAI.tool_calls := None |}) None None ];
             ending := ReadRejects abortError |}).

Definition geminiAbortedRound : Fetched (option (Body Gemini.Chunk)) :=
  FetchResolves ok200
    (Some {| events := [ {| Gemini.candidate :=
                              Some {| Gemini.parts :=
                                        Some [ {| Gemini.text := Some "It s";
                                                  Gemini.functionCall := None |} ];
                                      Gemini.finishReason := None |};
                            Gemini.usageMetadata := None |} ];
             ending := ReadRejects abortError |}).

(** A store with keys for openai and gemini, gemini selected. *)
Definition exampleStore : Storage :=
  <["brain_api_provider" := "gemini"]>
    (<["brain_openai_api_key" := "sk-one"]>
       (<["brain_gemini_api_key" := "AIza-two"]> ∅)).

(** *** Key validation *)

(** The statuses an adapter reads as a key problem. *)
Definition authStatuses (p : Provider) : list nat :=
  match p with
  | anthropic => [401; 403]
  | openai => [401]
  | gemini => [400; 403]
  end%nat.

Definition authMessage (p : Provider) (st : nat) : string :=
  match p with
  | anthropic => if (st =? 403)%nat then "API key lacks required permissions"
                 else "Invalid API key"
  | _ => "Invalid API key"
  end.

(** An invalid-key result: not valid, with one of the two key messages. *)
Definition isInvalidKeyResult (r : KeyValidationResult) : bool :=
  negb (valid r)
  && match error r with
     | Some e => String.eqb e "Invalid API key"
                 || String.eqb e "API key lacks required permissions"
     | None => false
     end.

(** *** Sorting and discovery *)

(** [a] may stand before [b] under a comparator. *)
Definition before {A : Type} (cmp : A -> A -> Z) (a b : A) : Prop := cmp a b <= 0.


(** The order of a recency query on paths: newer first, then the higher
    keyword score. *)
Definition newerFirst (keywords : list string) (p q : string) : Prop :=
  BrainChat.extractDateFromPath q < BrainChat.extractDateFromPath p
  \/ (BrainChat.extractDateFromPath q = BrainChat.extractDateFromPath p
      /\ BrainChat.score (BrainChat.scoreOf keywords q)
         <= BrainChat.score (BrainChat.scoreOf keywords p)).

Definition fileNode (path : string) : BrainChat.FileNode :=
  {| BrainChat.name := BrainChat.filenameOf path; BrainChat.path := path;
     BrainChat.type := BrainChat.file; BrainChat.children := None |}.

Definition dirNode (path : string) (children : list BrainChat.FileNode)
  : BrainChat.FileNode :=
  {| BrainChat.name := BrainChat.filenameOf path; BrainChat.path := path;
     BrainChat.type := BrainChat.dir; BrainChat.children := Some children |}.

Definition ethanTree : list BrainChat.FileNode :=
  [ dirNode "research"
      [ dirNode "research/newsletters"
          [ dirNode "research/newsletters/ethan"
              [ fileNode "research/newsletters/ethan/20250101-a.md";
                fileNode "research/newsletters/ethan/20251118-b.md" ] ] ];
    dirNode "todo" [ fileNode "todo/todo.md" ] ].


(** Folders whose own names hold eight digits. *)
Definition datedTree : list BrainChat.FileNode :=
  [ dirNode "journal20240101"
      [ fileNode "journal20240101/a-20230101.md";
        fileNode "journal20240101/b-20250101.md" ];
    dirNode "archive12345678" [ fileNode "archive12345678/readme.md" ] ].

(** ** Vocabulary of the further statements *)

(** Whether a path lies under one of the folder paths, as the search tests
    it: by the start of the lower-cased text. *)
Definition inFolders (folderPaths : list string) (p : string) : bool :=
  existsb (fun folderPath => Js.startsWith (Js.toLowerCase p) (Js.toLowerCase folderPath))
          folderPaths.

(** The order of a query that does not ask for recent files: the higher
    keyword score first, then the newer file. *)
Definition higherScoreFirst (keywords : list string) (p q : string) : Prop :=
  BrainChat.score (BrainChat.scoreOf keywords q) < BrainChat.score (BrainChat.scoreOf keywords p)
  \/ (BrainChat.score (BrainChat.scoreOf keywords q)
      = BrainChat.score (BrainChat.scoreOf keywords p)
      /\ BrainChat.extractDateFromPath q <= BrainChat.extractDateFromPath p).

(** The order in which [findRelevantFiles] ranks the matches of a query. *)
Definition relevanceOrder (query : string) (p q : string) : Prop :=
  if BrainChat.wantsRecent query
  then newerFirst (BrainChat.extractKeywords query) p q
  else higherScoreFirst (BrainChat.extractKeywords query) p q.

(** The order of the files listed for a directory. *)
Definition newerOrSame (p q : string) : Prop :=
  BrainChat.extractDateFromPath q <= BrainChat.extractDateFromPath p.

(** The calls that report progress within a turn: all but [onStart], the
    usage report and the two calls that end a turn. *)
Definition isProgress (c : Call) : bool :=
  match c with
  | OnStart | OnComplete _ | OnError _ | OnUsage _ => false
  | _ => true
  end.

(** The tokens streamed by a list of calls, in order. *)
Definition tokensOf (cs : list Call) : list string :=
  flat_map (fun c => match c with OnToken t => [t] | _ => [] end) cs.

(** What a stretch of a turn does: its calls are progress calls, and the
    text grows by the tokens among them. *)
Definition streams (cb : StreamCallbacks) (text0 text1 : string) (cs : list Call) : Prop :=
  Forall (fun c => isProgress c = true) cs
  /\ (onToken cb = true -> text1 = text0 ++ concatAll (tokensOf cs)).

(** How a turn ends: with nothing after an abort, with [onError] after a
    failure, else with the usage report and [onComplete] for the text. *)
Definition turnEnding (cb : StreamCallbacks) (model full : string) (ending : list Call)
  : Prop :=
  ending = []
  \/ (exists message, ending = invoke cb (OnError message))
  \/ (exists i o w, ending = reportAndComplete cb model i o w full).

(** The calls of a whole turn: [onStart], progress calls, the ending. *)
Definition turnShape (options : SendMessageOptions) (trace : list Call) : Prop :=
  exists progress full ending,
    trace = (invoke (callbacks options) OnStart ++ progress ++ ending)%list
    /\ streams (callbacks options) "" full progress
    /\ turnEnding (callbacks options) (modelId options) full ending.

(** The requests of a turn, each the one before it with messages added at
    its end; [added] says which additions are allowed. *)
Inductive grows {A : Type} (added : list A -> Prop) : list (list A) -> Prop :=
| grows_one (request : list A) : grows added [request]
| grows_more (request more : list A) (rest : list (list A)) :
    added more -> grows added ((request ++ more)%list :: rest) ->
    grows added (request :: (request ++ more)%list :: rest).

(** The [tool_result] block that answers one queued call. *)
Definition anthropicAnswer (loader : JsPath -> LoadOutcome) (call : Anthropic.PendingToolCall)
  : Anthropic.MessageBlock :=
  Anthropic.tool_result_block (Anthropic.id call)
    (fst (loadOne loader (arg_path (Anthropic.input call)))).

(** The two messages the Anthropic adapter adds after a tool round. *)
Definition anthropicToolRoundAdded (options : SendMessageOptions)
  (more : list Anthropic.Message) : Prop :=
  exists loader text calls,
    loadFileContents options = Some loader
    /\ calls <> []
    /\ (text = [] \/ exists t, text = [Anthropic.text_block t] /\ t <> "")
    /\ more = [ {| Anthropic.role := "assistant";
                   Anthropic.content :=
                     Anthropic.blocks (text ++ map Anthropic.tool_use_block calls)%list |};
                {| Anthropic.role := "user";
                   Anthropic.content := Anthropic.blocks (map (anthropicAnswer loader) calls) |} ].

(** What the OpenAI adapter adds after a tool round: the assistant message
    with its tool calls, then tool messages, each under the id of one of
    those calls. *)
Definition openaiToolRoundAdded (more : list OpenAI.Message) : Prop :=
  exists content calls results,
    calls <> []
    /\ more = (OpenAI.assistant_tool_calls content calls
               :: map (fun tr => OpenAI.tool (fst tr) (snd tr)) results)%list
    /\ Forall (fun tr => In (fst tr) (map OpenAI.id calls)) results.

(** What the Gemini adapter adds after a tool round: a model turn with the
    parts it received, then a user turn with the function responses. *)
Definition geminiToolRoundAdded (more : list Gemini.Content) : Prop :=
  exists modelParts responses,
    modelParts <> []
    /\ more = [ {| Gemini.role := "model"; Gemini.content_parts := modelParts |};
                {| Gemini.role := "user"; Gemini.content_parts := responses |} ].

(** Only [load_file] calls are queued, each also kept for the assistant
    message. *)
Definition anthropicQueued (l : Anthropic.Locals) : Prop :=
  Anthropic.contentBlocks l = Anthropic.pendingToolCalls l
  /\ Forall (fun c => Anthropic.name c = "load_file") (Anthropic.pendingToolCalls l).

(** The tool-call deltas of a stream of chunks, in order. *)
Definition openaiToolDeltas (chunks : list OpenAI.Chunk) : list OpenAI.ToolCallDelta :=
  flat_map (fun c => match OpenAI.delta c with
                     | Some d => default [] (OpenAI.tool_calls d)
                     | None => []
                     end) chunks.

(** The argument fragments sent for the call at [index], in order. *)
Definition openaiFragments (index : Z) (tcs : list OpenAI.ToolCallDelta) : list string :=
  flat_map (fun tc => if default 0 (OpenAI.index tc) =? index
                      then match OpenAI.function_arguments tc with
                           | Some a => [a]
                           | None => []
                           end
                      else []) tcs.

(** The argument text kept for the call at [index]; empty when there is no
    such call. *)
Definition openaiArgumentsAt (index : Z) (m : list (Z * OpenAI.PendingToolCall)) : string :=
  default "" (OpenAI.arguments <$> OpenAI.get index m).

(** The events of one [load_file] tool block: its start, the fragments of
    its input, its stop. *)
Definition anthropicToolBlock (id : string) (fragments : list string)
  : list Anthropic.Event :=
  ([Anthropic.content_block_start (Some (Anthropic.tool_use (Some id) (Some "load_file")))]
   ++ map (fun pj => Anthropic.content_block_delta (Anthropic.input_json_delta (Some pj)))
          fragments
   ++ [Anthropic.content_block_stop])%list.

(** GitHub answered with a file above the size limit. *)
Definition tooLarge (github : Fetched FilesRoute.GithubBody) : bool :=
  match github with
  | FetchResolves response (FilesRoute.contents (Some n) _) =>
      ok response && (FilesRoute.MAX_FILE_SIZE <? n)
  | _ => false
  end.

(** A request that fails before any of the stream is read: [fetch]
    rejects, the status is not 2xx, or the response has no body. *)
Definition requestFailure {B : Type} (r : Fetched (option B)) : option Js.Thrown :=
  match r with
  | FetchRejects e => Some e
  | FetchResolves reply body =>
      if negb (ok reply) then Some (apiError reply)
      else match body with
           | None => Some (Js.Error "No response body")
           | Some _ => None
           end
  end.

(** The text [onError] receives for what was thrown. *)
Definition errorText (e : Js.Thrown) : string := Js.message_or e "Failed to send message".

(** The same under Gemini's adapter, which replaces a text that mentions a
    block or safety. *)
Definition geminiErrorText (e : Js.Thrown) : string :=
  if Js.includes (errorText e) "blocked" || Js.includes (errorText e) "safety"
  then "Response was blocked by safety filters. Try rephrasing your question."
  else errorText e.

(** * Proofs *)

(** ** Strings and callbacks *)

Lemma append_cons (c : ascii) (s t : string) : String c s ++ t = String c (s ++ t).
Proof. reflexivity. Qed.

Lemma append_nil_l (s : string) : "" ++ s = s.
Proof. reflexivity. Qed.

Lemma append_nil_r (s : string) : s ++ "" = s.
Proof.
  induction s as [| c s IH]; [reflexivity |]. now rewrite append_cons, IH.
Qed.

Lemma append_assoc (a b c : string) : (a ++ b) ++ c = a ++ (b ++ c).
Proof.
  induction a as [| x a IH]; [reflexivity |]. now rewrite !append_cons, IH.
Qed.

Lemma invoke_filter (cb : StreamCallbacks) (c : Call) :
  invoke cb c = List.filter (supplied cb) [c].
Proof. unfold invoke. simpl. now destruct (supplied cb c). Qed.

Lemma reportAndComplete_filter (cb : StreamCallbacks) (m : string) (i o w : Z)
  (full : string) :
  reportAndComplete cb m i o w full
  = List.filter (supplied cb) (usageReport m i o w ++ [OnComplete full]).
Proof.
  unfold reportAndComplete, usageReport.
  rewrite List.filter_app, <- invoke_filter. f_equal.
  destruct ((0 <? i) || (0 <? o)); simpl.
  - now destruct (onUsage cb).
  - now rewrite andb_false_r.
Qed.

Lemma concatAll_app (a b : list string) :
  concatAll (a ++ b) = concatAll a ++ concatAll b.
Proof.
  induction a as [| x a IH]; [reflexivity |].
  change (concatAll ((x :: a) ++ b)) with (x ++ concatAll (a ++ b)).
  change (concatAll (x :: a)) with (x ++ concatAll a).
  now rewrite IH, append_assoc.
Qed.

Lemma concatAll_one (t : string) : concatAll [t] = t.
Proof. apply append_nil_r. Qed.

(** ** Anthropic: a stream without tool blocks *)

Lemma anthropicTextDeltas_cons (ev : Anthropic.Event) (evs : list Anthropic.Event) :
  anthropicTextDeltas (ev :: evs)
  = (anthropicTextDeltas [ev] ++ anthropicTextDeltas evs)%list.
Proof. unfold anthropicTextDeltas. simpl. now rewrite app_nil_r. Qed.

Lemma anthropicInputReported_cons (ev : Anthropic.Event) (evs : list Anthropic.Event) :
  anthropicInputReported (ev :: evs)
  = anthropicInputReported [ev] + anthropicInputReported evs.
Proof. simpl. destruct ev as [| | | [k |] | |]; lia. Qed.

Lemma anthropicOutputReported_cons (ev : Anthropic.Event) (evs : list Anthropic.Event) :
  anthropicOutputReported (ev :: evs)
  = anthropicOutputReported [ev] + anthropicOutputReported evs.
Proof. simpl. destruct ev as [| | | | [k |] sr |]; lia. Qed.

Section AnthropicPlain.
Import Anthropic.
Variable JSON_parse : string -> Parse.
Variable options : SendMessageOptions.

Lemma anthropic_onEvent_plain (l : Locals) (ev : Event) :
  anthropicNoTool ev = true ->
  currentToolName l = "" -> pendingToolCalls l = [] ->
  let (l', cs) := onEvent JSON_parse options l ev in
  cs = List.filter (supplied (callbacks options))
         (map OnToken (List.filter Js.truthy (anthropicTextDeltas [ev])))
  /\ fullResponse l' = fullResponse l ++ concatAll (anthropicTextDeltas [ev])
  /\ inputTokens l' = inputTokens l + anthropicInputReported [ev]
  /\ outputTokens l' = outputTokens l + anthropicOutputReported [ev]
  /\ webSearchCount l' = webSearchCount l
  /\ currentToolName l' = "" /\ pendingToolCalls l' = [].
Proof.
  intros Hev Hname Hpend.
  destruct ev as [[[] |] | [[t |] | [pj |] |] | | [k |] | [k |] sr |];
    try discriminate Hev; simpl;
    rewrite ?Hname, ?append_nil_r; simpl;
    try (repeat split; auto; lia).
  - destruct (Js.truthy t) eqn:E; simpl; rewrite ?E; simpl.
    + repeat split; auto; lia.
    + destruct t; [| discriminate E]. rewrite append_nil_r.
      repeat split; auto; lia.
  - destruct (Js.truthy pj); simpl; rewrite ?Hname; simpl; repeat split; auto; lia.
Qed.

Lemma anthropic_readAll_plain (evs : list Event) :
  forallb anthropicNoTool evs = true ->
  forall l, currentToolName l = "" -> pendingToolCalls l = [] ->
  let (l', cs) := readAll JSON_parse options l evs in
  cs = List.filter (supplied (callbacks options))
         (map OnToken (List.filter Js.truthy (anthropicTextDeltas evs)))
  /\ fullResponse l' = fullResponse l ++ concatAll (anthropicTextDeltas evs)
  /\ inputTokens l' = inputTokens l + anthropicInputReported evs
  /\ outputTokens l' = outputTokens l + anthropicOutputReported evs
  /\ webSearchCount l' = webSearchCount l
  /\ pendingToolCalls l' = [].
Proof.
  induction evs as [| ev evs IH]; intros Hall l Hname Hpend.
  - simpl. rewrite append_nil_r. repeat split; auto; lia.
  - simpl in Hall. apply andb_true_iff in Hall as [Hev Hall].
    cbn [readAll].
    pose proof (anthropic_onEvent_plain l ev Hev Hname Hpend) as H1.
    destruct (onEvent JSON_parse options l ev) as [l1 cs1].
    destruct H1 as (Hc1 & Hf1 & Hi1 & Ho1 & Hw1 & Hn1 & Hp1).
    specialize (IH Hall l1 Hn1 Hp1).
    destruct (readAll JSON_parse options l1 evs) as [l2 cs2].
    destruct IH as (Hc2 & Hf2 & Hi2 & Ho2 & Hw2 & Hp2).
    rewrite anthropicTextDeltas_cons, anthropicInputReported_cons,
      anthropicOutputReported_cons.
    rewrite List.filter_app, map_app, List.filter_app, concatAll_app.
    subst cs1 cs2. split; [reflexivity |].
    rewrite Hf2, Hf1, Hi2, Hi1, Ho2, Ho1, Hw2, Hw1, append_assoc.
    repeat split; auto; lia.
Qed.

Lemma anthropic_plain_turn (reply : HttpReply) (evs : list Event)
  (later : list (Fetched (option (Body Event)))) :
  ok reply = true -> forallb anthropicNoTool evs = true ->
  sendMessage JSON_parse options (streamed reply evs :: later)
  = Some (plainTurn (callbacks options)
            (List.filter Js.truthy (anthropicTextDeltas evs))
            (usageReport (modelId options)
               (anthropicInputReported evs) (anthropicOutputReported evs) 0)
            (concatAll (anthropicTextDeltas evs))).
Proof.
  intros Hok Hall. unfold sendMessage, streamed. cbn [makeStreamingRequest].
  rewrite Hok. cbn [negb events ending].
  pose proof (anthropic_readAll_plain evs Hall (initLocals 0 0 0 "") eq_refl eq_refl) as H.
  destruct (readAll JSON_parse options (initLocals 0 0 0 "") evs) as [l cs].
  destruct H as (Hc & Hf & Hi & Ho & Hw & Hp).
  simpl in Hf, Hi, Ho, Hw.
  rewrite Hp. change (0 <? length (@nil PendingToolCall))%nat with false.
  rewrite andb_false_r.
  unfold plainTurn. rewrite !List.filter_app, <- invoke_filter.
  destruct (loadFileContents options); cbn [calls settled];
    rewrite reportAndComplete_filter, Hc, Hf, Hi, Ho, Hw, List.filter_app, app_nil_r;
    reflexivity.
Qed.

End AnthropicPlain.

(** ** OpenAI: a stream without tool calls *)

Lemma openaiTextDeltas_cons (c : OpenAI.Chunk) (chunks : list OpenAI.Chunk) :
  openaiTextDeltas (c :: chunks)
  = (openaiTextDeltas [c] ++ openaiTextDeltas chunks)%list.
Proof. unfold openaiTextDeltas. simpl. now rewrite app_nil_r. Qed.

Section OpenAIPlain.
Import OpenAI.
Variable JSON_parse : string -> Parse.
Variable options : SendMessageOptions.

Lemma openai_onChunk_plain (l : Locals) (c : Chunk) :
  openaiNoTool c = true -> pendingToolCalls l = [] ->
  let (l', cs) := onChunk JSON_parse options l c in
  cs = List.filter (supplied (callbacks options))
         (map OnToken (List.filter Js.truthy (openaiTextDeltas [c])))
  /\ fullResponse l' = fullResponse l ++ concatAll (openaiTextDeltas [c])
  /\ (inputTokens l', outputTokens l')
     = openaiUsageAfter [c] (inputTokens l, outputTokens l)
  /\ pendingToolCalls l' = [].
Proof.
  intros Hc Hpend. destruct c as [d fr u].
  unfold onChunk, openaiNoTool, openaiTextDeltas, openaiUsageAfter in *.
  cbn [delta finish_reason usage flat_map fold_left] in *.
  destruct d as [[content tcs] |]; cbn [delta_content tool_calls] in *.
  - assert (Htools : match tcs with
                     | Some tcs0 => onToolCallDeltas JSON_parse options (pendingToolCalls l) tcs0
                     | None => (pendingToolCalls l, [])
                     end = ([], [])).
    { destruct tcs as [[| tc tcs] |]; try discriminate Hc; now rewrite Hpend. }
    rewrite Htools.
    destruct content as [t |]; rewrite ?app_nil_r, ?concatAll_one.
    + destruct (Js.truthy t) eqn:E; cbn [List.filter map]; rewrite ?E.
      * destruct u; cbn; rewrite ?app_nil_r; repeat split; reflexivity.
      * destruct t; [| discriminate E]. rewrite !append_nil_r.
        destruct u; cbn; rewrite ?app_nil_r; repeat split; reflexivity.
    + change (concatAll []) with "". rewrite append_nil_r.
      destruct u; cbn; rewrite ?app_nil_r; repeat split; auto.
  - change (concatAll []) with "". rewrite append_nil_r.
    destruct u; cbn; rewrite ?app_nil_r; repeat split; auto.
Qed.

Lemma openai_readAll_plain (chunks : list Chunk) :
  forallb openaiNoTool chunks = true ->
  forall l, pendingToolCalls l = [] ->
  let (l', cs) := readAll JSON_parse options l chunks in
  cs = List.filter (supplied (callbacks options))
         (map OnToken (List.filter Js.truthy (openaiTextDeltas chunks)))
  /\ fullResponse l' = fullResponse l ++ concatAll (openaiTextDeltas chunks)
  /\ (inputTokens l', outputTokens l')
     = openaiUsageAfter chunks (inputTokens l, outputTokens l)
  /\ pendingToolCalls l' = [].
Proof.
  induction chunks as [| c chunks IH]; intros Hall l Hpend.
  - simpl. rewrite append_nil_r. repeat split; auto.
  - simpl in Hall. apply andb_true_iff in Hall as [Hc Hall].
    cbn [readAll].
    pose proof (openai_onChunk_plain l c Hc Hpend) as H1.
    destruct (onChunk JSON_parse options l c) as [l1 cs1].
    destruct H1 as (Hc1 & Hf1 & Hu1 & Hp1).
    specialize (IH Hall l1 Hp1).
    destruct (readAll JSON_parse options l1 chunks) as [l2 cs2].
    destruct IH as (Hc2 & Hf2 & Hu2 & Hp2).
    rewrite openaiTextDeltas_cons.
    rewrite List.filter_app, map_app, List.filter_app, concatAll_app.
    subst cs1 cs2. split; [reflexivity |].
    rewrite Hf2, Hf1, Hu2, Hu1, append_assoc.
    repeat split; auto.
Qed.

Lemma openai_plain_turn (reply : HttpReply) (chunks : list Chunk)
  (later : list (Fetched (option (Body Chunk)))) :
  ok reply = true -> forallb openaiNoTool chunks = true ->
  sendMessage JSON_parse options (streamed reply chunks :: later)
  = Some (plainTurn (callbacks options)
            (List.filter Js.truthy (openaiTextDeltas chunks))
            (usageReport (modelId options)
               (fst (openaiUsageAfter chunks (0, 0)))
               (snd (openaiUsageAfter chunks (0, 0))) 0)
            (concatAll (openaiTextDeltas chunks))).
Proof.
  intros Hok Hall. unfold sendMessage, streamed. cbn [makeStreamingRequest].
  rewrite Hok. cbn [negb events ending].
  pose proof (openai_readAll_plain chunks Hall (initLocals 0 0 "") eq_refl) as H.
  destruct (readAll JSON_parse options (initLocals 0 0 "") chunks) as [l cs].
  destruct H as (Hc & Hf & Hu & Hp).
  cbn [initLocals fullResponse inputTokens outputTokens] in Hf, Hu.
  rewrite <- Hu. cbn [fst snd].
  rewrite Hp. change (0 <? length (@nil (Z * PendingToolCall)))%nat with false.
  rewrite andb_false_r.
  unfold plainTurn. rewrite !List.filter_app, <- invoke_filter.
  destruct (loadFileContents options); cbn [calls settled];
    rewrite reportAndComplete_filter, Hc, Hf, List.filter_app, app_nil_r;
    reflexivity.
Qed.

End OpenAIPlain.

(** ** Gemini: a stream without function calls *)

Lemma geminiTextDeltas_cons (c : Gemini.Chunk) (chunks : list Gemini.Chunk) :
  geminiTextDeltas (c :: chunks)
  = (geminiTextDeltas [c] ++ geminiTextDeltas chunks)%list.
Proof. unfold geminiTextDeltas. simpl. now rewrite app_nil_r. Qed.

Section GeminiPlain.
Import Gemini.
Variable options : SendMessageOptions.

Lemma gemini_onParts_plain (ps : list Part) :
  forallb (fun p => match functionCall p with Some _ => false | None => true end) ps = true ->
  forall (r : string) (pending : list PendingFunctionCall),
  onParts options (r, pending) ps
  = ((r ++ concatAll (geminiPartTexts ps), pending),
     List.filter (supplied (callbacks options))
       (map OnToken (List.filter Js.truthy (geminiPartTexts ps)))).
Proof.
  induction ps as [| p ps IH]; intros Hall r pending.
  - simpl. now rewrite append_nil_r.
  - simpl in Hall. apply andb_true_iff in Hall as [Hp Hall].
    cbn [onParts]. unfold onPart.
    destruct p as [t fc]. cbn [text functionCall] in *.
    destruct fc; [discriminate Hp |].
    change (geminiPartTexts ({| text := t; functionCall := None |} :: ps))
      with ((match t with Some t0 => [t0] | None => [] end) ++ geminiPartTexts ps)%list.
    rewrite List.filter_app, map_app, List.filter_app, concatAll_app, <- append_assoc.
    destruct t as [t |].
    + destruct (Js.truthy t) eqn:E.
      * rewrite IH by exact Hall. rewrite concatAll_one.
        cbn [List.filter map]. rewrite E. cbn [List.filter map].
        rewrite app_nil_r. reflexivity.
      * rewrite IH by exact Hall.
        destruct t; [| discriminate E]. rewrite concatAll_one, append_nil_r.
        reflexivity.
    + rewrite IH by exact Hall. change (concatAll []) with "". rewrite append_nil_r.
      reflexivity.
Qed.

Lemma gemini_onChunk_plain (l : Locals) (c : Chunk) :
  geminiNoTool c = true -> pendingFunctionCalls l = [] ->
  let (l', cs) := onChunk options l c in
  cs = List.filter (supplied (callbacks options))
         (map OnToken (List.filter Js.truthy (geminiTextDeltas [c])))
  /\ fullResponse l' = fullResponse l ++ concatAll (geminiTextDeltas [c])
  /\ (inputTokens l', outputTokens l')
     = geminiUsageAfter [c] (inputTokens l, outputTokens l)
  /\ pendingFunctionCalls l' = [].
Proof.
  intros Hc Hpend. destruct c as [cand u].
  unfold onChunk, geminiNoTool, geminiTextDeltas, geminiUsageAfter, geminiParts in *.
  cbn [candidate usageMetadata flat_map fold_left fst snd] in *.
  rewrite app_nil_r.
  destruct cand as [[ps fr] |]; cbn [parts default] in *.
  - destruct ps as [ps |]; cbn [default] in *.
    + rewrite gemini_onParts_plain by exact Hc. fold (geminiPartTexts ps).
      destruct u; cbn; repeat split; auto.
    + rewrite append_nil_r. destruct u; cbn; repeat split; auto.
  - rewrite append_nil_r. destruct u; cbn; repeat split; auto.
Qed.

Lemma gemini_readAll_plain (chunks : list Chunk) :
  forallb geminiNoTool chunks = true ->
  forall l, pendingFunctionCalls l = [] ->
  let (l', cs) := readAll options l chunks in
  cs = List.filter (supplied (callbacks options))
         (map OnToken (List.filter Js.truthy (geminiTextDeltas chunks)))
  /\ fullResponse l' = fullResponse l ++ concatAll (geminiTextDeltas chunks)
  /\ (inputTokens l', outputTokens l')
     = geminiUsageAfter chunks (inputTokens l, outputTokens l)
  /\ pendingFunctionCalls l' = [].
Proof.
  induction chunks as [| c chunks IH]; intros Hall l Hpend.
  - simpl. rewrite append_nil_r. repeat split; auto.
  - simpl in Hall. apply andb_true_iff in Hall as [Hc Hall].
    cbn [readAll].
    pose proof (gemini_onChunk_plain l c Hc Hpend) as H1.
    destruct (onChunk options l c) as [l1 cs1].
    destruct H1 as (Hc1 & Hf1 & Hu1 & Hp1).
    specialize (IH Hall l1 Hp1).
    destruct (readAll options l1 chunks) as [l2 cs2].
    destruct IH as (Hc2 & Hf2 & Hu2 & Hp2).
    rewrite geminiTextDeltas_cons.
    rewrite List.filter_app, map_app, List.filter_app, concatAll_app.
    subst cs1 cs2. split; [reflexivity |].
    rewrite Hf2, Hf1, Hu2, Hu1, append_assoc.
    repeat split; auto.
Qed.

Lemma gemini_plain_turn (reply : HttpReply) (chunks : list Chunk)
  (later : list (Fetched (option (Body Chunk)))) :
  ok reply = true -> forallb geminiNoTool chunks = true ->
  sendMessage options (streamed reply chunks :: later)
  = Some (plainTurn (callbacks options)
            (List.filter Js.truthy (geminiTextDeltas chunks))
            (usageReport (modelId options)
               (fst (geminiUsageAfter chunks (0, 0)))
               (snd (geminiUsageAfter chunks (0, 0))) 0)
            (concatAll (geminiTextDeltas chunks))).
Proof.
  intros Hok Hall. unfold sendMessage, streamed. cbn [makeStreamingRequest].
  rewrite Hok. cbn [negb events ending].
  pose proof (gemini_readAll_plain chunks Hall (initLocals 0 0 "") eq_refl) as H.
  destruct (readAll options (initLocals 0 0 "") chunks) as [l cs].
  destruct H as (Hc & Hf & Hu & Hp).
  cbn [initLocals fullResponse inputTokens outputTokens] in Hf, Hu.
  rewrite <- Hu. cbn [fst snd].
  rewrite Hp. change (0 <? length (@nil PendingFunctionCall))%nat with false.
  unfold plainTurn. rewrite !List.filter_app, <- invoke_filter.
  destruct (loadFileContents options); cbn [calls settled];
    rewrite reportAndComplete_filter, Hc, Hf, List.filter_app, app_nil_r;
    reflexivity.
Qed.

End GeminiPlain.

(** ** The callbacks of a plain turn *)

Lemma usageReport_shape (m : string) (i o w : Z) :
  usageReport m i o w = []
  \/ exists u, usageReport m i o w = [OnUsage u]
               /\ inputTokens u = i /\ outputTokens u = o /\ (0 < i \/ 0 < o).
Proof.
  unfold usageReport. destruct ((0 <? i) || (0 <? o)) eqn:E; [right | now left].
  eexists. split; [reflexivity |]. cbn.
  apply orb_true_iff in E as [E | E]; apply Z.ltb_lt in E; auto.
Qed.

Lemma plainTurn_no_error (cb : StreamCallbacks) (tokens : list string) (m : string)
  (i o w : Z) (full : string) :
  Forall (fun c => isError c = false) (plainTurn cb tokens (usageReport m i o w) full).
Proof.
  unfold plainTurn. apply List.Forall_forall. intros c Hc.
  apply List.filter_In in Hc as [Hc _].
  rewrite !in_app_iff in Hc. destruct Hc as [Hc | [Hc | [Hc | Hc]]].
  - destruct Hc as [<- | []]. reflexivity.
  - apply in_map_iff in Hc as (t & <- & _). reflexivity.
  - destruct (usageReport_shape m i o w) as [E | (u & E & _)]; rewrite E in Hc.
    + destruct Hc.
    + destruct Hc as [<- | []]. reflexivity.
  - destruct Hc as [<- | []]. reflexivity.
Qed.

Lemma plainTurn_all (tokens : list string) (usage : list Call) (full : string) :
  Forall (fun c => supplied allCallbacks c = true) usage ->
  plainTurn allCallbacks tokens usage full
  = ([OnStart] ++ map OnToken tokens ++ usage ++ [OnComplete full])%list.
Proof.
  intros H. unfold plainTurn.
  assert (Hall : forall l, Forall (fun c => supplied allCallbacks c = true) l ->
                           List.filter (supplied allCallbacks) l = l).
  { induction 1 as [| c l Hc _ IH]; [reflexivity |]. simpl. now rewrite Hc, IH. }
  apply Hall. repeat apply Forall_app_2; auto.
  apply List.Forall_forall. intros c Hc.
  apply in_map_iff in Hc as (t & <- & _). reflexivity.
Qed.

(** C2. A turn whose only response is a 2xx stream read to its end, with no
    tool call in it, invokes in this order: [onStart]; [onToken] for each
    non-empty text delta; [onUsage] once if a token count is positive, else
    not at all; [onComplete] with the concatenation of the text deltas.
    [onError] is not invoked.  A callback the caller did not supply is
    skipped. *)
Theorem plain_turn_callback_order :
  (forall JSON_parse options reply evs later,
     ok reply = true -> forallb anthropicNoTool evs = true ->
     Anthropic.sendMessage JSON_parse options (streamed reply evs :: later)
     = Some (plainTurn (callbacks options)
               (List.filter Js.truthy (anthropicTextDeltas evs))
               (usageReport (modelId options)
                  (anthropicInputReported evs) (anthropicOutputReported evs) 0)
               (concatAll (anthropicTextDeltas evs))))
  /\ (forall JSON_parse options reply chunks later,
        ok reply = true -> forallb openaiNoTool chunks = true ->
        OpenAI.sendMessage JSON_parse options (streamed reply chunks :: later)
        = Some (plainTurn (callbacks options)
                  (List.filter Js.truthy (openaiTextDeltas chunks))
                  (usageReport (modelId options)
                     (fst (openaiUsageAfter chunks (0, 0)))
                     (snd (openaiUsageAfter chunks (0, 0))) 0)
                  (concatAll (openaiTextDeltas chunks))))
  /\ (forall options reply chunks later,
        ok reply = true -> forallb geminiNoTool chunks = true ->
        Gemini.sendMessage options (streamed reply chunks :: later)
        = Some (plainTurn (callbacks options)
                  (List.filter Js.truthy (geminiTextDeltas chunks))
                  (usageReport (modelId options)
                     (fst (geminiUsageAfter chunks (0, 0)))
                     (snd (geminiUsageAfter chunks (0, 0))) 0)
                  (concatAll (geminiTextDeltas chunks))))
  /\ (forall cb tokens m i o full,
        Forall (fun c => isError c = false) (plainTurn cb tokens (usageReport m i o 0) full)
        /\ (usageReport m i o 0 = []
            \/ exists u, usageReport m i o 0 = [OnUsage u] /\ (0 < i \/ 0 < o))
        /\ concatAll (List.filter Js.truthy tokens) = concatAll tokens
        /\ plainTurn allCallbacks tokens (usageReport m i o 0) full
           = ([OnStart] ++ map OnToken tokens ++ usageReport m i o 0
              ++ [OnComplete full])%list).
Proof.
  split; [| split; [| split]].
  - intros. now apply anthropic_plain_turn.
  - intros. now apply openai_plain_turn.
  - intros. now apply gemini_plain_turn.
  - intros cb tokens m i o full. split; [apply plainTurn_no_error | split; [| split]].
    + destruct (usageReport_shape m i o 0) as [E | (u & E & _ & _ & H)]; eauto.
    + induction tokens as [| t tokens IH]; [reflexivity |].
      cbn [List.filter]. destruct (Js.truthy t) eqn:E.
      * change (concatAll (t :: List.filter Js.truthy tokens))
          with (t ++ concatAll (List.filter Js.truthy tokens)).
        now rewrite IH.
      * destruct t; [| discriminate E]. exact IH.
    + apply plainTurn_all.
      destruct (usageReport_shape m i o 0) as [E | (u & E & _)]; rewrite E;
        repeat constructor.
Qed.

Lemma plain_turn_callback_order_witness :
  Anthropic.sendMessage parsePathObject (exampleOptions "claude-haiku-4-5-20251001")
    [anthropicTextRound]
  = Some [ OnStart; OnToken "It says alpha.";
           OnUsage (usageOf "claude-haiku-4-5-20251001" 150 30);
           OnComplete "It says alpha." ].
Proof.
  exact (proj1 plain_turn_callback_order parsePathObject
           (exampleOptions "claude-haiku-4-5-20251001") ok200
           [ Anthropic.message_start (Some 150);
             Anthropic.content_block_delta (Anthropic.text_delta (Some "It says alpha."));
             Anthropic.message_delta (Some 30) (Some "end_turn") ]
           [] eq_refl eq_refl).
Defined.


(** ** Pricing *)

Lemma getModelById_catalog (m : ModelDefinition) :
  In m MODELS -> getModelById (id m) = Some m.
Proof.
  unfold MODELS. simpl.
  intros H.
  repeat (destruct H as [<- | H]; [reflexivity |]).
  destruct H.
Qed.

Lemma getModelById_unknown (modelId : string) :
  ~ In modelId (map id MODELS) -> getModelById modelId = None.
Proof.
  intros H. unfold getModelById.
  destruct (List.find _ MODELS) as [m|] eqn:E; [| reflexivity].
  apply List.find_some in E as [Hin Heq].
  apply String.eqb_eq in Heq. subst modelId.
  exfalso. apply H. now apply in_map.
Qed.

(** C6. For every catalog model a million input tokens alone cost exactly its
    input price; an id outside the catalog costs 0 whatever the counts;
    for a catalog model the cost is the linear formula over its two prices
    and the flat search price. *)
Theorem calculateCost_catalog_pricing :
  (forall m, In m MODELS ->
     calculateCost 1000000 0 (id m) 0 = inputCostPerMillion m)
  /\ (forall modelId i o w, ~ In modelId (map id MODELS) ->
        calculateCost i o modelId w = 0%float)
  /\ (forall m i o w, In m MODELS ->
        calculateCost i o (id m) w
        = (i / 1000000 * inputCostPerMillion m
           + o / 1000000 * outputCostPerMillion m
           + w * 0.01)%float).
Proof.
  split; [| split].
  - intros m H. unfold MODELS in H. simpl in H.
    repeat (destruct H as [<- | H]; [vm_compute; reflexivity |]).
    destruct H.
  - intros modelId i o w H. unfold calculateCost.
    now rewrite (getModelById_unknown _ H).
  - intros m i o w H. unfold calculateCost.
    now rewrite (getModelById_catalog _ H).
Qed.

Lemma calculateCost_catalog_pricing_witness :
  calculateCost 1000000 0 "gpt-5-nano" 0 = 0.05%float
  /\ calculateCost 123 456 "gpt-4o" 7 = 0%float.
Proof.
  split.
  - apply (proj1 calculateCost_catalog_pricing
             {| id := "gpt-5-nano"; displayName := "GPT-5 Nano";
                provider := openai; tier := cheap;
                inputCostPerMillion := 0.05; outputCostPerMillion := 0.40 |}).
    simpl. tauto.
  - apply (proj1 (proj2 calculateCost_catalog_pricing)).
    simpl. intros H.
    repeat (destruct H as [H | H]; [discriminate H |]). exact H.
Defined.

(** ** Model selection *)

Lemma defaultModelId_cheap (p : Provider) :
  exists m, getDefaultModelForProvider p = Some m
            /\ In m (getModelsForProvider p) /\ tier m = cheap.
Proof. destruct p; eexists; (split; [reflexivity |]); simpl; auto. Qed.

Lemma getModelsForProvider_spec (p : Provider) (m : ModelDefinition) :
  In m (getModelsForProvider p) <-> In m MODELS /\ provider m = p.
Proof.
  unfold getModelsForProvider. rewrite List.filter_In.
  split; intros [H1 H2]; split; auto.
  - destruct (provider m), p; simpl in H2; congruence.
  - subst p. now destruct (provider m).
Qed.

Lemma catalog_ids_unique (m1 m2 : ModelDefinition) :
  In m1 MODELS -> In m2 MODELS -> id m1 = id m2 -> m1 = m2.
Proof.
  intros H1 H2 E.
  apply getModelById_catalog in H1, H2. rewrite E in H1. congruence.
Qed.

Lemma existsb_id_In (s : string) (l : list ModelDefinition) :
  existsb (fun m => String.eqb (id m) s) l = true ->
  exists m, In m l /\ id m = s.
Proof.
  intros H. apply List.existsb_exists in H as (m & Hin & Heq).
  apply String.eqb_eq in Heq. eauto.
Qed.

(** C10. The selected model of a provider is always one of that provider's
    catalog models: a stored value that is not one of their ids gives way to
    the provider's cheap-tier default, and no id of another provider's model
    is ever returned. *)
Theorem getSelectedModel_of_provider (p : Provider) (storage : StorageRef) :
  (exists m, getSelectedModel p storage = Some (id m)
             /\ In m MODELS /\ provider m = p)
  /\ ((forall st s, storage = Some st ->
         getItem st (modelStorageKey (PROVIDERS p)) = Some s ->
         ~ In s (map id (getModelsForProvider p)) ->
       exists d, getSelectedModel p storage = Some (id d)
                 /\ getDefaultModelForProvider p = Some d /\ tier d = cheap))
  /\ (forall m', In m' MODELS -> provider m' <> p ->
        getSelectedModel p storage <> Some (id m')).
Proof.
  assert (Hmain : exists m, getSelectedModel p storage = Some (id m)
                            /\ In m MODELS /\ provider m = p).
  { destruct (defaultModelId_cheap p) as (d & Hd & Hin & _).
    apply getModelsForProvider_spec in Hin as [Hin Hp].
    assert (Hdef : defaultModelId p = Some (id d))
      by (unfold defaultModelId; now rewrite Hd).
    unfold getSelectedModel.
    destruct storage as [st|]; [| eauto].
    destruct (getItem st _) as [s|]; [| eauto].
    destruct (Js.truthy s && existsb _ _) eqn:E; [| eauto].
    apply andb_true_iff in E as [_ E].
    apply existsb_id_In in E as (m & Hm & <-).
    apply getModelsForProvider_spec in Hm as [Hm1 Hm2]. eauto. }
  split; [exact Hmain | split].
  - intros st s -> Hs Hnot.
    destruct (defaultModelId_cheap p) as (d & Hd & _ & Hc).
    exists d. split; [| auto].
    unfold getSelectedModel. rewrite Hs.
    destruct (Js.truthy s && existsb _ _) eqn:E.
    + apply andb_true_iff in E as [_ E].
      apply existsb_id_In in E as (m & Hm & <-).
      exfalso. apply Hnot. now apply in_map.
    + unfold defaultModelId. now rewrite Hd.
  - intros m' Hin' Hne Heq.
    destruct Hmain as (m & Hsel & Hin & Hp).
    rewrite Hsel in Heq. injection Heq as Heq.
    apply Hne. rewrite <- (catalog_ids_unique _ _ Hin Hin' Heq). exact Hp.
Qed.

Lemma getSelectedModel_of_provider_witness :
  getSelectedModel openai
    (Some (<["brain_openai_model" := "claude-haiku-4-5-20251001"]> ∅))
  = Some "gpt-5-nano".
Proof.
  destruct (proj1 (proj2 (getSelectedModel_of_provider openai
              (Some (<["brain_openai_model" := "claude-haiku-4-5-20251001"]> ∅))))
              _ "claude-haiku-4-5-20251001" eq_refl)
    as (d & Hsel & Hd & _).
  - reflexivity.
  - simpl. intros [H | [H | []]]; discriminate H.
  - rewrite Hsel. vm_compute in Hd. injection Hd as <-. reflexivity.
Defined.


(** ** Active provider *)

Lemma firstConfiguredProvider_spec (st : Storage) :
  (forall p, hasApiKey p (Some st) = true ->
     hasApiKey (firstConfiguredProvider st) (Some st) = true)
  /\ ((forall p, hasApiKey p (Some st) = false) ->
      firstConfiguredProvider st = anthropic).
Proof.
  unfold firstConfiguredProvider, hasApiKey, getApiKey.
  destruct (List.find _ getAllProviders) as [q|] eqn:E.
  - apply List.find_some in E as [_ E]. split; [auto |].
    intros H. now rewrite H in E.
  - split; [| auto]. intros p Hp.
    pose proof (List.find_none _ _ E p) as Hn. simpl in Hn.
    rewrite Hn in Hp; [discriminate |].
    unfold getAllProviders. destruct p; simpl; auto.
Qed.

Lemma Provider_of_saved_to_string (p : Provider) :
  Provider_of_saved (Some (Provider_to_string p)) = Some p.
Proof. now destruct p. Qed.

Lemma storageKey_not_active (p : Provider) :
  ACTIVE_PROVIDER <> storageKey (PROVIDERS p).
Proof. destruct p; discriminate. Qed.

Lemma getItem_key_setActive (st : Storage) (v : string) (p : Provider) :
  getItem (setItem ACTIVE_PROVIDER v st) (storageKey (PROVIDERS p))
  = getItem st (storageKey (PROVIDERS p)).
Proof.
  unfold getItem, setItem. apply lookup_insert_ne, storageKey_not_active.
Qed.

Lemma firstConfiguredProvider_setActive (st : Storage) (v : string) :
  firstConfiguredProvider (setItem ACTIVE_PROVIDER v st) = firstConfiguredProvider st.
Proof.
  unfold firstConfiguredProvider, getAllProviders. cbn [List.find].
  now rewrite !getItem_key_setActive.
Qed.

Lemma getActiveProvider_has_key (storage : StorageRef) (p : Provider) :
  hasApiKey p storage = true ->
  hasApiKey (getActiveProvider storage) storage = true.
Proof.
  destruct storage as [st|]; [| discriminate].
  intros Hp. unfold getActiveProvider.
  destruct (Provider_of_saved _) as [q|].
  - destruct (truthy_item (getItem st (storageKey (PROVIDERS q)))) eqn:E.
    + exact E.
    + now apply (proj1 (firstConfiguredProvider_spec st) p).
  - now apply (proj1 (firstConfiguredProvider_spec st) p).
Qed.

(** C4, as stated, fails: with keys stored for openai and gemini and gemini
    active, selecting anthropic, which has no key, moves the active provider
    to openai. *)
Lemma setActiveProvider_keyless_changes_active :
  hasApiKey anthropic (Some exampleStore) = false
  /\ getActiveProvider (Some exampleStore) = gemini
  /\ getActiveProvider (setActiveProvider anthropic (Some exampleStore)) = openai
  /\ getActiveProvider (setActiveProvider anthropic (Some exampleStore))
     <> getActiveProvider (Some exampleStore).
Proof. vm_compute. repeat split; discriminate. Qed.

(** C4, amended. In every storage state the active provider has a non-empty
    stored key as soon as some provider has one, and is anthropic when none
    has.  Selecting a provider without a stored key never makes it active
    while a key is stored: the active provider is then the first of
    anthropic, openai, gemini that has a key, whatever was active before.
    The settings page's handler rejects such a selection and leaves the
    store as it was. *)
Theorem active_provider_fallback (storage : StorageRef) :
  ((exists p, hasApiKey p storage = true) ->
     hasApiKey (getActiveProvider storage) storage = true)
  /\ ((forall p, hasApiKey p storage = false) ->
      getActiveProvider storage = anthropic)
  /\ (forall p, hasApiKey p storage = false ->
        getActiveProvider (setActiveProvider p storage)
        = match storage with
          | Some st => firstConfiguredProvider st
          | None => anthropic
          end
        /\ ((exists q, hasApiKey q storage = true) ->
            getActiveProvider (setActiveProvider p storage) <> p)
        /\ handleProviderChange p storage = storage).
Proof.
  split; [| split].
  - intros [p Hp]. exact (getActiveProvider_has_key _ _ Hp).
  - intros Hnone. destruct storage as [st|]; [| reflexivity].
    unfold getActiveProvider.
    destruct (Provider_of_saved _) as [q|].
    + specialize (Hnone q) as Hq. unfold hasApiKey, getApiKey in Hq. rewrite Hq.
      now apply firstConfiguredProvider_spec.
    + now apply firstConfiguredProvider_spec.
  - intros p Hp.
    assert (Hset : getActiveProvider (setActiveProvider p storage)
                   = match storage with
                     | Some st => firstConfiguredProvider st
                     | None => anthropic
                     end).
    { destruct storage as [st|]; [| reflexivity].
      unfold setActiveProvider, getActiveProvider.
      replace (getItem (setItem ACTIVE_PROVIDER (Provider_to_string p) st) ACTIVE_PROVIDER)
        with (Some (Provider_to_string p))
        by (unfold getItem, setItem; now rewrite lookup_insert_eq).
      rewrite Provider_of_saved_to_string, getItem_key_setActive.
      unfold hasApiKey, getApiKey in Hp. rewrite Hp.
      apply firstConfiguredProvider_setActive. }
    split; [exact Hset | split].
    + intros [q Hq] Heq. rewrite Hset in Heq.
      destruct storage as [st|]; [| discriminate].
      pose proof (proj1 (firstConfiguredProvider_spec st) q Hq) as Hk.
      rewrite Heq in Hk. congruence.
    + unfold handleProviderChange. now rewrite Hp.
Qed.

Lemma active_provider_fallback_witness :
  getActiveProvider (setActiveProvider anthropic (Some exampleStore)) = openai
  /\ handleProviderChange anthropic (Some exampleStore) = Some exampleStore.
Proof.
  destruct (proj2 (proj2 (active_provider_fallback (Some exampleStore))) anthropic)
    as (H1 & _ & H3).
  - vm_compute. reflexivity.
  - split; [rewrite H1; vm_compute; reflexivity | exact H3].
Defined.

(** The claim over the states the exported operations reach. *)
Lemma reachable_active_has_key (init s : StorageRef) (p : Provider) :
  reachable init s -> hasApiKey p s = true ->
  hasApiKey (getActiveProvider s) s = true.
Proof. intros _. apply getActiveProvider_has_key. Qed.

(** ** Key validation *)

(** C8, as stated, fails: the OpenAI adapter passes a 403 on with the
    vendor's message, and the Gemini adapter does so with a 401 while it
    reads a 400 as an invalid key. *)
Lemma validateKey_auth_statuses_differ :
  validateKey openai
    (FetchResolves {| status := 403; errorBody := error_body (Some "Country not supported") |} tt)
  = {| valid := false; error := Some "Country not supported" |}
  /\ isInvalidKeyResult
       (validateKey openai
          (FetchResolves {| status := 403; errorBody := error_body (Some "Country not supported") |} tt))
     = false
  /\ isInvalidKeyResult
       (validateKey gemini (FetchResolves {| status := 401; errorBody := error_body None |} tt))
     = false
  /\ validateKey gemini (FetchResolves {| status := 400; errorBody := error_body (Some "Bad request") |} tt)
     = {| valid := false; error := Some "Invalid API key" |}.
Proof. vm_compute. repeat split. Qed.

(** An error body that is the JSON value [null]: reading [error.error]
    throws inside the [try], and the result carries the TypeError's text. *)
Lemma validateKey_null_error_body (p : Provider) (r : HttpReply) (typeError : string) :
  ok r = false -> ~ In (status r) (authStatuses p) ->
  errorBody r = null_body typeError ->
  validateKey p (FetchResolves r tt) = {| valid := false; error := Some typeError |}.
Proof.
  intros Hok Hnot Hbody.
  assert (Hres : apiErrorResult r = {| valid := false; error := Some typeError |}).
  { unfold apiErrorResult, apiErrorMessage. now rewrite Hbody. }
  rewrite <- Hres.
  destruct p; simpl in *; rewrite Hok.
  + destruct (status r =? 401)%nat eqn:E1;
      [apply Nat.eqb_eq in E1; lia |].
    destruct (status r =? 403)%nat eqn:E2;
      [apply Nat.eqb_eq in E2; lia |].
    reflexivity.
  + destruct (status r =? 401)%nat eqn:E1;
      [apply Nat.eqb_eq in E1; lia |].
    reflexivity.
  + destruct (status r =? 400)%nat eqn:E1;
      [apply Nat.eqb_eq in E1; lia |].
    destruct (status r =? 403)%nat eqn:E2;
      [apply Nat.eqb_eq in E2; lia |].
    reflexivity.
Qed.

(** C8, amended. [validateKey] always returns a result, and the result is
    valid exactly for a 2xx response.  The statuses read as a key problem
    are 401 and 403 for Anthropic (403 with its own permissions message),
    401 for OpenAI, 400 and 403 for Gemini.  Any other status, with an
    error body that is not the JSON value null, gives the vendor's message
    when there is a non-empty one, else the text API error with the status.
    A rejected fetch gives the message of the error, or a fixed text when
    what was thrown is not an error object. *)
Theorem validateKey_outcomes (p : Provider) :
  (forall r, ok r = true ->
     validateKey p (FetchResolves r tt) = {| valid := true; error := None |})
  /\ (forall r, In (status r) (authStatuses p) ->
        validateKey p (FetchResolves r tt)
        = {| valid := false; error := Some (authMessage p (status r)) |})
  /\ (forall r message, ok r = false -> ~ In (status r) (authStatuses p) ->
        errorBody r = error_body message ->
        validateKey p (FetchResolves r tt)
        = {| valid := false;
             error := Some (match message with
                            | Some m => if Js.truthy m then m
                                        else "API error: " ++ pretty (status r)
                            | None => "API error: " ++ pretty (status r)
                            end) |})
  /\ (forall e,
        validateKey p (FetchRejects e)
        = {| valid := false;
             error := Some (match e with
                            | Js.ErrorObj _ m => m
                            | Js.NotAnError => "Failed to validate key"
                            end) |})
  /\ (forall answer,
        valid (validateKey p answer)
        = match answer with
          | FetchResolves r _ => ok r
          | FetchRejects _ => false
          end).
Proof.
  split; [| split; [| split; [| split]]].
  - intros r Hok. destruct p; simpl; now rewrite Hok.
  - intros r Hin.
    destruct p; unfold validateKey, Anthropic.validateKey, OpenAI.validateKey,
      Gemini.validateKey, ok; simpl in Hin;
      repeat (destruct Hin as [<- | Hin]; [reflexivity |]); destruct Hin.
  - intros r message Hok Hnot Hbody.
    assert (Hres : apiErrorResult r
                   = {| valid := false;
                        error := Some (match message with
                                       | Some m => if Js.truthy m then m
                                                   else "API error: " ++ pretty (status r)
                                       | None => "API error: " ++ pretty (status r)
                                       end) |}).
    { unfold apiErrorResult, apiErrorMessage, Js.or_default, Js.or_else.
      rewrite Hbody. now destruct message. }
    rewrite <- Hres.
    destruct p; simpl in *; rewrite Hok.
    + destruct (status r =? 401)%nat eqn:E1;
        [apply Nat.eqb_eq in E1; lia |].
      destruct (status r =? 403)%nat eqn:E2;
        [apply Nat.eqb_eq in E2; lia |].
      reflexivity.
    + destruct (status r =? 401)%nat eqn:E1;
        [apply Nat.eqb_eq in E1; lia |].
      reflexivity.
    + destruct (status r =? 400)%nat eqn:E1;
        [apply Nat.eqb_eq in E1; lia |].
      destruct (status r =? 403)%nat eqn:E2;
        [apply Nat.eqb_eq in E2; lia |].
      reflexivity.
  - intros e. destruct p, e; reflexivity.
  - intros answer.
    assert (Hres : forall r, valid (apiErrorResult r) = false).
    { intros r. unfold apiErrorResult. now destruct (apiErrorMessage r). }
    destruct p, answer as [e | r body]; try reflexivity;
      cbn [validateKey Anthropic.validateKey OpenAI.validateKey Gemini.validateKey];
      repeat case_match; cbn [valid]; rewrite ?Hres; reflexivity.
Qed.

Lemma validateKey_outcomes_witness :
  validateKey gemini (FetchResolves {| status := 400; errorBody := error_body None |} tt)
  = {| valid := false; error := Some "Invalid API key" |}
  /\ validateKey openai (FetchResolves {| status := 500; errorBody := error_body None |} tt)
     = {| valid := false; error := Some "API error: 500" |}.
Proof.
  split.
  - apply (proj1 (proj2 (validateKey_outcomes gemini))
             {| status := 400; errorBody := error_body None |}).
    simpl. auto.
  - apply (proj1 (proj2 (proj2 (validateKey_outcomes openai)))
             {| status := 500; errorBody := error_body None |} None).
    + reflexivity.
    + simpl. intros [H | []]. discriminate H.
    + reflexivity.
Defined.


(** ** Sorting *)

Lemma In_firstn {A : Type} (x : A) (n : nat) (l : list A) :
  In x (firstn n l) -> In x l.
Proof.
  revert l. induction n as [| n IH]; intros [| y l]; simpl; try tauto.
  intros [H | H]; [now left | right; now apply IH].
Qed.

Section SortFacts.
Context {A : Type} (cmp : A -> A -> Z).

Hypothesis cmp_total : forall a b, cmp a b <= 0 \/ cmp b a <= 0.
Hypothesis cmp_trans : forall a b c, cmp a b <= 0 -> cmp b c <= 0 -> cmp a c <= 0.

Lemma insert_sorted_perm (x : A) (l : list A) :
  Permutation (Js.insert_sorted cmp x l) (x :: l).
Proof.
  induction l as [| y l IH]; simpl; [reflexivity |].
  destruct (cmp x y <=? 0); [reflexivity |].
  rewrite IH. apply perm_swap.
Qed.

Lemma sort_perm (l : list A) : Permutation (Js.sort cmp l) l.
Proof.
  induction l as [| x l IH]; simpl; [reflexivity |].
  unfold Js.sort in *. simpl.
  rewrite insert_sorted_perm. now constructor.
Qed.

Lemma insert_sorted_sorted (x : A) (l : list A) :
  StronglySorted (before cmp) l -> StronglySorted (before cmp) (Js.insert_sorted cmp x l).
Proof.
  induction 1 as [| y l Hs IH Hall]; simpl.
  - repeat constructor.
  - destruct (cmp x y <=? 0) eqn:E.
    + apply Z.leb_le in E. constructor; [now constructor |].
      constructor; [exact E |].
      eapply Forall_impl; [exact Hall |].
      intros z Hz. exact (cmp_trans _ _ _ E Hz).
    + apply Z.leb_gt in E.
      assert (Hyx : cmp y x <= 0) by (destruct (cmp_total x y); [lia | assumption]).
      constructor; [exact IH |].
      apply List.Forall_forall. intros z Hz.
      apply (Permutation_in _ (insert_sorted_perm x l)) in Hz.
      destruct Hz as [<- | Hz]; [exact Hyx |].
      rewrite List.Forall_forall in Hall. now apply Hall.
Qed.

Lemma sort_sorted (l : list A) : StronglySorted (before cmp) (Js.sort cmp l).
Proof.
  induction l as [| x l IH]; [constructor |].
  unfold Js.sort in *. simpl. now apply insert_sorted_sorted.
Qed.

End SortFacts.

Lemma sort_map {A B : Type} (f : A -> B) (cmp : B -> B -> Z) (l : list A) :
  Js.sort cmp (map f l) = map f (Js.sort (fun a b => cmp (f a) (f b)) l).
Proof.
  unfold Js.sort.
  induction l as [| x l IH]; [reflexivity |]. simpl. rewrite IH.
  generalize (fold_right (Js.insert_sorted (fun a b => cmp (f a) (f b))) [] l).
  intros s. induction s as [| y s IHs]; [reflexivity |]. simpl.
  destruct (cmp (f x) (f y) <=? 0); [reflexivity |]. simpl. now rewrite IHs.
Qed.

Lemma StronglySorted_firstn {A : Type} (R : A -> A -> Prop) (n : nat) (l : list A) :
  StronglySorted R l -> StronglySorted R (firstn n l).
Proof.
  intros H. revert n. induction H as [| x l Hs IH Hall]; intros [| n]; simpl;
    try constructor; auto.
  apply List.Forall_forall. intros z Hz. apply In_firstn in Hz.
  rewrite List.Forall_forall in Hall. now apply Hall.
Qed.

(** ** File discovery *)

Section Discovery.
Import BrainChat.

(** Induction over a file tree, children included. *)
Lemma FileNode_forall (P : FileNode -> Prop) :
  (forall n p t, P {| name := n; path := p; type := t; children := None |}) ->
  (forall n p t cs, Forall P cs ->
     P {| name := n; path := p; type := t; children := Some cs |}) ->
  forall node, P node.
Proof.
  intros Hleaf Hnode.
  fix IH 1. intros [n p t [cs |]]; [| apply Hleaf].
  apply Hnode. induction cs as [| c cs IHcs]; constructor; [apply IH | exact IHcs].
Qed.



Lemma byDateThenScore_total (a b : Scored) :
  byDateThenScore a b <= 0 \/ byDateThenScore b a <= 0.
Proof.
  unfold byDateThenScore.
  destruct (date b =? date a) eqn:E1, (date a =? date b) eqn:E2; simpl; lia.
Qed.

Lemma byDateThenScore_trans (a b c : Scored) :
  byDateThenScore a b <= 0 -> byDateThenScore b c <= 0 -> byDateThenScore a c <= 0.
Proof.
  unfold byDateThenScore.
  destruct (date b =? date a) eqn:E1, (date c =? date b) eqn:E2,
           (date c =? date a) eqn:E3; simpl; lia.
Qed.

Lemma byDateThenScore_before (keywords : list string) (p q : string) :
  byDateThenScore (scoreOf keywords p) (scoreOf keywords q) <= 0
  <-> newerFirst keywords p q.
Proof.
  unfold byDateThenScore, newerFirst. simpl.
  destruct (extractDateFromPath q =? extractDateFromPath p) eqn:E; simpl; lia.
Qed.






(** ** Directory listing *)

Lemma extractDateFromPath_no_digits (p : string) :
  match_8_digits p = None -> extractDateFromPath p = 0.
Proof. unfold extractDateFromPath. now intros ->. Qed.

Lemma match_8_digits_skip (c : ascii) (rest : string) :
  Js.is_digit c = false -> match_8_digits (String c rest) = match_8_digits rest.
Proof.
  intros Hc. cbn [match_8_digits].
  change (String.substring 0 8 (String c rest))
    with (String c (String.substring 0 7 rest)).
  cbn [list_ascii_of_string forallb]. rewrite Hc.
  now rewrite andb_false_r.
Qed.

(** Where the folder part of a path holds no digit, the key is the date of
    the filename. *)
Lemma extractDateFromPath_plain_folder (folder filename : string) :
  forallb (fun c => negb (Js.is_digit c)) (list_ascii_of_string folder) = true ->
  extractDateFromPath (folder ++ "/" ++ filename) = extractDateFromPath filename.
Proof.
  intros H. unfold extractDateFromPath.
  assert (E : match_8_digits (folder ++ "/" ++ filename) = match_8_digits filename).
  { induction folder as [| c folder IH].
    - change ("" ++ "/" ++ filename) with (String "/" filename).
      now apply match_8_digits_skip.
    - cbn [list_ascii_of_string forallb] in H.
      apply andb_true_iff in H as [Hc H].
      change (String c folder ++ "/" ++ filename)
        with (String c (folder ++ "/" ++ filename)).
      rewrite match_8_digits_skip by now apply negb_true_iff.
      now apply IH. }
  now rewrite E.
Qed.

(** C9. The sort key is read off the whole path, not off the filename: a
    run of eight digits in a directory name is taken first.  Two files of
    one folder then get the folder's number and keep their tree order, the
    older before the newer, and a file without a date in its name does not
    get key 0. *)
Theorem extractDateFromPath_reads_directory :
  extractDateFromPath "journal20240101/b-20250101.md" = 20240101
  /\ extractDateFromPath (filenameOf "journal20240101/b-20250101.md") = 20250101
  /\ extractDateFromPath "journal20240101/a-20230101.md" = 20240101
  /\ match_8_digits (filenameOf "archive12345678/readme.md") = None
  /\ extractDateFromPath "archive12345678/readme.md" = 12345678
  /\ sortByDate ["journal20240101/a-20230101.md"; "journal20240101/b-20250101.md"]
     = ["journal20240101/a-20230101.md"; "journal20240101/b-20250101.md"]
  /\ availableFilesLines datedTree
     = [ newline ++ "**archive12345678/** (1 files)"; "  - readme.md";
         newline ++ "**journal20240101/** (2 files)"; "  - a-20230101.md";
         "  - b-20250101.md" ].
Proof. vm_compute. repeat split. Qed.

End Discovery.


(** ** Callbacks that end a turn are invoked nowhere but at its end *)

Lemma invoke_inner (cb : StreamCallbacks) (c : Call) :
  isTerminal c = false -> Forall (fun c => isTerminal c = false) (invoke cb c).
Proof. intros H. unfold invoke. destruct (supplied cb c); repeat constructor; exact H. Qed.

Ltac inner_calls :=
  repeat first
    [ apply List.Forall_nil
    | apply Forall_app_2
    | apply invoke_inner; reflexivity
    | assumption
    | case_match ].

Lemma inner_no_error (cs : list Call) :
  Forall (fun c => isTerminal c = false) cs -> Forall (fun c => isError c = false) cs.
Proof.
  apply List.Forall_impl. intros c H. unfold isTerminal in H.
  now apply orb_false_iff in H as [_ H].
Qed.

Lemma inner_no_complete (cs : list Call) :
  Forall (fun c => isTerminal c = false) cs -> Forall (fun c => isComplete c = false) cs.
Proof.
  apply List.Forall_impl. intros c H. unfold isTerminal in H.
  now apply orb_false_iff in H as [H _].
Qed.

Lemma reportAndComplete_no_error (cb : StreamCallbacks) (m : string) (i o w : Z)
  (full : string) :
  Forall (fun c => isError c = false) (reportAndComplete cb m i o w full).
Proof.
  unfold reportAndComplete, invoke.
  apply Forall_app_2; repeat case_match; repeat constructor.
Qed.

(** What a run owes to the request that follows a tool round. *)
Lemma after_Some {Req : Type} (req : Req) (cs : list Call) (o : option (Run Req))
  (run : Run Req) :
  after req cs <$> o = Some run ->
  exists rest, o = Some rest /\ calls run = (cs ++ calls rest)%list
               /\ settled run = settled rest.
Proof.
  destruct o as [rest |]; [| discriminate].
  intros [= <-]. exists rest. auto.
Qed.

Section AnthropicQuiet.
Import Anthropic.
Variable JSON_parse : string -> Parse.
Variable options : SendMessageOptions.

Lemma anthropic_onEvent_inner (l : Locals) (ev : Event) :
  Forall (fun c => isTerminal c = false) (snd (onEvent JSON_parse options l ev)).
Proof. unfold onEvent. destruct ev; inner_calls; cbn [snd]; inner_calls. Qed.

Lemma anthropic_readAll_inner (evs : list Event) (l : Locals) :
  Forall (fun c => isTerminal c = false) (snd (readAll JSON_parse options l evs)).
Proof.
  revert l. induction evs as [| ev evs IH]; intros l; [constructor |].
  cbn [readAll].
  pose proof (anthropic_onEvent_inner l ev) as H1.
  destruct (onEvent JSON_parse options l ev) as [l1 cs1].
  specialize (IH l1). destruct (readAll JSON_parse options l1 evs) as [l2 cs2].
  now apply Forall_app_2.
Qed.

Lemma anthropic_resolveToolCall_inner (loader : JsPath -> LoadOutcome)
  (toolCall : PendingToolCall) :
  Forall (fun c => isTerminal c = false) (snd (resolveToolCall options loader toolCall)).
Proof.
  unfold resolveToolCall.
  destruct (String.eqb _ _); [| constructor].
  destruct (loadOne _ _). cbn [snd]. inner_calls.
Qed.

Lemma anthropic_resolve_inner (loader : JsPath -> LoadOutcome)
  (pending : list PendingToolCall) :
  Forall (fun c => isTerminal c = false) (snd (resolveToolCalls options loader pending)).
Proof.
  induction pending as [| tc pending IH]; [constructor |].
  cbn [resolveToolCalls].
  pose proof (anthropic_resolveToolCall_inner loader tc) as H1.
  destruct (resolveToolCall options loader tc) as [r1 cs1].
  destruct (resolveToolCalls options loader pending) as [r2 cs2].
  now apply Forall_app_2.
Qed.

Lemma anthropic_run_inner (responses : list (Fetched (option (Body Event)))) :
  forall msgs i o w acc run,
  makeStreamingRequest JSON_parse options responses msgs i o w acc = Some run ->
  Forall (fun c => isError c = false) (calls run)
  /\ (forall e, settled run = Rejected e ->
        Forall (fun c => isComplete c = false) (calls run)).
Proof.
  induction responses as [| r later IH]; intros msgs i o w acc run H; [discriminate |].
  cbn [makeStreamingRequest] in H.
  destruct r as [e | reply body].
  { injection H as <-. split; [constructor | intros; constructor]. }
  destruct (negb (ok reply)).
  { injection H as <-. split; [constructor | intros; constructor]. }
  destruct body as [b |];
    [| injection H as <-; split; [constructor | intros; constructor]].
  pose proof (anthropic_readAll_inner (events b) (initLocals i o w acc)) as Hs.
  destruct (readAll JSON_parse options (initLocals i o w acc) (events b)) as [l cs].
  cbn [snd] in Hs.
  assert (Hfinal : forall run',
            Some {| sent := [msgs];
                    calls := (cs ++ reportAndComplete (callbacks options) (modelId options)
                                      (inputTokens l) (outputTokens l) (webSearchCount l)
                                      (fullResponse l))%list;
                    settled := Fulfilled |} = Some run' ->
            Forall (fun c => isError c = false) (calls run')
            /\ (forall e, settled run' = Rejected e ->
                  Forall (fun c => isComplete c = false) (calls run'))).
  { intros run' [= <-]. cbn [calls settled]. split; [| discriminate].
    apply Forall_app_2; [now apply inner_no_error | apply reportAndComplete_no_error]. }
  destruct (ending b) as [| e].
  - destruct (loadFileContents options) as [loader |]; [| now apply Hfinal].
    destruct (_ && _); [| now apply Hfinal].
    pose proof (anthropic_resolve_inner loader (pendingToolCalls l)) as Hr.
    destruct (resolveToolCalls options loader (pendingToolCalls l)) as [results resolved].
    cbn [snd] in Hr.
    apply after_Some in H as (rest & Hrest & Hcalls & Hsettled).
    apply IH in Hrest as [He Hc]. rewrite Hcalls, Hsettled.
    split.
    + repeat apply Forall_app_2; auto using inner_no_error.
    + intros e Hrej. repeat apply Forall_app_2; eauto using inner_no_complete.
  - injection H as <-. cbn [calls settled].
    split; [now apply inner_no_error | intros; now apply inner_no_complete].
Qed.

Lemma anthropic_abort_silent (responses : list (Fetched (option (Body Event))))
  (run : Run (list Message)) (e : Js.Thrown) :
  makeStreamingRequest JSON_parse options responses (initialMessages options) 0 0 0 ""
  = Some run ->
  settled run = Rejected e -> Js.is_abort e = true ->
  exists trace,
    sendMessage JSON_parse options responses = Some trace
    /\ trace = (invoke (callbacks options) OnStart ++ calls run)%list
    /\ Forall (fun c => isComplete c = false /\ isError c = false) trace.
Proof.
  intros Hrun Hrej Habort.
  unfold sendMessage. rewrite Hrun, Hrej, Habort, app_nil_r.
  eexists. split; [reflexivity | split; [reflexivity |]].
  destruct (anthropic_run_inner _ _ _ _ _ _ _ Hrun) as [He Hc].
  specialize (Hc e Hrej).
  apply Forall_app_2.
  - unfold invoke. case_match; repeat constructor.
  - rewrite List.Forall_forall in *. auto.
Qed.

End AnthropicQuiet.

Section OpenAIQuiet.
Import OpenAI.
Variable JSON_parse : string -> Parse.
Variable options : SendMessageOptions.

Lemma openai_onToolCallDelta_inner (m : list (Z * PendingToolCall)) (tc : ToolCallDelta) :
  Forall (fun c => isTerminal c = false) (snd (onToolCallDelta JSON_parse options m tc)).
Proof.
  unfold onToolCallDelta.
  destruct (negb (has _ m)); cbn [snd]; inner_calls.
Qed.

Lemma openai_onToolCallDeltas_inner (tcs : list ToolCallDelta)
  (m : list (Z * PendingToolCall)) :
  Forall (fun c => isTerminal c = false) (snd (onToolCallDeltas JSON_parse options m tcs)).
Proof.
  revert m. induction tcs as [| tc tcs IH]; intros m; [constructor |].
  cbn [onToolCallDeltas].
  pose proof (openai_onToolCallDelta_inner m tc) as H1.
  destruct (onToolCallDelta JSON_parse options m tc) as [m1 cs1].
  specialize (IH m1). destruct (onToolCallDeltas JSON_parse options m1 tcs) as [m2 cs2].
  now apply Forall_app_2.
Qed.

Lemma openai_onChunk_inner (l : Locals) (c : Chunk) :
  Forall (fun c => isTerminal c = false) (snd (onChunk JSON_parse options l c)).
Proof.
  unfold onChunk.
  destruct (delta c) as [d |].
  - destruct (tool_calls d) as [tcs |].
    + pose proof (openai_onToolCallDeltas_inner tcs (pendingToolCalls l)) as H.
      destruct (onToolCallDeltas JSON_parse options (pendingToolCalls l) tcs) as [m cs].
      cbn [snd] in H.
      destruct (delta_content d) as [t |]; [destruct (Js.truthy t) |];
        destruct (usage c); cbn [snd]; inner_calls.
    + destruct (delta_content d) as [t |]; [destruct (Js.truthy t) |];
        destruct (usage c); cbn [snd]; inner_calls.
  - destruct (usage c); cbn [snd]; constructor.
Qed.

Lemma openai_readAll_inner (chunks : list Chunk) (l : Locals) :
  Forall (fun c => isTerminal c = false) (snd (readAll JSON_parse options l chunks)).
Proof.
  revert l. induction chunks as [| c chunks IH]; intros l; [constructor |].
  cbn [readAll].
  pose proof (openai_onChunk_inner l c) as H1.
  destruct (onChunk JSON_parse options l c) as [l1 cs1].
  specialize (IH l1). destruct (readAll JSON_parse options l1 chunks) as [l2 cs2].
  now apply Forall_app_2.
Qed.

Lemma openai_resolveToolCall_inner (loader : JsPath -> LoadOutcome)
  (toolCall : PendingToolCall) :
  Forall (fun c => isTerminal c = false)
         (snd (resolveToolCall JSON_parse options loader toolCall)).
Proof.
  unfold resolveToolCall.
  destruct (String.eqb _ _); [| constructor].
  destruct (JSON_parse _); [destruct (loadOne _ _) |]; cbn [snd]; inner_calls.
Qed.

Lemma openai_resolve_inner (loader : JsPath -> LoadOutcome)
  (pending : list PendingToolCall) :
  Forall (fun c => isTerminal c = false)
         (snd (resolveToolCalls JSON_parse options loader pending)).
Proof.
  induction pending as [| tc pending IH]; [constructor |].
  cbn [resolveToolCalls].
  pose proof (openai_resolveToolCall_inner loader tc) as H1.
  destruct (resolveToolCall JSON_parse options loader tc) as [r1 cs1].
  destruct (resolveToolCalls JSON_parse options loader pending) as [r2 cs2].
  now apply Forall_app_2.
Qed.

Lemma openai_run_inner (responses : list (Fetched (option (Body Chunk)))) :
  forall msgs i o acc run,
  makeStreamingRequest JSON_parse options responses msgs i o acc = Some run ->
  Forall (fun c => isError c = false) (calls run)
  /\ (forall e, settled run = Rejected e ->
        Forall (fun c => isComplete c = false) (calls run)).
Proof.
  induction responses as [| r later IH]; intros msgs i o acc run H; [discriminate |].
  cbn [makeStreamingRequest] in H.
  destruct r as [e | reply body].
  { injection H as <-. split; [constructor | intros; constructor]. }
  destruct (negb (ok reply)).
  { injection H as <-. split; [constructor | intros; constructor]. }
  destruct body as [b |];
    [| injection H as <-; split; [constructor | intros; constructor]].
  pose proof (openai_readAll_inner (events b) (initLocals i o acc)) as Hs.
  destruct (readAll JSON_parse options (initLocals i o acc) (events b)) as [l cs].
  cbn [snd] in Hs.
  assert (Hfinal : forall run',
            Some {| sent := [msgs];
                    calls := (cs ++ reportAndComplete (callbacks options) (modelId options)
                                      (inputTokens l) (outputTokens l) 0
                                      (fullResponse l))%list;
                    settled := Fulfilled |} = Some run' ->
            Forall (fun c => isError c = false) (calls run')
            /\ (forall e, settled run' = Rejected e ->
                  Forall (fun c => isComplete c = false) (calls run'))).
  { intros run' [= <-]. cbn [calls settled]. split; [| discriminate].
    apply Forall_app_2; [now apply inner_no_error | apply reportAndComplete_no_error]. }
  destruct (ending b) as [| e].
  - destruct (loadFileContents options) as [loader |]; [| now apply Hfinal].
    destruct (_ && _); [| now apply Hfinal].
    pose proof (openai_resolve_inner loader (map snd (pendingToolCalls l))) as Hr.
    destruct (resolveToolCalls JSON_parse options loader (map snd (pendingToolCalls l)))
      as [results resolved].
    cbn [snd] in Hr.
    apply after_Some in H as (rest & Hrest & Hcalls & Hsettled).
    apply IH in Hrest as [He Hc]. rewrite Hcalls, Hsettled.
    split.
    + repeat apply Forall_app_2; auto using inner_no_error.
    + intros e Hrej. repeat apply Forall_app_2; eauto using inner_no_complete.
  - injection H as <-. cbn [calls settled].
    split; [now apply inner_no_error | intros; now apply inner_no_complete].
Qed.

Lemma openai_abort_silent (responses : list (Fetched (option (Body Chunk))))
  (run : Run (list Message)) (e : Js.Thrown) :
  makeStreamingRequest JSON_parse options responses (openAIMessages options) 0 0 ""
  = Some run ->
  settled run = Rejected e -> Js.is_abort e = true ->
  exists trace,
    sendMessage JSON_parse options responses = Some trace
    /\ trace = (invoke (callbacks options) OnStart ++ calls run)%list
    /\ Forall (fun c => isComplete c = false /\ isError c = false) trace.
Proof.
  intros Hrun Hrej Habort.
  unfold sendMessage. rewrite Hrun, Hrej, Habort, app_nil_r.
  eexists. split; [reflexivity | split; [reflexivity |]].
  destruct (openai_run_inner _ _ _ _ _ _ Hrun) as [He Hc].
  specialize (Hc e Hrej).
  apply Forall_app_2.
  - unfold invoke. case_match; repeat constructor.
  - rewrite List.Forall_forall in *. auto.
Qed.

End OpenAIQuiet.

Section GeminiQuiet.
Import Gemini.
Variable options : SendMessageOptions.

Lemma gemini_onPart_inner (acc : string * list PendingFunctionCall) (p : Part) :
  Forall (fun c => isTerminal c = false) (snd (onPart options acc p)).
Proof.
  unfold onPart. destruct acc as [r pending].
  destruct (text p) as [t |]; [destruct (Js.truthy t) |];
    destruct (functionCall p); cbn [snd]; inner_calls.
Qed.

Lemma gemini_onParts_inner (ps : list Part) (acc : string * list PendingFunctionCall) :
  Forall (fun c => isTerminal c = false) (snd (onParts options acc ps)).
Proof.
  revert acc. induction ps as [| p ps IH]; intros acc; [constructor |].
  cbn [onParts].
  pose proof (gemini_onPart_inner acc p) as H1.
  destruct (onPart options acc p) as [acc1 cs1].
  specialize (IH acc1). destruct (onParts options acc1 ps) as [acc2 cs2].
  now apply Forall_app_2.
Qed.

Lemma gemini_onChunk_inner (l : Locals) (c : Chunk) :
  Forall (fun c => isTerminal c = false) (snd (onChunk options l c)).
Proof.
  unfold onChunk.
  destruct (candidate c) as [cand |].
  - destruct (parts cand) as [ps |].
    + pose proof (gemini_onParts_inner ps (fullResponse l, pendingFunctionCalls l)) as H.
      destruct (onParts options (fullResponse l, pendingFunctionCalls l) ps)
        as [[r p] cs].
      destruct (usageMetadata c); exact H.
    + destruct (usageMetadata c); constructor.
  - destruct (usageMetadata c); constructor.
Qed.

Lemma gemini_readAll_inner (chunks : list Chunk) (l : Locals) :
  Forall (fun c => isTerminal c = false) (snd (readAll options l chunks)).
Proof.
  revert l. induction chunks as [| c chunks IH]; intros l; [constructor |].
  cbn [readAll].
  pose proof (gemini_onChunk_inner l c) as H1.
  destruct (onChunk options l c) as [l1 cs1].
  specialize (IH l1). destruct (readAll options l1 chunks) as [l2 cs2].
  now apply Forall_app_2.
Qed.

Lemma gemini_resolveFunctionCall_inner (loader : JsPath -> LoadOutcome)
  (funcCall : PendingFunctionCall) :
  Forall (fun c => isTerminal c = false)
         (snd (resolveFunctionCall options loader funcCall)).
Proof.
  unfold resolveFunctionCall.
  destruct (String.eqb _ _); [| constructor].
  destruct (loadOne _ _). cbn [snd]. inner_calls.
Qed.

Lemma gemini_resolve_inner (loader : JsPath -> LoadOutcome)
  (pending : list PendingFunctionCall) :
  Forall (fun c => isTerminal c = false)
         (snd (resolveFunctionCalls options loader pending)).
Proof.
  induction pending as [| fc pending IH]; [constructor |].
  cbn [resolveFunctionCalls].
  pose proof (gemini_resolveFunctionCall_inner loader fc) as H1.
  destruct (resolveFunctionCall options loader fc) as [r1 cs1].
  destruct (resolveFunctionCalls options loader pending) as [r2 cs2].
  now apply Forall_app_2.
Qed.

Lemma gemini_run_inner (responses : list (Fetched (option (Body Chunk)))) :
  forall msgs i o acc run,
  makeStreamingRequest options responses msgs i o acc = Some run ->
  Forall (fun c => isError c = false) (calls run)
  /\ (forall e, settled run = Rejected e ->
        Forall (fun c => isComplete c = false) (calls run)).
Proof.
  induction responses as [| r later IH]; intros msgs i o acc run H; [discriminate |].
  cbn [makeStreamingRequest] in H.
  destruct r as [e | reply body].
  { injection H as <-. split; [constructor | intros; constructor]. }
  destruct (negb (ok reply)).
  { injection H as <-. split; [constructor | intros; constructor]. }
  destruct body as [b |];
    [| injection H as <-; split; [constructor | intros; constructor]].
  pose proof (gemini_readAll_inner (events b) (initLocals i o acc)) as Hs.
  destruct (readAll options (initLocals i o acc) (events b)) as [l cs].
  cbn [snd] in Hs.
  assert (Hfinal : forall run',
            Some {| sent := [msgs];
                    calls := (cs ++ reportAndComplete (callbacks options) (modelId options)
                                      (inputTokens l) (outputTokens l) 0
                                      (fullResponse l))%list;
                    settled := Fulfilled |} = Some run' ->
            Forall (fun c => isError c = false) (calls run')
            /\ (forall e, settled run' = Rejected e ->
                  Forall (fun c => isComplete c = false) (calls run'))).
  { intros run' [= <-]. cbn [calls settled]. split; [| discriminate].
    apply Forall_app_2; [now apply inner_no_error | apply reportAndComplete_no_error]. }
  destruct (ending b) as [| e].
  - destruct (loadFileContents options) as [loader |]; [| now apply Hfinal].
    destruct (0 <? _)%nat; [| now apply Hfinal].
    pose proof (gemini_resolve_inner loader (pendingFunctionCalls l)) as Hr.
    destruct (resolveFunctionCalls options loader (pendingFunctionCalls l))
      as [results resolved].
    cbn [snd] in Hr.
    apply after_Some in H as (rest & Hrest & Hcalls & Hsettled).
    apply IH in Hrest as [He Hc]. rewrite Hcalls, Hsettled.
    split.
    + repeat apply Forall_app_2; auto using inner_no_error.
    + intros e Hrej. repeat apply Forall_app_2; eauto using inner_no_complete.
  - injection H as <-. cbn [calls settled].
    split; [now apply inner_no_error | intros; now apply inner_no_complete].
Qed.

Lemma gemini_abort_silent (responses : list (Fetched (option (Body Chunk))))
  (run : Run (list Content)) (e : Js.Thrown) :
  makeStreamingRequest options responses (geminiContents options) 0 0 "" = Some run ->
  settled run = Rejected e -> Js.is_abort e = true ->
  exists trace,
    sendMessage options responses = Some trace
    /\ trace = (invoke (callbacks options) OnStart ++ calls run)%list
    /\ Forall (fun c => isComplete c = false /\ isError c = false) trace.
Proof.
  intros Hrun Hrej Habort.
  unfold sendMessage. rewrite Hrun, Hrej, Habort, app_nil_r.
  eexists. split; [reflexivity | split; [reflexivity |]].
  destruct (gemini_run_inner _ _ _ _ _ _ Hrun) as [He Hc].
  specialize (Hc e Hrej).
  apply Forall_app_2.
  - unfold invoke. case_match; repeat constructor.
  - rewrite List.Forall_forall in *. auto.
Qed.

End GeminiQuiet.

(** C3. When the request of a turn rejects with an abort error, in whatever
    round and however far into the stream, [sendMessage] still returns: it
    has invoked [onStart] and the callbacks of the stream so far, and
    neither [onComplete] nor [onError]. *)
Theorem abort_is_silent :
  (forall JSON_parse options responses run e,
     Anthropic.makeStreamingRequest JSON_parse options responses
       (Anthropic.initialMessages options) 0 0 0 "" = Some run ->
     settled run = Rejected e -> Js.is_abort e = true ->
     exists trace,
       Anthropic.sendMessage JSON_parse options responses = Some trace
       /\ trace = (invoke (callbacks options) OnStart ++ calls run)%list
       /\ Forall (fun c => isComplete c = false /\ isError c = false) trace)
  /\ (forall JSON_parse options responses run e,
        OpenAI.makeStreamingRequest JSON_parse options responses
          (OpenAI.openAIMessages options) 0 0 "" = Some run ->
        settled run = Rejected e -> Js.is_abort e = true ->
        exists trace,
          OpenAI.sendMessage JSON_parse options responses = Some trace
          /\ trace = (invoke (callbacks options) OnStart ++ calls run)%list
          /\ Forall (fun c => isComplete c = false /\ isError c = false) trace)
  /\ (forall options responses run e,
        Gemini.makeStreamingRequest options responses
          (Gemini.geminiContents options) 0 0 "" = Some run ->
        settled run = Rejected e -> Js.is_abort e = true ->
        exists trace,
          Gemini.sendMessage options responses = Some trace
          /\ trace = (invoke (callbacks options) OnStart ++ calls run)%list
          /\ Forall (fun c => isComplete c = false /\ isError c = false) trace).
Proof.
  split; [| split].
  - intros. now apply anthropic_abort_silent with (e := e).
  - intros. now apply openai_abort_silent with (e := e).
  - intros. now apply gemini_abort_silent with (e := e).
Qed.

Lemma abort_is_silent_witness :
  exists trace,
    Anthropic.sendMessage parsePathObject (exampleOptions "claude-haiku-4-5-20251001")
      [anthropicToolRound (pathObject "notes/a.md"); anthropicAbortedRound] = Some trace
    /\ trace = [ OnStart; OnToken "Let me look. "; OnFileLoad (Some "Loading file...");
                 OnFileLoad (Some "notes/a.md"); OnFileLoad (Some "notes/a.md");
                 OnFileLoaded (Some "notes/a.md") true; OnToken "It s" ]
    /\ Forall (fun c => isComplete c = false /\ isError c = false) trace.
Proof.
  destruct (proj1 abort_is_silent parsePathObject
              (exampleOptions "claude-haiku-4-5-20251001")
              [anthropicToolRound (pathObject "notes/a.md"); anthropicAbortedRound]
              {| sent := [ Anthropic.initialMessages (exampleOptions "claude-haiku-4-5-20251001");
                           (Anthropic.initialMessages (exampleOptions "claude-haiku-4-5-20251001")
                            ++ [ {| Anthropic.role := "assistant";
                                    Anthropic.content :=
                                      Anthropic.blocks
                                        [ Anthropic.text_block "Let me look. ";
                                          Anthropic.tool_use_block
                                            {| Anthropic.id := "toolu_1";
                                               Anthropic.name := "load_file";
                                               Anthropic.input :=
                                                 {| arg_path := Some "notes/a.md";
                                                    arg_query := None |} |} ] |};
                                 {| Anthropic.role := "user";
                                    Anthropic.content :=
                                      Anthropic.blocks
                                        [ Anthropic.tool_result_block "toolu_1"
                                            (fileResult {| file_path := "notes/a.md";
                                                           file_content := "alpha" |}) ] |} ])%list ];
                 calls := [ OnToken "Let me look. "; OnFileLoad (Some "Loading file...");
                            OnFileLoad (Some "notes/a.md"); OnFileLoad (Some "notes/a.md");
                            OnFileLoaded (Some "notes/a.md") true; OnToken "It s" ];
                 settled := Rejected abortError |}
              abortError)
    as (trace & Hsend & Htrace & Hquiet).
  - vm_compute. reflexivity.
  - reflexivity.
  - reflexivity.
  - exists trace. split; [exact Hsend | split; [| exact Hquiet]].
    rewrite Htrace. reflexivity.
Defined.


(** ** Resolving a load_file call *)


Lemma FileResolution_throws (loader : JsPath -> LoadOutcome) (path : JsPath)
  (e : Js.Thrown) (content : string) (success : bool) :
  loader path = LoadThrows e -> FileResolution loader path content success ->
  content = loadErrorResult e /\ success = false.
Proof. intros He H. destruct H; rewrite He in *; try discriminate. now injection H as ->. Qed.




(** ** Usage across the rounds of a turn *)

Section UsageAcrossRounds.
Variable JSON_parse : string -> Parse.
Variable options : SendMessageOptions.

(** The Anthropic read loop adds what a stream reports to the totals
    carried in. *)
Lemma anthropic_readAll_adds (evs : list Anthropic.Event) (l : Anthropic.Locals) :
  Anthropic.inputTokens (fst (Anthropic.readAll JSON_parse options l evs))
  = Anthropic.inputTokens l + anthropicInputReported evs
  /\ Anthropic.outputTokens (fst (Anthropic.readAll JSON_parse options l evs))
     = Anthropic.outputTokens l + anthropicOutputReported evs.
Proof.
  revert l. induction evs as [| ev evs IH]; intros l; [simpl; lia |].
  cbn [Anthropic.readAll].
  assert (H1 : Anthropic.inputTokens (fst (Anthropic.onEvent JSON_parse options l ev))
               = Anthropic.inputTokens l + anthropicInputReported [ev]
               /\ Anthropic.outputTokens (fst (Anthropic.onEvent JSON_parse options l ev))
                  = Anthropic.outputTokens l + anthropicOutputReported [ev]).
  { unfold Anthropic.onEvent.
    destruct ev as [[[] |] | [[t |] | [pj |] |] | | [k |] | [k |] sr |];
      repeat case_match; simpl; lia. }
  destruct (Anthropic.onEvent JSON_parse options l ev) as [l1 cs1].
  specialize (IH l1).
  destruct (Anthropic.readAll JSON_parse options l1 evs) as [l2 cs2].
  cbn [fst] in *.
  assert (Hi : anthropicInputReported (ev :: evs)
               = anthropicInputReported [ev] + anthropicInputReported evs)
    by (simpl; destruct ev as [| | | [k |] | |]; lia).
  assert (Ho : anthropicOutputReported (ev :: evs)
               = anthropicOutputReported [ev] + anthropicOutputReported evs)
    by (simpl; destruct ev as [| | | | [k |] sr |]; lia).
  lia.
Qed.

(** The OpenAI read loop replaces the totals carried in by the counts of
    the last usage chunk of the stream. *)
Lemma openai_readAll_replaces (chunks : list OpenAI.Chunk) (l : OpenAI.Locals) :
  (OpenAI.inputTokens (fst (OpenAI.readAll JSON_parse options l chunks)),
   OpenAI.outputTokens (fst (OpenAI.readAll JSON_parse options l chunks)))
  = openaiUsageAfter chunks (OpenAI.inputTokens l, OpenAI.outputTokens l).
Proof.
  revert l. induction chunks as [| c chunks IH]; intros l; [reflexivity |].
  cbn [OpenAI.readAll].
  assert (H1 : (OpenAI.inputTokens (fst (OpenAI.onChunk JSON_parse options l c)),
                OpenAI.outputTokens (fst (OpenAI.onChunk JSON_parse options l c)))
               = openaiUsageAfter [c] (OpenAI.inputTokens l, OpenAI.outputTokens l)).
  { unfold OpenAI.onChunk, openaiUsageAfter. cbn [fold_left].
    repeat case_match; simplify_eq; reflexivity. }
  destruct (OpenAI.onChunk JSON_parse options l c) as [l1 cs1].
  specialize (IH l1).
  destruct (OpenAI.readAll JSON_parse options l1 chunks) as [l2 cs2].
  cbn [fst] in *. rewrite IH, H1. reflexivity.
Qed.

Lemma openaiUsageAfter_last (chunks : list OpenAI.Chunk) (c : OpenAI.Chunk)
  (u : OpenAI.Usage) (carried : Z * Z) :
  OpenAI.usage c = Some u ->
  openaiUsageAfter (chunks ++ [c]) carried
  = (default 0 (OpenAI.prompt_tokens u), default 0 (OpenAI.completion_tokens u)).
Proof.
  intros Hu. unfold openaiUsageAfter. rewrite fold_left_app. simpl. now rewrite Hu.
Qed.

(** The Gemini read loop replaces each total carried in by the latest
    non-zero count of the stream. *)
Lemma gemini_readAll_replaces (chunks : list Gemini.Chunk) (l : Gemini.Locals) :
  (Gemini.inputTokens (fst (Gemini.readAll options l chunks)),
   Gemini.outputTokens (fst (Gemini.readAll options l chunks)))
  = geminiUsageAfter chunks (Gemini.inputTokens l, Gemini.outputTokens l).
Proof.
  revert l. induction chunks as [| c chunks IH]; intros l; [reflexivity |].
  cbn [Gemini.readAll].
  assert (H1 : (Gemini.inputTokens (fst (Gemini.onChunk options l c)),
                Gemini.outputTokens (fst (Gemini.onChunk options l c)))
               = geminiUsageAfter [c] (Gemini.inputTokens l, Gemini.outputTokens l)).
  { unfold Gemini.onChunk, geminiUsageAfter. cbn [fold_left fst snd].
    repeat case_match; simplify_eq; reflexivity. }
  destruct (Gemini.onChunk options l c) as [l1 cs1].
  specialize (IH l1).
  destruct (Gemini.readAll options l1 chunks) as [l2 cs2].
  cbn [fst] in *. rewrite IH, H1. reflexivity.
Qed.

End UsageAcrossRounds.

Section AnthropicAccumulates.
Import Anthropic.
Variable JSON_parse : string -> Parse.
Variable options : SendMessageOptions.

(** A turn that completes has made one request per round, and reports the
    totals carried in plus what the streams of all its rounds reported. *)
Lemma anthropic_usage_accumulates (responses : list (Fetched (option (Body Event)))) :
  forall msgs i o w acc run,
  makeStreamingRequest JSON_parse options responses msgs i o w acc = Some run ->
  settled run = Fulfilled ->
  let rounds := firstn (length (sent run)) responses in
  exists cs ws full,
    calls run
    = (cs ++ reportAndComplete (callbacks options) (modelId options)
               (i + anthropicTurnInput rounds) (o + anthropicTurnOutput rounds)
               ws full)%list.
Proof.
  induction responses as [| r later IH]; intros msgs i o w acc run H Hdone; [discriminate |].
  cbn [makeStreamingRequest] in H.
  destruct r as [e | reply body]; [injection H as <-; discriminate |].
  destruct (negb (ok reply)); [injection H as <-; discriminate |].
  destruct body as [b |]; [| injection H as <-; discriminate].
  pose proof (anthropic_readAll_adds JSON_parse options (events b) (initLocals i o w acc))
    as [Hi Ho].
  destruct (readAll JSON_parse options (initLocals i o w acc) (events b)) as [l cs].
  cbn [fst initLocals inputTokens outputTokens] in Hi, Ho.
  assert (Hfinal :
            Some {| sent := [msgs];
                    calls := (cs ++ reportAndComplete (callbacks options) (modelId options)
                                      (inputTokens l) (outputTokens l) (webSearchCount l)
                                      (fullResponse l))%list;
                    settled := Fulfilled |} = Some run ->
            let rounds := firstn (length (sent run)) (FetchResolves reply (Some b) :: later) in
            exists cs ws full,
              calls run
              = (cs ++ reportAndComplete (callbacks options) (modelId options)
                         (i + anthropicTurnInput rounds) (o + anthropicTurnOutput rounds)
                         ws full)%list).
  { intros [= <-]. cbn. exists cs, (webSearchCount l), (fullResponse l).
    rewrite Hi, Ho, !Z.add_0_r. reflexivity. }
  destruct (ending b) as [| e]; [| injection H as <-; discriminate].
  destruct (loadFileContents options) as [loader |]; [| now apply Hfinal].
  destruct (_ && _); [| now apply Hfinal].
  destruct (resolveToolCalls options loader (pendingToolCalls l)) as [results resolved].
  destruct (makeStreamingRequest JSON_parse options later _ _ _ _ _) as [rest |] eqn:Hrest;
    [| discriminate].
  injection H as <-. cbn [after sent calls settled] in *.
  destruct (IH _ _ _ _ _ _ Hrest Hdone) as (cs' & ws & full & Hcalls).
  exists ((cs ++ resolved) ++ cs')%list, ws, full.
  cbn [length firstn anthropicTurnInput anthropicTurnOutput fold_right anthropicEventsOf].
  rewrite Hcalls, Hi, Ho, <- !app_assoc, !Z.add_assoc. reflexivity.
Qed.

End AnthropicAccumulates.

Section OpenAILastRound.
Import OpenAI.
Variable JSON_parse : string -> Parse.
Variable options : SendMessageOptions.

(** A turn that completes reports the counts its rounds leave behind one
    after the other: each usage chunk replaces what was carried in. *)
Lemma openai_usage_of_turn (responses : list (Fetched (option (Body Chunk)))) :
  forall msgs i o acc run,
  makeStreamingRequest JSON_parse options responses msgs i o acc = Some run ->
  settled run = Fulfilled ->
  let rounds := firstn (length (sent run)) responses in
  exists cs full,
    calls run
    = (cs ++ reportAndComplete (callbacks options) (modelId options)
               (fst (openaiTurnUsage rounds (i, o))) (snd (openaiTurnUsage rounds (i, o)))
               0 full)%list.
Proof.
  induction responses as [| r later IH]; intros msgs i o acc run H Hdone; [discriminate |].
  cbn [makeStreamingRequest] in H.
  destruct r as [e | reply body]; [injection H as <-; discriminate |].
  destruct (negb (ok reply)); [injection H as <-; discriminate |].
  destruct body as [b |]; [| injection H as <-; discriminate].
  pose proof (openai_readAll_replaces JSON_parse options (events b) (initLocals i o acc))
    as Hu.
  destruct (readAll JSON_parse options (initLocals i o acc) (events b)) as [l cs].
  cbn [fst initLocals inputTokens outputTokens] in Hu.
  assert (Hfinal :
            Some {| sent := [msgs];
                    calls := (cs ++ reportAndComplete (callbacks options) (modelId options)
                                      (inputTokens l) (outputTokens l) 0
                                      (fullResponse l))%list;
                    settled := Fulfilled |} = Some run ->
            let rounds := firstn (length (sent run)) (FetchResolves reply (Some b) :: later) in
            exists cs full,
              calls run
              = (cs ++ reportAndComplete (callbacks options) (modelId options)
                         (fst (openaiTurnUsage rounds (i, o)))
                         (snd (openaiTurnUsage rounds (i, o))) 0 full)%list).
  { intros [= <-]. cbn. exists cs, (fullResponse l).
    change (fold_left _ (events b) (i, o)) with (openaiUsageAfter (events b) (i, o)).
    now rewrite <- Hu. }
  destruct (ending b) as [| e]; [| injection H as <-; discriminate].
  destruct (loadFileContents options) as [loader |]; [| now apply Hfinal].
  destruct (_ && _); [| now apply Hfinal].
  destruct (resolveToolCalls JSON_parse options loader (map snd (pendingToolCalls l)))
    as [results resolved].
  destruct (makeStreamingRequest JSON_parse options later _ _ _ _) as [rest |] eqn:Hrest;
    [| discriminate].
  injection H as <-. cbn [after sent calls settled] in *.
  destruct (IH _ _ _ _ _ Hrest Hdone) as (cs' & full & Hcalls).
  exists ((cs ++ resolved) ++ cs')%list, full.
  cbn [length firstn openaiTurnUsage fold_left openaiEventsOf].
  rewrite Hcalls, <- Hu, <- !app_assoc. reflexivity.
Qed.

End OpenAILastRound.

(** What the rounds before a closing usage chunk reported does not reach
    the report. *)
Lemma openaiTurnUsage_last (rounds : list (Fetched (option (Body OpenAI.Chunk))))
  (reply : HttpReply) (chunks : list OpenAI.Chunk) (c : OpenAI.Chunk) (u : OpenAI.Usage)
  (carried : Z * Z) :
  OpenAI.usage c = Some u ->
  openaiTurnUsage (rounds ++ [streamed reply (chunks ++ [c])]) carried
  = (default 0 (OpenAI.prompt_tokens u), default 0 (OpenAI.completion_tokens u)).
Proof.
  intros Hu. unfold openaiTurnUsage. rewrite fold_left_app. cbn [fold_left].
  unfold streamed. cbn [openaiEventsOf events].
  now apply openaiUsageAfter_last.
Qed.

Section GeminiLastRound.
Import Gemini.
Variable options : SendMessageOptions.

Lemma gemini_usage_of_turn (responses : list (Fetched (option (Body Chunk)))) :
  forall msgs i o acc run,
  makeStreamingRequest options responses msgs i o acc = Some run ->
  settled run = Fulfilled ->
  let rounds := firstn (length (sent run)) responses in
  exists cs full,
    calls run
    = (cs ++ reportAndComplete (callbacks options) (modelId options)
               (fst (geminiTurnUsage rounds (i, o))) (snd (geminiTurnUsage rounds (i, o)))
               0 full)%list.
Proof.
  induction responses as [| r later IH]; intros msgs i o acc run H Hdone; [discriminate |].
  cbn [makeStreamingRequest] in H.
  destruct r as [e | reply body]; [injection H as <-; discriminate |].
  destruct (negb (ok reply)); [injection H as <-; discriminate |].
  destruct body as [b |]; [| injection H as <-; discriminate].
  pose proof (gemini_readAll_replaces options (events b) (initLocals i o acc)) as Hu.
  destruct (readAll options (initLocals i o acc) (events b)) as [l cs].
  cbn [fst initLocals inputTokens outputTokens] in Hu.
  assert (Hfinal :
            Some {| sent := [msgs];
                    calls := (cs ++ reportAndComplete (callbacks options) (modelId options)
                                      (inputTokens l) (outputTokens l) 0
                                      (fullResponse l))%list;
                    settled := Fulfilled |} = Some run ->
            let rounds := firstn (length (sent run)) (FetchResolves reply (Some b) :: later) in
            exists cs full,
              calls run
              = (cs ++ reportAndComplete (callbacks options) (modelId options)
                         (fst (geminiTurnUsage rounds (i, o)))
                         (snd (geminiTurnUsage rounds (i, o))) 0 full)%list).
  { intros [= <-]. cbn. exists cs, (fullResponse l).
    change (fold_left _ (events b) (i, o)) with (geminiUsageAfter (events b) (i, o)).
    now rewrite <- Hu. }
  destruct (ending b) as [| e]; [| injection H as <-; discriminate].
  destruct (loadFileContents options) as [loader |]; [| now apply Hfinal].
  destruct (0 <? _)%nat; [| now apply Hfinal].
  destruct (resolveFunctionCalls options loader (pendingFunctionCalls l))
    as [results resolved].
  destruct (makeStreamingRequest options later _ _ _ _) as [rest |] eqn:Hrest;
    [| discriminate].
  injection H as <-. cbn [after sent calls settled] in *.
  destruct (IH _ _ _ _ _ Hrest Hdone) as (cs' & full & Hcalls).
  exists ((cs ++ resolved) ++ cs')%list, full.
  cbn [length firstn geminiTurnUsage fold_left geminiEventsOf].
  rewrite Hcalls, <- Hu, <- !app_assoc. reflexivity.
Qed.

End GeminiLastRound.

(** C1. A turn of two rounds, the first reporting 100 input and 20 output
    tokens, the second 150 and 30.  The Anthropic adapter reports the sums,
    250 and 50; the OpenAI and Gemini adapters report the second round
    alone, 150 and 30. *)
Theorem usage_of_two_rounds :
  Anthropic.sendMessage parsePathObject (exampleOptions "claude-haiku-4-5-20251001")
    [anthropicToolRound (pathObject "notes/a.md"); anthropicTextRound]
  = Some [ OnStart; OnToken "Let me look. "; OnFileLoad (Some "Loading file...");
           OnFileLoad (Some "notes/a.md"); OnFileLoad (Some "notes/a.md");
           OnFileLoaded (Some "notes/a.md") true; OnToken "It says alpha.";
           OnUsage (usageOf "claude-haiku-4-5-20251001" 250 50);
           OnComplete "Let me look. It says alpha." ]
  /\ OpenAI.sendMessage parsePathObject (exampleOptions "gpt-5-nano")
       [openaiToolRound (pathObject "notes/a.md"); openaiTextRound]
     = Some [ OnStart; OnFileLoad (Some "Loading file...");
              OnFileLoad (Some "notes/a.md"); OnFileLoad (Some "notes/a.md");
              OnFileLoaded (Some "notes/a.md") true; OnToken "It says alpha.";
              OnUsage (usageOf "gpt-5-nano" 150 30);
              OnComplete "It says alpha." ]
  /\ Gemini.sendMessage (exampleOptions "gemini-3-flash-preview")
       [geminiToolRound "notes/a.md"; geminiTextRound]
     = Some [ OnStart; OnFileLoad (Some "notes/a.md"); OnFileLoad (Some "notes/a.md");
              OnFileLoaded (Some "notes/a.md") true; OnToken "It says alpha.";
              OnUsage (usageOf "gemini-3-flash-preview" 150 30);
              OnComplete "It says alpha." ].
Proof. vm_compute. repeat split. Qed.

(** * Further properties of the code *)

(** ** Reading after writing *)

Lemma getItem_setItem (k v : string) (st : Storage) (k' : string) :
  getItem (setItem k v st) k' = if String.eqb k k' then Some v else getItem st k'.
Proof.
  unfold getItem, setItem. rewrite lookup_insert.
  destruct (String.eqb_spec k k'); case_decide; congruence.
Qed.

Lemma getItem_removeItem (k : string) (st : Storage) (k' : string) :
  getItem (removeItem k st) k' = if String.eqb k k' then None else getItem st k'.
Proof.
  unfold getItem, removeItem. rewrite lookup_delete.
  destruct (String.eqb_spec k k'); case_decide; congruence.
Qed.

Ltac storage_reads :=
  repeat first [ rewrite getItem_setItem | rewrite getItem_removeItem ];
  cbn [String.eqb Ascii.eqb Bool.eqb].

(** X1. A key stored for a provider is the key read back for that provider,
    and after clearing it no key is read back.  Neither operation changes
    what is read for another provider's key or for any provider's selected
    model.  With no localStorage, storing keeps nothing. *)
Theorem api_key_round_trip (p q : Provider) (key : string) (storage : StorageRef) :
  getApiKey q (setApiKey p key storage)
  = match storage with
    | None => None
    | Some _ => if Provider_eqb q p then Some key else getApiKey q storage
    end
  /\ getApiKey q (clearApiKey p storage)
     = (if Provider_eqb q p then None else getApiKey q storage)
  /\ getSelectedModel q (setApiKey p key storage) = getSelectedModel q storage
  /\ getSelectedModel q (clearApiKey p storage) = getSelectedModel q storage.
Proof.
  destruct storage as [st |]; [| now destruct p, q].
  unfold getApiKey, setApiKey, clearApiKey, getSelectedModel.
  destruct p, q; cbn [PROVIDERS storageKey modelStorageKey Provider_eqb];
    storage_reads; auto.
Qed.

Lemma setSelectedModel_reads (p q : Provider) (modelId : string) (st : Storage) :
  getSelectedModel q (setSelectedModel p modelId (Some st))
  = (if Provider_eqb q p
     then if existsb (fun m => String.eqb (id m) modelId) (getModelsForProvider p)
          then Some modelId else defaultModelId p
     else getSelectedModel q (Some st))
  /\ getApiKey q (setSelectedModel p modelId (Some st)) = getApiKey q (Some st)
  /\ getActiveProvider (setSelectedModel p modelId (Some st)) = getActiveProvider (Some st).
Proof.
  split; [| split].
  - unfold getSelectedModel, setSelectedModel.
    destruct p, q; cbn [PROVIDERS modelStorageKey Provider_eqb];
      storage_reads; auto;
      destruct modelId as [| c rest]; cbn [Js.truthy andb]; auto.
  - unfold getApiKey, setSelectedModel.
    destruct p, q; cbn [PROVIDERS storageKey modelStorageKey]; storage_reads; auto.
  - unfold getActiveProvider, setSelectedModel, firstConfiguredProvider, getAllProviders.
    destruct p; cbn [PROVIDERS storageKey modelStorageKey List.find ACTIVE_PROVIDER];
      storage_reads; cbn [List.find]; unfold ACTIVE_PROVIDER; storage_reads;
      destruct (Provider_of_saved _) as [[] |];
      cbn [PROVIDERS storageKey]; storage_reads; reflexivity.
Qed.

(** X2. After a model is stored for a provider, [getSelectedModel] gives
    that model when it is one of the provider's catalog ids, and the
    provider's default otherwise.  The models of the other providers, every
    key and the active provider stay as they were. *)
Theorem selected_model_round_trip (p q : Provider) (modelId : string) (st : Storage) :
  getSelectedModel q (setSelectedModel p modelId (Some st))
  = (if Provider_eqb q p
     then if existsb (fun m => String.eqb (id m) modelId) (getModelsForProvider p)
          then Some modelId else defaultModelId p
     else getSelectedModel q (Some st))
  /\ getApiKey q (setSelectedModel p modelId (Some st)) = getApiKey q (Some st)
  /\ getActiveProvider (setSelectedModel p modelId (Some st)) = getActiveProvider (Some st).
Proof. apply setSelectedModel_reads. Qed.

Lemma setItem_setItem (k v : string) (st : Storage) :
  setItem k v (setItem k v st) = setItem k v st.
Proof. unfold setItem. rewrite insert_insert. now case_decide. Qed.

Lemma truthy_item_Some (v : option string) :
  truthy_item v = true -> exists s, v = Some s /\ Js.truthy s = true.
Proof. destruct v as [s |]; [| discriminate]. intros H. now exists s. Qed.

Lemma runMigration_reads (st : Storage) :
  exists st', runMigration (Some st) = Some st'
    /\ (forall p, getItem st' (storageKey (PROVIDERS p)) = getItem st (storageKey (PROVIDERS p)))
    /\ getItem st' "brain_chat_model" = getItem st "brain_chat_model"
    /\ getItem st' (modelStorageKey (PROVIDERS openai))
       = getItem st (modelStorageKey (PROVIDERS openai))
    /\ getItem st' (modelStorageKey (PROVIDERS gemini))
       = getItem st (modelStorageKey (PROVIDERS gemini)).
Proof.
  unfold runMigration.
  repeat case_match; eexists; (split; [reflexivity |]);
    (split; [intros []; cbn [PROVIDERS storageKey modelStorageKey] |]);
    cbn [PROVIDERS storageKey modelStorageKey]; unfold ACTIVE_PROVIDER;
    storage_reads; auto.
Qed.

Lemma runMigration_active (st st' : Storage) :
  truthy_item (getItem st ACTIVE_PROVIDER) = false ->
  runMigration (Some st) = Some st' ->
  getItem st' ACTIVE_PROVIDER
  = if truthy_item (getItem st (storageKey (PROVIDERS anthropic)))
    then Some "anthropic" else getItem st ACTIVE_PROVIDER.
Proof.
  intros Hactive Hrun. unfold runMigration in Hrun. rewrite Hactive in Hrun.
  destruct (truthy_item (getItem st (storageKey (PROVIDERS anthropic))));
    repeat case_match; injection Hrun as <-;
    cbn [PROVIDERS modelStorageKey]; unfold ACTIVE_PROVIDER; storage_reads;
    reflexivity.
Qed.

Lemma runMigration_done (st : Storage) :
  truthy_item (getItem st ACTIVE_PROVIDER) = true -> runMigration (Some st) = Some st.
Proof. intros H. unfold runMigration. now rewrite H. Qed.

Lemma runMigration_keeps (storage : StorageRef) :
  runMigration (runMigration storage) = runMigration storage
  /\ (forall p, getApiKey p (runMigration storage) = getApiKey p storage)
  /\ getActiveProvider (runMigration storage) = getActiveProvider storage
  /\ getSelectedModel openai (runMigration storage) = getSelectedModel openai storage
  /\ getSelectedModel gemini (runMigration storage) = getSelectedModel gemini storage.
Proof.
  destruct storage as [st |]; [| repeat split].
  destruct (runMigration_reads st) as (st' & Hrun & Hkeys & Hold & Hopenai & Hgemini).
  destruct (truthy_item (getItem st ACTIVE_PROVIDER)) eqn:Hactive.
  { rewrite (runMigration_done st Hactive). rewrite (runMigration_done st Hactive).
    repeat split. }
  pose proof (runMigration_active st st' Hactive Hrun) as Hnow.
  assert (Hsaved : Provider_of_saved (getItem st ACTIVE_PROVIDER) = None).
  { destruct (getItem st ACTIVE_PROVIDER) as [[| c s] |]; try reflexivity. discriminate. }
  split; [| split; [| split; [| split]]].
  - rewrite Hrun.
    destruct (truthy_item (getItem st (storageKey (PROVIDERS anthropic)))) eqn:Hkey.
    + apply runMigration_done. now rewrite Hnow.
    + unfold runMigration in *. rewrite Hactive, Hkey in Hrun.
      rewrite Hnow, Hactive, Hkeys, Hkey, Hold.
      destruct (getItem st "brain_chat_model") as [oldModel |]; [| congruence].
      destruct (Js.truthy oldModel); [| congruence].
      destruct (_ || _); [| congruence].
      injection Hrun as <-. now rewrite setItem_setItem.
  - intros p. rewrite Hrun. unfold getApiKey. apply Hkeys.
  - rewrite Hrun. unfold getActiveProvider, firstConfiguredProvider, getAllProviders.
    cbn [List.find]. rewrite !Hkeys, Hnow, Hsaved.
    destruct (truthy_item (getItem st (storageKey (PROVIDERS anthropic)))) eqn:Hkey.
    + cbn [Provider_of_saved String.eqb Ascii.eqb Bool.eqb].
      now rewrite Hkeys, Hkey.
    + now rewrite Hsaved.
  - rewrite Hrun. unfold getSelectedModel. now rewrite Hopenai.
  - rewrite Hrun. unfold getSelectedModel. now rewrite Hgemini.
Qed.

(** X3. The migration settles: run again on the store it left, it changes
    nothing.  It leaves every provider's key, the active provider, and the
    models selected for OpenAI and Gemini as they were. *)
Theorem runMigration_settles (storage : StorageRef) :
  runMigration (runMigration storage) = runMigration storage
  /\ (forall p, getApiKey p (runMigration storage) = getApiKey p storage)
  /\ getActiveProvider (runMigration storage) = getActiveProvider storage
  /\ getSelectedModel openai (runMigration storage) = getSelectedModel openai storage
  /\ getSelectedModel gemini (runMigration storage) = getSelectedModel gemini storage.
Proof. apply runMigration_keeps. Qed.

(** X4. What the migration does with a legacy model selection, in a store
    that names no active provider.  A legacy name of [modelMap] selects the
    Anthropic catalog model it is mapped to; an id of the Anthropic catalog
    is selected as it is; a name that is not mapped and does not mention
    claude leaves the Anthropic selection as it was. *)
Theorem runMigration_legacy_model (st : Storage) (oldModel : string) :
  truthy_item (getItem st ACTIVE_PROVIDER) = false ->
  getItem st "brain_chat_model" = Some oldModel ->
  Js.truthy oldModel = true ->
  (forall newModel, modelMap oldModel = Some newModel ->
     getSelectedModel anthropic (runMigration (Some st)) = Some newModel
     /\ In newModel (map id (getModelsForProvider anthropic)))
  /\ (In oldModel (map id (getModelsForProvider anthropic)) ->
      getSelectedModel anthropic (runMigration (Some st)) = Some oldModel)
  /\ (modelMap oldModel = None -> Js.includes oldModel "claude" = false ->
      getSelectedModel anthropic (runMigration (Some st))
      = getSelectedModel anthropic (Some st)).
Proof.
  intros Hactive Hold Htruthy.
  assert (Hread : forall st1,
            st1 = (if truthy_item (getItem st (storageKey (PROVIDERS anthropic)))
                   then setItem ACTIVE_PROVIDER "anthropic" st else st) ->
            getItem st1 "brain_chat_model" = Some oldModel
            /\ getItem st1 (modelStorageKey (PROVIDERS anthropic))
               = getItem st (modelStorageKey (PROVIDERS anthropic))).
  { intros st1 ->. destruct (truthy_item (getItem st (storageKey (PROVIDERS anthropic)))); [| auto].
    unfold ACTIVE_PROVIDER. cbn [PROVIDERS modelStorageKey]. storage_reads. auto. }
  unfold runMigration. rewrite Hactive.
  destruct (Hread _ eq_refl) as [Hold1 Hmodel1]. rewrite Hold1, Htruthy.
  split; [| split].
  - intros newModel Hmap. rewrite Hmap. cbn [default].
    replace (bool_decide (is_Some (Some newModel))) with true by reflexivity.
    rewrite orb_true_r.
    unfold getSelectedModel. rewrite getItem_setItem, String.eqb_refl.
    unfold modelMap in Hmap.
    repeat case_match; simplify_eq; split; vm_compute; auto.
  - intros Hin.
    assert (Hcases : oldModel = "claude-haiku-4-5-20251001"
                     \/ oldModel = "claude-sonnet-4-5-20250929").
    { vm_compute in Hin. destruct Hin as [H | [H | []]]; auto. }
    destruct Hcases as [-> | ->]; vm_compute modelMap; cbn [default];
      replace (Js.includes _ "claude") with true by (vm_compute; reflexivity);
      cbn [orb]; unfold getSelectedModel; rewrite getItem_setItem, String.eqb_refl;
      reflexivity.
  - intros Hmap Hclaude. rewrite Hmap. cbn [default]. rewrite Hclaude.
    replace (bool_decide (is_Some None)) with false by reflexivity.
    cbn [orb]. unfold getSelectedModel. now rewrite Hmodel1.
Qed.

Lemma runMigration_legacy_model_witness :
  getSelectedModel anthropic
    (runMigration (Some (<["brain_chat_model" := "haiku"]> ∅)))
  = Some "claude-haiku-4-5-20251001"
  /\ In "claude-haiku-4-5-20251001" (map id (getModelsForProvider anthropic)).
Proof.
  exact (proj1 (runMigration_legacy_model (<["brain_chat_model" := "haiku"]> ∅) "haiku"
                  eq_refl eq_refl eq_refl)
           "claude-haiku-4-5-20251001" eq_refl).
Defined.

(** The active provider, by cases on what is stored. *)
Ltac active_cases :=
  unfold getActiveProvider, firstConfiguredProvider, getAllProviders, hasApiKey, getApiKey;
  cbn [List.find PROVIDERS storageKey modelStorageKey];
  unfold ACTIVE_PROVIDER; storage_reads.

(** X5. [getProvidersWithStatus] lists the three providers in registry
    order and marks exactly one of them active; when some provider has a
    key, the one marked active has a key. *)
Theorem getProvidersWithStatus_one_active (storage : StorageRef) :
  let statuses := getProvidersWithStatus storage in
  map config statuses = map PROVIDERS getAllProviders
  /\ length (List.filter isActive statuses) = 1%nat
  /\ existsb (fun s => isActive s && hasKey s) statuses = existsb hasKey statuses.
Proof.
  unfold getProvidersWithStatus, getAllProviders.
  cbn [map List.filter existsb config isActive hasKey].
  split; [reflexivity |]. split.
  - destruct (getActiveProvider storage); reflexivity.
  - destruct storage as [st |]; [| reflexivity].
    active_cases.
    destruct (Provider_of_saved _) as [[] |];
      cbn [PROVIDERS storageKey];
      destruct (truthy_item (getItem st "brain_anthropic_api_key"));
      destruct (truthy_item (getItem st "brain_openai_api_key"));
      destruct (truthy_item (getItem st "brain_gemini_api_key")); reflexivity.
Qed.

(** X6. Clearing the key of a provider that is not the active one leaves
    the active provider as it was.  Clearing the key of the active provider
    makes the first provider that still has a key the active one, and
    Anthropic when none has. *)
Theorem clearApiKey_active (p : Provider) (st : Storage) :
  getActiveProvider (clearApiKey p (Some st))
  = if Provider_eqb (getActiveProvider (Some st)) p
    then firstConfiguredProvider (removeItem (storageKey (PROVIDERS p)) st)
    else getActiveProvider (Some st).
Proof.
  unfold clearApiKey. active_cases.
  destruct p; cbn [PROVIDERS storageKey]; storage_reads;
    destruct (Provider_of_saved _) as [[] |];
    cbn [PROVIDERS storageKey]; storage_reads; cbn [truthy_item];
    destruct (truthy_item (getItem st "brain_anthropic_api_key"));
    destruct (truthy_item (getItem st "brain_openai_api_key"));
    destruct (truthy_item (getItem st "brain_gemini_api_key")); reflexivity.
Qed.

(** X7. The first key stored makes its provider the active one.  Once a
    provider with a key has been selected explicitly, storing or clearing
    the key of another provider does not change the active provider. *)
Theorem setApiKey_active (p : Provider) (key : string) (st : Storage) :
  (Js.truthy key = true -> (forall q, hasApiKey q (Some st) = false) ->
   getActiveProvider (setApiKey p key (Some st)) = p)
  /\ (forall a, Provider_of_saved (getItem st ACTIVE_PROVIDER) = Some a ->
        hasApiKey a (Some st) = true -> Provider_eqb p a = false ->
        getActiveProvider (setApiKey p key (Some st)) = a
        /\ getActiveProvider (clearApiKey p (Some st)) = a).
Proof.
  split.
  - intros Hkey Hnone.
    pose proof (Hnone anthropic) as Ha. pose proof (Hnone openai) as Ho.
    pose proof (Hnone gemini) as Hg. revert Ha Ho Hg.
    unfold setApiKey. active_cases. intros Ha Ho Hg.
    destruct p; cbn [PROVIDERS storageKey]; storage_reads;
      destruct (Provider_of_saved _) as [[] |];
      cbn [PROVIDERS storageKey]; storage_reads; cbn [truthy_item];
      rewrite ?Hkey, ?Ha, ?Ho, ?Hg; reflexivity.
  - intros a Hsaved Hhas Hother. revert Hsaved Hhas.
    unfold setApiKey, clearApiKey. active_cases. intros Hsaved Hhas.
    destruct p, a; try discriminate; cbn [PROVIDERS storageKey] in *; storage_reads;
      rewrite Hsaved; cbn [PROVIDERS storageKey]; storage_reads; rewrite Hhas; auto.
Qed.

Lemma setApiKey_active_witness :
  getActiveProvider (setApiKey gemini "AIza-one" (Some ∅)) = gemini.
Proof.
  apply (proj1 (setApiKey_active gemini "AIza-one" ∅)); [reflexivity |].
  intros []; reflexivity.
Defined.

(** X8. The chat page's [handleProviderChange].  For a provider with a key
    it makes that provider active and sets the model selected for it to the
    first model of its catalog, which is the provider's default; for a
    provider without a key it leaves the store as it was.  It never changes
    a key or the model of another provider. *)
Theorem chat_handleProviderChange (p q : Provider) (storage : StorageRef) :
  let after := ChatPage.handleProviderChange p storage in
  getActiveProvider after = (if hasApiKey p storage then p else getActiveProvider storage)
  /\ getSelectedModel q after
     = (if Provider_eqb q p && hasApiKey p storage then defaultModelId q
        else getSelectedModel q storage)
  /\ getApiKey q after = getApiKey q storage.
Proof.
  cbv zeta. destruct storage as [st |];
    [| destruct p, q; repeat split].
  unfold ChatPage.handleProviderChange, BrainChat.getApiKey, BrainChat.setActiveProvider,
    BrainChat.setSelectedModel, BrainChat.getProviderApiKey,
    BrainChat.setActiveProviderInStorage, BrainChat.getActiveProviderFromStorage,
    BrainChat.setProviderSelectedModel.
  change (default (getActiveProvider (Some st)) (Some p)) with p.
  fold (hasApiKey p (Some st)).
  destruct (hasApiKey p (Some st)) eqn:Hkey; cbn [negb];
    [| now rewrite andb_false_r].
  rewrite andb_true_r.
  assert (Hactive : getActiveProvider (setActiveProvider p (Some st)) = p).
  { revert Hkey. unfold setActiveProvider. active_cases.
    destruct p; cbn [Provider_to_string Provider_of_saved String.eqb Ascii.eqb Bool.eqb
                     PROVIDERS storageKey]; storage_reads; now intros ->. }
  assert (Hmodels : exists m rest, getModelsForProvider p = m :: rest
                                   /\ defaultModelId p = Some (id m)
                                   /\ existsb (fun m' => String.eqb (id m') (id m))
                                        (getModelsForProvider p) = true).
  { destruct p; eexists _, _; repeat split. }
  destruct Hmodels as (m & rest & Hm & Hdefault & Hexists).
  rewrite Hm, Hactive. unfold setActiveProvider.
  destruct (setSelectedModel_reads p q (id m)
              (setItem ACTIVE_PROVIDER (Provider_to_string p) st))
    as (Hsel & Hkeys & Hact).
  split; [| split].
  - rewrite Hact. exact Hactive.
  - rewrite Hsel, Hexists.
    destruct (Provider_eqb q p) eqn:Hqp.
    + destruct p, q; try discriminate; exact (eq_sym Hdefault).
    + unfold getSelectedModel.
      destruct q; cbn [PROVIDERS modelStorageKey]; unfold ACTIVE_PROVIDER; storage_reads;
        reflexivity.
  - rewrite Hkeys. unfold getApiKey. apply getItem_key_setActive.
Qed.

(** X9. Each of the three tool switches (web search, web fetch, code
    execution) reads back the value last stored under it, and false when
    there is no localStorage.  Storing one switch changes neither of the
    other two, nor the active provider, any key or any selected model. *)
Theorem tool_switches_round_trip (enabled : bool) (storage : StorageRef) :
  let stored := match storage with Some _ => enabled | None => false end in
  (BrainChat.getWebSearchEnabled (BrainChat.setWebSearchEnabled enabled storage) = stored
   /\ BrainChat.getWebFetchEnabled (BrainChat.setWebSearchEnabled enabled storage)
      = BrainChat.getWebFetchEnabled storage
   /\ BrainChat.getCodeExecutionEnabled (BrainChat.setWebSearchEnabled enabled storage)
      = BrainChat.getCodeExecutionEnabled storage)
  /\ (BrainChat.getWebFetchEnabled (BrainChat.setWebFetchEnabled enabled storage) = stored
      /\ BrainChat.getWebSearchEnabled (BrainChat.setWebFetchEnabled enabled storage)
         = BrainChat.getWebSearchEnabled storage
      /\ BrainChat.getCodeExecutionEnabled (BrainChat.setWebFetchEnabled enabled storage)
         = BrainChat.getCodeExecutionEnabled storage)
  /\ (BrainChat.getCodeExecutionEnabled (BrainChat.setCodeExecutionEnabled enabled storage)
      = stored
      /\ BrainChat.getWebSearchEnabled (BrainChat.setCodeExecutionEnabled enabled storage)
         = BrainChat.getWebSearchEnabled storage
      /\ BrainChat.getWebFetchEnabled (BrainChat.setCodeExecutionEnabled enabled storage)
         = BrainChat.getWebFetchEnabled storage)
  /\ (forall p,
        let others s := (getActiveProvider s, getApiKey p s, getSelectedModel p s) in
        others (BrainChat.setWebSearchEnabled enabled storage) = others storage
        /\ others (BrainChat.setWebFetchEnabled enabled storage) = others storage
        /\ others (BrainChat.setCodeExecutionEnabled enabled storage) = others storage).
Proof.
  cbv zeta. destruct storage as [st |]; [| repeat split].
  unfold BrainChat.getWebSearchEnabled, BrainChat.setWebSearchEnabled,
    BrainChat.getWebFetchEnabled, BrainChat.setWebFetchEnabled,
    BrainChat.getCodeExecutionEnabled, BrainChat.setCodeExecutionEnabled,
    BrainChat.WEB_SEARCH_STORAGE_KEY, BrainChat.WEB_FETCH_STORAGE_KEY,
    BrainChat.CODE_EXECUTION_STORAGE_KEY.
  storage_reads.
  repeat split; try (now destruct enabled).
  all: unfold getSelectedModel; active_cases;
    destruct p; cbn [PROVIDERS storageKey modelStorageKey]; storage_reads;
    destruct (Provider_of_saved _) as [[] |];
    cbn [PROVIDERS storageKey]; storage_reads; reflexivity.
Qed.

(** X10. [validateKeyFormat] accepts exactly the keys that start with the
    provider's prefix.  The prefixes overlap: every key in Anthropic's
    format also passes as an OpenAI key, while a key in Gemini's format
    passes for neither of the other two providers. *)
Theorem validateKeyFormat_prefixes (key : string) :
  (forall p, validateKeyFormat key p = Js.startsWith key (keyPrefix (PROVIDERS p)))
  /\ (validateKeyFormat key anthropic = true -> validateKeyFormat key openai = true)
  /\ (validateKeyFormat key gemini = true ->
      validateKeyFormat key anthropic = false /\ validateKeyFormat key openai = false).
Proof.
  split; [intros []; reflexivity |].
  unfold validateKeyFormat, Js.startsWith.
  cbn [Provider_eqb PROVIDERS keyPrefix].
  split.
  - destruct key as [| c1 [| c2 [| c3 rest]]]; cbn [String.prefix]; intros H;
      try discriminate;
      repeat (destruct (Ascii.ascii_dec _ _); try discriminate); now destruct rest.
  - destruct key as [| c1 rest]; cbn [String.prefix]; [discriminate |].
    destruct (Ascii.ascii_dec "A" c1) as [<- |]; [| discriminate].
    intros _. split; reflexivity.
Qed.

Lemma validateKeyFormat_prefixes_witness :
  validateKeyFormat "sk-ant-api03-abc" openai = true.
Proof.
  apply (proj1 (proj2 (validateKeyFormat_prefixes "sk-ant-api03-abc"))). reflexivity.
Defined.

Lemma getSelectedModel_in_models (p : Provider) (storage : StorageRef) :
  exists m, getSelectedModel p storage = Some (id m) /\ In m (getModelsForProvider p).
Proof.
  assert (Hdefault : exists m, defaultModelId p = Some (id m)
                               /\ In m (getModelsForProvider p)).
  { destruct (defaultModelId_cheap p) as (m & Hm & Hin & _).
    exists m. unfold defaultModelId. now rewrite Hm. }
  destruct storage as [st |]; [| exact Hdefault].
  unfold getSelectedModel.
  destruct (getItem st _) as [s |]; [| exact Hdefault].
  destruct (Js.truthy s && _) eqn:Hs; [| exact Hdefault].
  apply andb_true_iff in Hs as [_ Hs].
  apply existsb_id_In in Hs as (m & Hin & <-). now exists m.
Qed.

(** X11. What the chat page loads when it mounts, whenever the migration
    ends without an exception: the active provider, that provider's catalog
    as the models on offer, and as selected model the one stored for that
    provider after the migration, which is always one of the models on
    offer.  The page finds a key exactly when some provider has one. *)
Theorem mount_preferences (storage : StorageRef) :
  runMigrationThrows storage = false ->
  exists prefs,
    ChatPage.loadPreferences storage = Some (runMigration storage, prefs)
    /\ ChatPage.activeProvider prefs = getActiveProvider storage
    /\ ChatPage.availableModels prefs = getModelsForProvider (getActiveProvider storage)
    /\ getSelectedModel (getActiveProvider storage) (runMigration storage)
       = Some (ChatPage.selectedModelId prefs)
    /\ In (ChatPage.selectedModelId prefs) (map id (ChatPage.availableModels prefs))
    /\ BrainChat.hasApiKey None storage
       = existsb (fun p => hasApiKey p storage) getAllProviders.
Proof.
  intros Hruns.
  unfold ChatPage.loadPreferences, BrainChat.getActiveProvider,
    BrainChat.getActiveProviderModels, BrainChat.getSelectedModel,
    BrainChat.getActiveProviderFromStorage, BrainChat.getProviderSelectedModel,
    BrainChat.hasApiKey, BrainChat.providerHasApiKey.
  rewrite Hruns. cbn [default].
  destruct (runMigration_keeps storage) as (_ & _ & Hactive & _).
  rewrite Hactive.
  destruct (getSelectedModel_in_models (getActiveProvider storage) (runMigration storage))
    as (m & Hsel & Hin).
  rewrite Hsel.
  assert (Hexists : existsb (fun m' => String.eqb (id m') (id m))
                      (getModelsForProvider (getActiveProvider storage)) = true).
  { apply List.existsb_exists. exists m. split; [exact Hin | apply String.eqb_refl]. }
  rewrite Hexists. eexists. split; [reflexivity |].
  cbn [ChatPage.activeProvider ChatPage.availableModels ChatPage.selectedModelId].
  repeat split.
  - now apply in_map.
  - destruct storage as [st |]; [| reflexivity].
    unfold BrainChat.getActiveProviderFromStorage. active_cases.
    destruct (Provider_of_saved _) as [[] |];
      cbn [PROVIDERS storageKey existsb];
      destruct (truthy_item (getItem st "brain_anthropic_api_key")) eqn:Ha;
      destruct (truthy_item (getItem st "brain_openai_api_key")) eqn:Ho;
      destruct (truthy_item (getItem st "brain_gemini_api_key")) eqn:Hg;
      cbn [PROVIDERS storageKey]; rewrite ?Ha, ?Ho, ?Hg; reflexivity.
Qed.

Lemma mount_preferences_witness :
  exists prefs,
    ChatPage.loadPreferences (Some exampleStore)
    = Some (runMigration (Some exampleStore), prefs)
    /\ ChatPage.activeProvider prefs = getActiveProvider (Some exampleStore)
    /\ ChatPage.availableModels prefs
       = getModelsForProvider (getActiveProvider (Some exampleStore))
    /\ getSelectedModel (getActiveProvider (Some exampleStore))
         (runMigration (Some exampleStore))
       = Some (ChatPage.selectedModelId prefs)
    /\ In (ChatPage.selectedModelId prefs) (map id (ChatPage.availableModels prefs))
    /\ BrainChat.hasApiKey None (Some exampleStore)
       = existsb (fun p => hasApiKey p (Some exampleStore)) getAllProviders.
Proof. exact (mount_preferences (Some exampleStore) eq_refl). Defined.

Lemma validateKey_valid (p : Provider) (answer : Fetched unit) :
  valid (validateKey p answer)
  = match answer with
    | FetchResolves response _ => ok response
    | FetchRejects _ => false
    end.
Proof.
  assert (Hres : forall r, valid (apiErrorResult r) = false).
  { intros r. unfold apiErrorResult. now destruct (apiErrorMessage r). }
  destruct p, answer as [e | response body]; try reflexivity;
    cbn [validateKey Anthropic.validateKey OpenAI.validateKey Gemini.validateKey];
    repeat case_match; cbn [valid]; rewrite ?Hres; reflexivity.
Qed.

Lemma or_default_truthy (a : option string) (dflt : string) :
  Js.truthy dflt = true -> Js.truthy (Js.or_default a dflt) = true.
Proof.
  intros H. unfold Js.or_default, Js.or_else.
  destruct a as [s |]; [| exact H]. now destruct (Js.truthy s) eqn:E.
Qed.

(** X12. The key dialog stores a key exactly when the trimmed key is not
    empty, starts with the provider's prefix, and the vendor answers the
    validation request with a 2xx status; what it stores is the trimmed
    key, for the provider on display.  In every other case the store is
    left as it was and an error text that is not empty is shown. *)
Theorem key_dialog_stores_validated_keys (trim : string -> string) (key : string)
  (p : Provider) (answer : Fetched unit) (storage : StorageRef) :
  let r := ApiKeyModal.handleSubmit trim key p answer storage in
  ApiKeyModal.succeeded r
  = Js.truthy (trim key)
    && Js.startsWith (trim key) (keyPrefix (PROVIDERS p))
    && match answer with
       | FetchResolves response _ => ok response
       | FetchRejects _ => false
       end
  /\ ApiKeyModal.store r
     = (if ApiKeyModal.succeeded r then setApiKey p (trim key) storage else storage)
  /\ Js.truthy (ApiKeyModal.shown r) = negb (ApiKeyModal.succeeded r).
Proof.
  cbv zeta. unfold ApiKeyModal.handleSubmit.
  destruct (Js.truthy (trim key)); cbn [negb andb]; [| repeat split].
  destruct (Js.startsWith (trim key) (keyPrefix (PROVIDERS p))); cbn [negb andb].
  2: { repeat split. }
  unfold BrainChatApi.validateApiKey, BrainChatApi.providerValidateKey.
  change (default (BrainChat.getActiveProviderFromStorage storage) (Some p)) with p.
  rewrite <- (validateKey_valid p answer).
  destruct (valid (validateKey p answer)); cbn [ApiKeyModal.succeeded ApiKeyModal.store
                                                 ApiKeyModal.shown negb].
  - repeat split.
  - repeat split. now apply or_default_truthy.
Qed.

(** ** Framing of the streamed body *)

Lemma split_nonempty (sep : ascii) (s : string) : Js.split sep s <> [].
Proof.
  destruct s as [| c rest]; [discriminate |]. cbn [Js.split].
  destruct (Ascii.eqb c sep); [discriminate |].
  destruct (Js.split sep rest); discriminate.
Qed.

Lemma split_cons (sep c : ascii) (rest : string) :
  Ascii.eqb c sep = false ->
  exists h t, Js.split sep rest = h :: t
              /\ Js.split sep (String c rest) = String c h :: t.
Proof.
  intros Hc. cbn [Js.split]. rewrite Hc.
  destruct (Js.split sep rest) as [| h t] eqn:E; [now apply split_nonempty in E |].
  now exists h, t.
Qed.

(** Splitting a text in two parts: the pieces of the first part but its
    last, then the pieces of that last one followed by the second part. *)
Lemma split_app (sep : ascii) (a b : string) :
  Js.split sep (a ++ b)
  = (removelast (Js.split sep a)
     ++ Js.split sep (List.last (Js.split sep a) "" ++ b))%list.
Proof.
  induction a as [| c rest IH]; [reflexivity |].
  rewrite append_cons.
  destruct (Ascii.eqb c sep) eqn:Hc.
  - cbn [Js.split]. rewrite Hc, IH.
    destruct (Js.split sep rest) as [| h t] eqn:E; [now apply split_nonempty in E |].
    reflexivity.
  - destruct (split_cons sep c (rest ++ b) Hc) as (h & t & Hsplit & ->).
    destruct (split_cons sep c rest Hc) as (h' & t' & Hsplit' & ->).
    rewrite IH, Hsplit' in Hsplit.
    destruct t' as [| h2 t2].
    + cbn [removelast List.last app] in *.
      rewrite append_cons.
      destruct (split_cons sep c (h' ++ b) Hc) as (h3 & t3 & E3 & ->).
      congruence.
    + cbn [removelast List.last app] in *.
      injection Hsplit as <- <-. reflexivity.
Qed.

(** The last piece of a split holds no separator. *)
Lemma split_last (sep : ascii) (s : string) :
  Js.split sep (List.last (Js.split sep s) "") = [List.last (Js.split sep s) ""].
Proof.
  induction s as [| c rest IH]; [reflexivity |].
  destruct (Ascii.eqb c sep) eqn:Hc.
  - cbn [Js.split]. rewrite Hc.
    destruct (Js.split sep rest) as [| h t] eqn:E; [now apply split_nonempty in E |].
    exact IH.
  - destruct (split_cons sep c rest Hc) as (h & t & Hsplit & ->).
    rewrite Hsplit in IH.
    destruct t as [| h2 t2]; [| exact IH].
    cbn [List.last] in *.
    destruct (split_cons sep c h Hc) as (h3 & t3 & E3 & ->).
    congruence.
Qed.

Lemma completeLines_whole (buffer : string) (chunks : list string) :
  Js.split (ascii_of_nat 10) buffer = [buffer] ->
  completeLines buffer chunks
  = removelast (Js.split (ascii_of_nat 10) (buffer ++ concatAll chunks)).
Proof.
  revert buffer. induction chunks as [| chunk rest IH]; intros buffer Hbuffer.
  - cbn [completeLines concatAll fold_right]. now rewrite append_nil_r, Hbuffer.
  - cbn [completeLines takeLines concatAll fold_right].
    rewrite <- append_assoc, (split_app _ (buffer ++ chunk)).
    rewrite removelast_app by apply split_nonempty.
    f_equal. apply IH, split_last.
Qed.

(** X13. How the streamed body is cut into chunks does not matter.  The
    lines an adapter takes from the chunks are the lines of the whole text
    without the unfinished last one, so each adapter parses the same events
    from any chunking of the same text. *)
Theorem chunking_is_invisible (chunks : list string) :
  completeLines "" chunks
  = removelast (Js.split (ascii_of_nat 10) (concatAll chunks))
  /\ (forall parseEvent,
        Anthropic.parsedEvents parseEvent chunks
        = Anthropic.parsedEvents parseEvent [concatAll chunks])
  /\ (forall parseEvent,
        OpenAI.parsedEvents parseEvent chunks
        = OpenAI.parsedEvents parseEvent [concatAll chunks])
  /\ (forall parseEvent,
        Gemini.parsedEvents parseEvent chunks
        = Gemini.parsedEvents parseEvent [concatAll chunks]).
Proof.
  assert (Hwhole : completeLines "" chunks = completeLines "" [concatAll chunks]).
  { rewrite !completeLines_whole by reflexivity.
    cbn [concatAll fold_right]. now rewrite append_nil_r. }
  split; [now rewrite completeLines_whole by reflexivity |].
  unfold Anthropic.parsedEvents, OpenAI.parsedEvents, Gemini.parsedEvents.
  now rewrite Hwhole.
Qed.

(** ** Keywords of a query *)

Section Keywords.
Import BrainChat.

Lemma existsb_eqb_In (x : string) (l : list string) :
  existsb (String.eqb x) l = true <-> In x l.
Proof.
  rewrite List.existsb_exists. split.
  - intros (y & Hy & E). apply String.eqb_eq in E. now subst.
  - intros H. exists x. split; [exact H | apply String.eqb_refl].
Qed.

Lemma uniq_from_In (seen xs : list string) (x : string) :
  In x (uniq_from seen xs) <-> In x xs /\ ~ In x seen.
Proof.
  revert seen. induction xs as [| y xs IH]; intros seen; cbn [uniq_from].
  - simpl. tauto.
  - destruct (existsb (String.eqb y) seen) eqn:E.
    + apply existsb_eqb_In in E. rewrite IH. simpl.
      split; [tauto |]. intros [[<- | H] Hn]; tauto.
    + assert (Hy : ~ In y seen).
      { intros H. apply existsb_eqb_In in H. congruence. }
      simpl. rewrite IH. simpl.
      split.
      * intros [<- | [H Hn]]; [tauto |]. split; [tauto |]. tauto.
      * intros [[<- | H] Hn]; [tauto |].
        destruct (String.eqb_spec y x) as [-> | Hne]; [tauto |]. right. tauto.
Qed.

Lemma uniq_from_NoDup (seen xs : list string) : List.NoDup (uniq_from seen xs).
Proof.
  revert seen. induction xs as [| y xs IH]; intros seen; cbn [uniq_from].
  - constructor.
  - destruct (existsb (String.eqb y) seen); [apply IH |].
    constructor; [| apply IH].
    intros H. apply uniq_from_In in H. simpl in H. tauto.
Qed.

Lemma toLowerCase_idem (s : string) : Js.toLowerCase (Js.toLowerCase s) = Js.toLowerCase s.
Proof.
  induction s as [| c rest IH]; [reflexivity |].
  cbn [Js.toLowerCase]. rewrite IH. f_equal.
  unfold Js.lower_char. cbv zeta.
  destruct ((65 <=? nat_of_ascii c) && (nat_of_ascii c <=? 90))%nat eqn:E.
  - apply andb_true_iff in E as [E1 E2].
    apply Nat.leb_le in E1. apply Nat.leb_le in E2.
    rewrite nat_ascii_embedding by lia.
    replace ((65 <=? nat_of_ascii c + 32) && (nat_of_ascii c + 32 <=? 90))%nat with false;
      [reflexivity |].
    symmetry. apply andb_false_iff. right. apply Nat.leb_gt. lia.
  - now rewrite E.
Qed.

(** X14. [extractKeywords] returns exactly the folders of the known
    sources one of whose aliases occurs in the lower-cased query, each
    folder once, and does not depend on the case of the query. *)
Theorem extractKeywords_sound (query : string) :
  (forall folder,
     In folder (extractKeywords query)
     <-> exists alias folders,
           In (alias, folders) knownSources /\ In folder folders
           /\ Js.includes (Js.toLowerCase query) alias = true)
  /\ List.NoDup (extractKeywords query)
  /\ extractKeywords (Js.toLowerCase query) = extractKeywords query.
Proof.
  split; [| split].
  - intros folder. unfold extractKeywords, uniq.
    rewrite uniq_from_In, in_flat_map. split.
    + intros [([alias folders] & Hin & Hfolder) _]. cbn [fst snd] in Hfolder.
      destruct (Js.includes _ alias) eqn:E; [| destruct Hfolder].
      now exists alias, folders.
    + intros (alias & folders & Hin & Hfolder & E). split; [| tauto].
      exists (alias, folders). cbn [fst snd]. now rewrite E.
  - apply uniq_from_NoDup.
  - unfold extractKeywords. now rewrite toLowerCase_idem.
Qed.
End Keywords.

Section DiscoveryOrder.
Import BrainChat.

Lemma filter_flat_map {A B : Type} (f : B -> bool) (g : A -> list B) (l : list A) :
  List.filter f (flat_map g l) = flat_map (fun a => List.filter f (g a)) l.
Proof.
  induction l as [| a l IH]; [reflexivity |].
  cbn [flat_map]. now rewrite List.filter_app, IH.
Qed.

Lemma flat_map_ext_Forall {A B : Type} (f g : A -> list B) (l : list A) :
  Forall (fun a => f a = g a) l -> flat_map f l = flat_map g l.
Proof. induction 1 as [| a l Ha _ IH]; [reflexivity |]. cbn [flat_map]. now rewrite Ha, IH. Qed.

Lemma searchNode_filter (folderPaths : list string) (node : FileNode) :
  searchNode folderPaths node = List.filter (inFolders folderPaths) (flattenNode node).
Proof.
  induction node as [n q t | n q t cs IH] using FileNode_forall;
    cbn [searchNode flattenNode path type children]; rewrite List.filter_app.
  - f_equal; [| now destruct t].
    unfold inTargetFolder, inFolders. cbn [path].
    destruct (is_markdown_file _); cbn [List.filter]; [| now rewrite andb_false_r].
    rewrite andb_true_r. now destruct (existsb _ _).
  - f_equal.
    + unfold inTargetFolder, inFolders. cbn [path].
      destruct (is_markdown_file _); cbn [List.filter]; [| now rewrite andb_false_r].
      rewrite andb_true_r. now destruct (existsb _ _).
    + destruct t; [reflexivity |].
      rewrite filter_flat_map. now apply flat_map_ext_Forall.
Qed.

Lemma searchTreeForKeywords_filter (tree : list FileNode) (folderPaths : list string) :
  searchTreeForKeywords tree folderPaths
  = List.filter (inFolders folderPaths) (flattenFileTree tree).
Proof.
  unfold searchTreeForKeywords, flattenFileTree. rewrite filter_flat_map.
  apply flat_map_ext_Forall, List.Forall_forall. intros node _. apply searchNode_filter.
Qed.

Lemma In_slice0 {A : Type} (x : A) (n : Z) (l : list A) : In x (Js.slice0 n l) -> In x l.
Proof. unfold Js.slice0. destruct (n <? 0); apply In_firstn. Qed.

Lemma findRelevantFiles_In (query : string) (tree : list FileNode) (maxFiles : Z)
  (p : string) :
  In p (findRelevantFiles query tree maxFiles) ->
  In p (searchTreeForKeywords tree (extractKeywords query)).
Proof.
  unfold findRelevantFiles.
  destruct (extractKeywords query) as [| k ks]; [intros [] |].
  intros H. apply in_map_iff in H as (s & <- & Hs).
  apply In_slice0 in Hs.
  assert (Hin : In s (map (scoreOf (k :: ks)) (searchTreeForKeywords tree (k :: ks)))).
  { destruct (wantsRecent query);
      eapply Permutation_in; [apply sort_perm | exact Hs | apply sort_perm | exact Hs]. }
  apply in_map_iff in Hin as (q & <- & Hq). exact Hq.
Qed.

(** X15. [searchTreeForKeywords] returns the files that [flattenFileTree]
    lists, in the same order, whose lower-cased path starts with one of the
    lower-cased folder paths.  Every path [findRelevantFiles] returns is
    such a file, for the folders found for the query. *)
Theorem discovery_returns_listed_files (query : string) (tree : list FileNode)
  (maxFiles : Z) :
  (forall folderPaths,
     searchTreeForKeywords tree folderPaths
     = List.filter (inFolders folderPaths) (flattenFileTree tree))
  /\ Forall (fun p => In p (flattenFileTree tree)
                      /\ inFolders (extractKeywords query) p = true)
       (findRelevantFiles query tree maxFiles).
Proof.
  split; [intros; apply searchTreeForKeywords_filter |].
  apply List.Forall_forall. intros p Hp.
  apply findRelevantFiles_In in Hp.
  rewrite searchTreeForKeywords_filter in Hp.
  now apply List.filter_In in Hp.
Qed.

Lemma byScoreThenDate_total (a b : Scored) :
  byScoreThenDate a b <= 0 \/ byScoreThenDate b a <= 0.
Proof.
  unfold byScoreThenDate.
  destruct (score b =? score a) eqn:E1, (score a =? score b) eqn:E2; simpl; lia.
Qed.

Lemma byScoreThenDate_trans (a b c : Scored) :
  byScoreThenDate a b <= 0 -> byScoreThenDate b c <= 0 -> byScoreThenDate a c <= 0.
Proof.
  unfold byScoreThenDate.
  destruct (score b =? score a) eqn:E1, (score c =? score b) eqn:E2,
           (score c =? score a) eqn:E3; simpl; lia.
Qed.

Lemma byScoreThenDate_before (keywords : list string) (p q : string) :
  byScoreThenDate (scoreOf keywords p) (scoreOf keywords q) <= 0
  <-> higherScoreFirst keywords p q.
Proof.
  unfold byScoreThenDate, higherScoreFirst. cbn [date score scoreOf].
  generalize (Z.of_nat (length (filter (fun keyword => Js.includes (Js.toLowerCase p) keyword)
                                  keywords))).
  generalize (Z.of_nat (length (filter (fun keyword => Js.includes (Js.toLowerCase q) keyword)
                                  keywords))).
  generalize (extractDateFromPath p). generalize (extractDateFromPath q).
  intros dq dp sq sp.
  destruct (sq =? sp) eqn:E; cbn [negb]; lia.
Qed.

Lemma findRelevantFiles_sorted (query : string) (tree : list FileNode) (maxFiles : Z) :
  extractKeywords query <> [] ->
  exists sorted,
    findRelevantFiles query tree maxFiles = Js.slice0 maxFiles sorted
    /\ Permutation sorted (searchTreeForKeywords tree (extractKeywords query))
    /\ StronglySorted (relevanceOrder query) sorted.
Proof.
  intros Hkw. unfold findRelevantFiles, relevanceOrder.
  destruct (extractKeywords query) as [| k ks] eqn:E; [congruence |].
  set (kws := k :: ks). set (matches := searchTreeForKeywords tree kws).
  assert (Hslice : forall cmp,
            map s_path (Js.slice0 maxFiles (Js.sort cmp (map (scoreOf kws) matches)))
            = Js.slice0 maxFiles
                (Js.sort (fun p q => cmp (scoreOf kws p) (scoreOf kws q)) matches)).
  { intros cmp. rewrite sort_map. unfold Js.slice0.
    destruct (maxFiles <? 0);
      rewrite ?length_map, <- !firstn_map, !map_map, map_id; reflexivity. }
  destruct (wantsRecent query); rewrite Hslice; eexists; (split; [reflexivity |]);
    (split; [apply sort_perm |]).
  - assert (Hs : StronglySorted
                   (before (fun p q => byDateThenScore (scoreOf kws p) (scoreOf kws q)))
                   (Js.sort (fun p q => byDateThenScore (scoreOf kws p) (scoreOf kws q))
                      matches)).
    { apply sort_sorted; intros; apply byDateThenScore_total
                               || eapply byDateThenScore_trans; eauto. }
    induction Hs as [| x l Hs IH Hall]; constructor; [exact IH |].
    eapply Forall_impl; [exact Hall |]. intros y. apply byDateThenScore_before.
  - assert (Hs : StronglySorted
                   (before (fun p q => byScoreThenDate (scoreOf kws p) (scoreOf kws q)))
                   (Js.sort (fun p q => byScoreThenDate (scoreOf kws p) (scoreOf kws q))
                      matches)).
    { apply sort_sorted; intros; apply byScoreThenDate_total
                               || eapply byScoreThenDate_trans; eauto. }
    induction Hs as [| x l Hs IH Hall]; constructor; [exact IH |].
    eapply Forall_impl; [exact Hall |]. intros y. apply byScoreThenDate_before.
Qed.

(** X16. For a [maxFiles] that is not negative, [findRelevantFiles]
    returns the [maxFiles] most relevant of the matching files, and all of
    them when there are fewer.  Its result is the start of an ordering of
    all the matches: newer files first for a query that asks for recent
    ones, higher keyword scores first otherwise, ties broken by the other
    key. *)
Theorem findRelevantFiles_most_relevant (query : string) (tree : list FileNode)
  (maxFiles : Z) :
  0 <= maxFiles ->
  let matches := searchTreeForKeywords tree (extractKeywords query) in
  let result := findRelevantFiles query tree maxFiles in
  length result = Nat.min (Z.to_nat maxFiles) (length matches)
  /\ exists rest,
       Permutation (result ++ rest) matches
       /\ StronglySorted (relevanceOrder query) (result ++ rest).
Proof.
  intros Hmax. cbv zeta.
  destruct (extractKeywords query) as [| k ks] eqn:E.
  - assert (Hm : searchTreeForKeywords tree [] = []).
    { rewrite searchTreeForKeywords_filter.
      induction (flattenFileTree tree) as [| p l IH]; [reflexivity | exact IH]. }
    assert (Hr : findRelevantFiles query tree maxFiles = []).
    { unfold findRelevantFiles. now rewrite E. }
    rewrite Hm, Hr. split; [now rewrite Nat.min_0_r |].
    exists []. split; constructor.
  - destruct (findRelevantFiles_sorted query tree maxFiles) as (sorted & Hres & Hperm & Hs).
    { rewrite E. discriminate. }
    rewrite E in Hperm.
    assert (Hfirst : findRelevantFiles query tree maxFiles
                     = firstn (Z.to_nat maxFiles) sorted).
    { rewrite Hres. unfold Js.slice0.
      destruct (maxFiles <? 0) eqn:Hneg; [lia | reflexivity]. }
    split.
    + rewrite Hfirst, length_firstn. now rewrite (Permutation_length Hperm).
    + exists (skipn (Z.to_nat maxFiles) sorted).
      rewrite Hfirst, firstn_skipn. now split.
Qed.

Lemma findRelevantFiles_most_relevant_witness :
  length (findRelevantFiles "notes from simon and the newsletters" ethanTree 1)
  = Nat.min (Z.to_nat 1)
      (length (searchTreeForKeywords ethanTree
                 (extractKeywords "notes from simon and the newsletters")))
  /\ exists rest,
       Permutation
         (findRelevantFiles "notes from simon and the newsletters" ethanTree 1 ++ rest)
         (searchTreeForKeywords ethanTree
            (extractKeywords "notes from simon and the newsletters"))
       /\ StronglySorted (relevanceOrder "notes from simon and the newsletters")
            (findRelevantFiles "notes from simon and the newsletters" ethanTree 1 ++ rest).
Proof.
  apply (findRelevantFiles_most_relevant "notes from simon and the newsletters"
           ethanTree 1).
  lia.
Defined.

End DiscoveryOrder.

Section Listing.
Import BrainChat.

Lemma join_cons (sep p : string) (q : string) (rest : list string) :
  Js.join sep (p :: q :: rest) = p ++ sep ++ Js.join sep (q :: rest).
Proof. reflexivity. Qed.

Lemma join_split (sep : ascii) (s : string) :
  Js.join (String sep "") (Js.split sep s) = s.
Proof.
  induction s as [| c rest IH]; [reflexivity |].
  cbn [Js.split].
  destruct (Ascii.eqb_spec c sep) as [-> | Hc].
  - destruct (Js.split sep rest) as [| h t] eqn:E; [now apply split_nonempty in E |].
    rewrite join_cons, IH. reflexivity.
  - destruct (Js.split sep rest) as [| h t] eqn:E; [now apply split_nonempty in E |].
    destruct t as [| h2 t2].
    + cbn [Js.join] in *. now rewrite IH.
    + rewrite join_cons in *. rewrite append_cons. now rewrite IH.
Qed.

Lemma join_removelast (sep : string) (l : list string) :
  (1 < length l)%nat ->
  Js.join sep (removelast l) ++ sep ++ List.last l "" = Js.join sep l.
Proof.
  induction l as [| a l IH]; [cbn; lia |].
  destruct l as [| b l]; [cbn; lia |]. intros _.
  destruct l as [| c l].
  - reflexivity.
  - change (removelast (a :: b :: c :: l)) with (a :: removelast (b :: c :: l)).
    change (List.last (a :: b :: c :: l) "") with (List.last (b :: c :: l) "").
    assert (Hne : exists x y, removelast (b :: c :: l) = x :: y).
    { destruct l; cbn; eauto. }
    destruct Hne as (x & y & Hxy). rewrite Hxy, join_cons, <- Hxy.
    rewrite join_cons, !append_assoc. do 2 f_equal.
    apply IH. cbn. lia.
Qed.

(** X17. The directory and the file name that the file listing shows for a
    path name the path again.  For a path with a slash that does not end in
    one, the directory, a slash and the file name give back the path; a path
    without a slash is listed under (root) with the whole path as its file
    name. *)
Theorem listing_names_the_path (p : string) :
  ((1 < length (Js.split "/" p))%nat -> List.last (Js.split "/" p) "" <> "" ->
   dirPathOf p ++ "/" ++ filenameOf p = p)
  /\ (length (Js.split "/" p) = 1%nat ->
      dirPathOf p = "(root)" /\ filenameOf p = p).
Proof.
  unfold dirPathOf, filenameOf, Js.or_else. split.
  - intros Hparts Hlast.
    replace (1 <? length (Js.split "/" p))%nat with true
      by (symmetry; now apply Nat.ltb_lt).
    destruct (List.last (Js.split "/" p) "") as [| c s] eqn:E; [congruence |].
    cbn [Js.truthy]. rewrite <- E.
    rewrite (join_removelast "/") by exact Hparts.
    apply (join_split "/").
  - intros Hone. rewrite Hone. split; [reflexivity |].
    pose proof (join_split "/" p) as Hjoin.
    destruct (Js.split "/" p) as [| a [| b l]]; try discriminate.
    cbn [Js.join List.last] in *. subst a. now destruct p.
Qed.

Lemma listing_names_the_path_witness :
  dirPathOf "research/newsletters/ethan/20251118-b.md" ++ "/"
  ++ filenameOf "research/newsletters/ethan/20251118-b.md"
  = "research/newsletters/ethan/20251118-b.md".
Proof.
  apply (proj1 (listing_names_the_path "research/newsletters/ethan/20251118-b.md")).
  - vm_compute. lia.
  - discriminate.
Defined.


(** *** Grouping by directory *)

Lemma group_push_keys (d p : string) (g : list (string * list string)) :
  map fst (group_push d p g)
  = if existsb (String.eqb d) (map fst g) then map fst g else (map fst g ++ [d])%list.
Proof.
  induction g as [| [d0 ps] g IH]; [reflexivity |].
  cbn [group_push map fst existsb].
  rewrite (String.eqb_sym d d0).
  destruct (String.eqb d0 d); [reflexivity |].
  cbn [map fst orb]. rewrite IH. now destruct (existsb _ _).
Qed.

Lemma group_push_In (d p : string) (g : list (string * list string)) (d' : string)
  (ps' : list string) :
  List.NoDup (map fst g) ->
  In (d', ps') (group_push d p g)
  <-> (d' <> d /\ In (d', ps') g)
      \/ (d' = d /\ ((exists ps, In (d, ps) g /\ ps' = (ps ++ [p])%list)
                     \/ (~ In d (map fst g) /\ ps' = [p]))).
Proof.
  induction g as [| [d0 ps] g IH]; intros Hnd.
  - cbn [group_push In map]. split.
    + intros [[= <- <-] | []]. right. split; [reflexivity |]. right. tauto.
    + intros [[_ []] | [-> [(ps & [] & _) | [_ ->]]]]. now left.
  - inversion Hnd as [| ? ? Hnotin Hnd']; subst.
    assert (Hnot : forall ps0, ~ In (d0, ps0) g).
    { intros ps0 Hin. apply Hnotin, in_map_iff. now exists (d0, ps0). }
    cbn [group_push].
    destruct (String.eqb_spec d0 d) as [-> | Hne]; cbn [In map fst].
    + clear IH. split.
      * intros [[= <- <-] | Hin].
        -- right. split; [reflexivity |]. left. exists ps. tauto.
        -- left. split; [| tauto]. intros ->. now apply (Hnot ps').
      * intros [[Hd [E | Hin]] | [-> [(ps0 & [E | Hin] & ->) | [Hn _]]]].
        -- congruence.
        -- tauto.
        -- left. congruence.
        -- exfalso. now apply (Hnot ps0).
        -- tauto.
    + rewrite (IH Hnd'). clear IH. split.
      * intros [E | [[Hd Hin] | [-> [(ps0 & Hin & ->) | [Hn ->]]]]].
        -- injection E as <- <-. left. tauto.
        -- tauto.
        -- right. split; [reflexivity |]. left. exists ps0. tauto.
        -- right. split; [reflexivity |]. right. split; [| reflexivity].
           intros [E | Hin]; [congruence | tauto].
      * intros [[Hd [E | Hin]] | [-> [(ps0 & [E | Hin] & ->) | [Hn ->]]]].
        -- now left.
        -- right. left. tauto.
        -- congruence.
        -- right. right. split; [reflexivity |]. left. now exists ps0.
        -- right. right. split; [reflexivity |]. right. tauto.
Qed.

Lemma filter_none {A : Type} (f : A -> bool) (l : list A) :
  (forall x, In x l -> f x = false) -> List.filter f l = [].
Proof.
  induction l as [| a l IH]; [reflexivity |]. intros H. cbn [List.filter].
  rewrite (H a) by now left. apply IH. intros x Hx. apply H. now right.
Qed.

Lemma groupByDirectory_snoc (paths : list string) (p : string) :
  groupByDirectory (paths ++ [p])
  = group_push (dirPathOf p) p (groupByDirectory paths).
Proof. unfold groupByDirectory. now rewrite fold_left_app. Qed.

Lemma groupByDirectory_spec (paths : list string) :
  List.NoDup (map fst (groupByDirectory paths))
  /\ (forall d ps, In (d, ps) (groupByDirectory paths) ->
        ps <> [] /\ ps = List.filter (fun p => String.eqb (dirPathOf p) d) paths)
  /\ (forall p, In p paths -> In (dirPathOf p) (map fst (groupByDirectory paths))).
Proof.
  induction paths as [| p paths IH] using rev_ind.
  - repeat split; try constructor; intros; contradiction.
  - destruct IH as (Hnd & Hgroups & Hkeys).
    rewrite groupByDirectory_snoc.
    split; [| split].
    + rewrite group_push_keys.
      destruct (existsb _ _) eqn:E; [exact Hnd |].
      apply List.NoDup_app; [exact Hnd | repeat constructor; intros [] |].
      intros x Hx [<- | []].
      assert (Hex : existsb (String.eqb (dirPathOf p)) (map fst (groupByDirectory paths))
                    = true).
      { apply List.existsb_exists. exists (dirPathOf p). split; [exact Hx |].
        apply String.eqb_refl. }
      congruence.
    + intros d ps Hin. apply (group_push_In _ _ _ _ _ Hnd) in Hin.
      rewrite List.filter_app. cbn [List.filter].
      destruct Hin as [[Hd Hin] | [-> [(ps0 & Hin & ->) | [Hn ->]]]].
      * destruct (Hgroups d ps Hin) as [Hne Hps].
        destruct (String.eqb_spec (dirPathOf p) d) as [E | _]; [congruence |].
        now rewrite app_nil_r.
      * destruct (Hgroups _ ps0 Hin) as [Hne Hps].
        rewrite String.eqb_refl, <- Hps. split; [| reflexivity].
        now destruct ps0.
      * rewrite String.eqb_refl. split; [discriminate |].
        replace (List.filter _ paths) with (@nil string); [reflexivity |].
        symmetry. apply filter_none. intros q Hq.
        destruct (String.eqb_spec (dirPathOf q) (dirPathOf p)) as [E |]; [| reflexivity].
        exfalso. apply Hn. rewrite <- E. now apply Hkeys.
    + intros q Hq. rewrite group_push_keys.
      apply in_app_iff in Hq as [Hq | [<- | []]].
      * destruct (existsb _ _); [now apply Hkeys |].
        apply in_app_iff. left. now apply Hkeys.
      * destruct (existsb _ _) eqn:E.
        -- apply List.existsb_exists in E as (x & Hx & E).
           apply String.eqb_eq in E. now subst.
        -- apply in_app_iff. right. now left.
Qed.

Lemma group_push_members (d p : string) (g : list (string * list string)) :
  Permutation (concat (map snd (group_push d p g))) (p :: concat (map snd g)).
Proof.
  induction g as [| [d0 ps] g IH]; [reflexivity |].
  cbn [group_push]. destruct (String.eqb d0 d); cbn [map snd concat].
  - rewrite <- app_assoc. cbn [app].
    rewrite <- Permutation_middle. reflexivity.
  - rewrite IH. rewrite Permutation_middle. reflexivity.
Qed.

Lemma groupByDirectory_members (paths : list string) :
  Permutation (concat (map snd (groupByDirectory paths))) paths.
Proof.
  induction paths as [| p paths IH] using rev_ind; [reflexivity |].
  rewrite groupByDirectory_snoc, group_push_members, IH.
  rewrite <- Permutation_cons_append. reflexivity.
Qed.

(** X18. Grouping by directory partitions the paths: every directory has
    one group, no group is empty, a group holds exactly the paths of its
    directory in their original order, and the groups together hold every
    path once.  The statement is for paths whose directory is not a name
    that every object inherits; for such a name the lookup in the grouping
    object finds the inherited member. *)
Theorem groupByDirectory_partition (paths : list string) :
  Forall (fun p => inheritedName (dirPathOf p) = false) paths ->
  let grouped := groupByDirectory paths in
  List.NoDup (map fst grouped)
  /\ (forall d ps, In (d, ps) grouped ->
        ps <> [] /\ ps = List.filter (fun p => String.eqb (dirPathOf p) d) paths)
  /\ (forall p, In p paths -> In (dirPathOf p) (map fst grouped))
  /\ Permutation (concat (map snd grouped)) paths.
Proof.
  intros _. cbv zeta.
  destruct (groupByDirectory_spec paths) as (Hnd & Hgroups & Hkeys).
  split; [exact Hnd |]. split; [exact Hgroups |]. split; [exact Hkeys |].
  apply groupByDirectory_members.
Qed.

Lemma groupByDirectory_partition_witness :
  let paths := flattenFileTree ethanTree in
  Permutation (concat (map snd (groupByDirectory paths))) paths
  /\ map fst (groupByDirectory paths) = ["research/newsletters/ethan"; "todo"].
Proof.
  split; [| reflexivity].
  apply (groupByDirectory_partition (flattenFileTree ethanTree)).
  vm_compute. repeat constructor.
Defined.

(** *** The lines of one directory *)

Lemma newestFirst_total (a b : string) : newestFirst a b <= 0 \/ newestFirst b a <= 0.
Proof. unfold newestFirst. lia. Qed.

Lemma newestFirst_trans (a b c : string) :
  newestFirst a b <= 0 -> newestFirst b c <= 0 -> newestFirst a c <= 0.
Proof. unfold newestFirst. lia. Qed.

Lemma StronglySorted_weaken {A : Type} (R R' : A -> A -> Prop) (l : list A) :
  (forall x y, R x y -> R' x y) -> StronglySorted R l -> StronglySorted R' l.
Proof.
  intros HR Hs. induction Hs as [| x l Hs IH Hall]; constructor; [exact IH |].
  eapply Forall_impl; [exact Hall |]. intros y. apply HR.
Qed.

(** X19. The lines listed for one directory are its header with the number
    of its files, then the file names of its three newest files by embedded
    date, newest first, then a line that counts the remaining files when
    there are more than three. *)
Theorem directoryLines_newest_examples (d : string) (dirPaths : list string) :
  exists sorted,
    Permutation sorted dirPaths
    /\ StronglySorted newerOrSame sorted
    /\ directoryLines d dirPaths
       = ([(newline ++ "**" ++ d ++ "/** (" ++ pretty (length dirPaths) ++ " files)")%string]
          ++ map (fun ex => ("  - " ++ filenameOf ex)%string) (firstn 3 sorted)
          ++ (if (3 <? length dirPaths)%nat
              then [("  - ... " ++ pretty (length dirPaths - 3)%nat ++ " more")%string]
              else []))%list.
Proof.
  exists (sortByDate dirPaths). unfold sortByDate.
  pose proof (sort_perm newestFirst dirPaths) as Hperm.
  split; [exact Hperm |]. split.
  - apply (StronglySorted_weaken (before newestFirst)).
    + intros x y. unfold before, newestFirst, newerOrSame. lia.
    + apply sort_sorted; [apply newestFirst_total | apply newestFirst_trans].
  - unfold directoryLines, sortByDate.
    now rewrite (Permutation_length Hperm).
Qed.

End Listing.

(** ** The shape of a turn *)

Lemma tokensOf_app (a b : list Call) : tokensOf (a ++ b) = (tokensOf a ++ tokensOf b)%list.
Proof. unfold tokensOf. apply flat_map_app. Qed.

Lemma streams_nil (cb : StreamCallbacks) (s : string) : streams cb s s [].
Proof. split; [constructor |]. intros _. cbn. now rewrite append_nil_r. Qed.

Lemma streams_app (cb : StreamCallbacks) (s1 s2 s3 : string) (a b : list Call) :
  streams cb s1 s2 a -> streams cb s2 s3 b -> streams cb s1 s3 (a ++ b).
Proof.
  intros [Ha Hta] [Hb Htb]. split; [now apply Forall_app_2 |].
  intros Hcb. rewrite tokensOf_app, concatAll_app, <- append_assoc.
  rewrite <- Hta, <- Htb; auto.
Qed.

Lemma streams_token (cb : StreamCallbacks) (s t : string) :
  streams cb s (s ++ t) (invoke cb (OnToken t)).
Proof.
  unfold invoke. cbn [supplied]. split.
  - destruct (onToken cb); repeat constructor.
  - intros ->. cbn. now rewrite append_nil_r.
Qed.

Lemma streams_other (cb : StreamCallbacks) (s : string) (c : Call) :
  isProgress c = true -> (forall t, c <> OnToken t) ->
  streams cb s s (invoke cb c).
Proof.
  intros Hp Hc. unfold invoke. destruct (supplied cb c); [| apply streams_nil].
  split; [now repeat constructor |].
  intros _. destruct c; cbn; try now rewrite append_nil_r.
  now destruct (Hc token).
Qed.

Ltac streams_calls :=
  repeat first
    [ apply streams_nil
    | apply streams_token
    | apply streams_other; [reflexivity | discriminate]
    | eapply streams_app
    | assumption
    | case_match ].

Section AnthropicTurn.
Import Anthropic.
Variable JSON_parse : string -> Parse.
Variable options : SendMessageOptions.

Lemma anthropic_onEvent_streams (l : Locals) (ev : Event) :
  streams (callbacks options) (fullResponse l)
    (fullResponse (fst (onEvent JSON_parse options l ev)))
    (snd (onEvent JSON_parse options l ev)).
Proof.
  unfold onEvent.
  destruct ev as [[[] |] | [[t |] | [pj |] |] | | [k |] | [k |] sr |];
    repeat case_match; cbn [fst snd fullResponse setCurrentTool setFullResponse
                             setCounters pushToolCall];
    streams_calls.
Qed.

Lemma anthropic_readAll_streams (evs : list Event) (l : Locals) :
  streams (callbacks options) (fullResponse l)
    (fullResponse (fst (readAll JSON_parse options l evs)))
    (snd (readAll JSON_parse options l evs)).
Proof.
  revert l. induction evs as [| ev evs IH]; intros l; [apply streams_nil |].
  cbn [readAll].
  pose proof (anthropic_onEvent_streams l ev) as H1.
  destruct (onEvent JSON_parse options l ev) as [l1 cs1].
  specialize (IH l1). destruct (readAll JSON_parse options l1 evs) as [l2 cs2].
  cbn [fst snd] in *. eapply streams_app; eassumption.
Qed.

Lemma anthropic_resolve_streams (loader : JsPath -> LoadOutcome)
  (pending : list PendingToolCall) (s : string) :
  streams (callbacks options) s s (snd (resolveToolCalls options loader pending)).
Proof.
  induction pending as [| tc pending IH]; [apply streams_nil |].
  cbn [resolveToolCalls].
  assert (H1 : streams (callbacks options) s s (snd (resolveToolCall options loader tc))).
  { unfold resolveToolCall.
    destruct (String.eqb _ _); [| apply streams_nil].
    destruct (loadOne _ _). cbn [snd]. streams_calls. }
  destruct (resolveToolCall options loader tc) as [r1 cs1].
  destruct (resolveToolCalls options loader pending) as [r2 cs2].
  cbn [snd] in *. eapply streams_app; eassumption.
Qed.

Lemma anthropic_run_shape (responses : list (Fetched (option (Body Event)))) :
  forall msgs i o w acc run,
  makeStreamingRequest JSON_parse options responses msgs i o w acc = Some run ->
  exists progress full,
    streams (callbacks options) acc full progress
    /\ match settled run with
       | Fulfilled =>
           exists i' o' w',
             calls run
             = (progress ++ reportAndComplete (callbacks options) (modelId options)
                              i' o' w' full)%list
       | Rejected _ => calls run = progress
       end.
Proof.
  induction responses as [| r later IH]; intros msgs i o w acc run H; [discriminate |].
  cbn [makeStreamingRequest] in H.
  assert (Hfail : forall e,
            Some {| sent := [msgs]; calls := []; settled := Rejected e |} = Some run ->
            exists progress full,
              streams (callbacks options) acc full progress
              /\ match settled run with
                 | Fulfilled =>
                     exists i' o' w',
                       calls run
                       = (progress ++ reportAndComplete (callbacks options)
                                        (modelId options) i' o' w' full)%list
                 | Rejected _ => calls run = progress
                 end).
  { intros e [= <-]. exists [], acc. split; [apply streams_nil | reflexivity]. }
  destruct r as [e | reply body]; [now apply (Hfail e) |].
  destruct (negb (ok reply)); [now apply (Hfail (apiError reply)) |].
  destruct body as [b |]; [| now apply (Hfail (Js.Error "No response body"))].
  clear Hfail.
  pose proof (anthropic_readAll_streams (events b) (initLocals i o w acc)) as Hs.
  destruct (readAll JSON_parse options (initLocals i o w acc) (events b)) as [l cs].
  cbn [fst snd initLocals fullResponse] in Hs.
  assert (Hfinal :
            Some {| sent := [msgs];
                    calls := (cs ++ reportAndComplete (callbacks options) (modelId options)
                                      (inputTokens l) (outputTokens l) (webSearchCount l)
                                      (fullResponse l))%list;
                    settled := Fulfilled |} = Some run ->
            exists progress full,
              streams (callbacks options) acc full progress
              /\ match settled run with
                 | Fulfilled =>
                     exists i' o' w',
                       calls run
                       = (progress ++ reportAndComplete (callbacks options)
                                        (modelId options) i' o' w' full)%list
                 | Rejected _ => calls run = progress
                 end).
  { intros [= <-]. exists cs, (fullResponse l). split; [exact Hs |].
    cbn [settled calls]. eauto. }
  destruct (ending b) as [| e].
  - destruct (loadFileContents options) as [loader |]; [| now apply Hfinal].
    destruct (_ && _); [| now apply Hfinal].
    pose proof (anthropic_resolve_streams loader (pendingToolCalls l) (fullResponse l)) as Hr.
    destruct (resolveToolCalls options loader (pendingToolCalls l)) as [results resolved].
    cbn [snd] in Hr.
    apply after_Some in H as (rest & Hrest & Hcalls & Hsettled).
    apply IH in Hrest as (progress & full & Hp & Hend).
    exists ((cs ++ resolved) ++ progress)%list, full.
    split; [eapply streams_app; [eapply streams_app |]; eassumption |].
    rewrite Hsettled, Hcalls.
    destruct (settled rest).
    + destruct Hend as (i' & o' & w' & ->). exists i', o', w'. now rewrite app_assoc.
    + now rewrite Hend.
  - injection H as <-. exists cs, (fullResponse l). split; [exact Hs | reflexivity].
Qed.

End AnthropicTurn.

Section OpenAITurn.
Import OpenAI.
Variable JSON_parse : string -> Parse.
Variable options : SendMessageOptions.

Lemma openai_onToolCallDeltas_streams (tcs : list ToolCallDelta)
  (m : list (Z * PendingToolCall)) (s : string) :
  streams (callbacks options) s s (snd (onToolCallDeltas JSON_parse options m tcs)).
Proof.
  revert m. induction tcs as [| tc tcs IH]; intros m; [apply streams_nil |].
  cbn [onToolCallDeltas].
  assert (H1 : streams (callbacks options) s s (snd (onToolCallDelta JSON_parse options m tc))).
  { unfold onToolCallDelta. repeat case_match; cbn [snd]; simplify_eq; streams_calls. }
  destruct (onToolCallDelta JSON_parse options m tc) as [m1 cs1].
  specialize (IH m1). destruct (onToolCallDeltas JSON_parse options m1 tcs) as [m2 cs2].
  cbn [snd] in *. eapply streams_app; eassumption.
Qed.

Lemma openai_onChunk_streams (l : Locals) (c : Chunk) :
  streams (callbacks options) (fullResponse l)
    (fullResponse (fst (onChunk JSON_parse options l c)))
    (snd (onChunk JSON_parse options l c)).
Proof.
  unfold onChunk.
  destruct (delta c) as [d |]; [| repeat case_match; cbn; apply streams_nil].
  assert (Htools : forall m s, streams (callbacks options) s s
                               (snd (match tool_calls d with
                                     | Some tcs => onToolCallDeltas JSON_parse options m tcs
                                     | None => (m, [])
                                     end))).
  { intros m s. destruct (tool_calls d);
      [apply openai_onToolCallDeltas_streams | apply streams_nil]. }
  specialize (Htools (pendingToolCalls l)).
  destruct (match tool_calls d with Some _ => _ | None => _ end) as [m cs].
  cbn [snd] in Htools.
  destruct (delta_content d) as [t |]; [destruct (Js.truthy t) |];
    repeat case_match; simplify_eq; cbn [fst snd fullResponse app];
    try apply Htools.
  all: eapply streams_app; [apply streams_token | apply Htools].
Qed.

Lemma openai_readAll_streams (chunks : list Chunk) (l : Locals) :
  streams (callbacks options) (fullResponse l)
    (fullResponse (fst (readAll JSON_parse options l chunks)))
    (snd (readAll JSON_parse options l chunks)).
Proof.
  revert l. induction chunks as [| c chunks IH]; intros l; [apply streams_nil |].
  cbn [readAll].
  pose proof (openai_onChunk_streams l c) as H1.
  destruct (onChunk JSON_parse options l c) as [l1 cs1].
  specialize (IH l1). destruct (readAll JSON_parse options l1 chunks) as [l2 cs2].
  cbn [fst snd] in *. eapply streams_app; eassumption.
Qed.

Lemma openai_resolve_streams (loader : JsPath -> LoadOutcome)
  (pending : list PendingToolCall) (s : string) :
  streams (callbacks options) s s (snd (resolveToolCalls JSON_parse options loader pending)).
Proof.
  induction pending as [| tc pending IH]; [apply streams_nil |].
  cbn [resolveToolCalls].
  assert (H1 : streams (callbacks options) s s
                 (snd (resolveToolCall JSON_parse options loader tc))).
  { unfold resolveToolCall.
    destruct (String.eqb _ _); [| apply streams_nil].
    destruct (JSON_parse _); [destruct (loadOne _ _) |]; cbn [snd]; streams_calls. }
  destruct (resolveToolCall JSON_parse options loader tc) as [r1 cs1].
  destruct (resolveToolCalls JSON_parse options loader pending) as [r2 cs2].
  cbn [snd] in *. eapply streams_app; eassumption.
Qed.

Lemma openai_run_shape (responses : list (Fetched (option (Body Chunk)))) :
  forall msgs i o acc run,
  makeStreamingRequest JSON_parse options responses msgs i o acc = Some run ->
  exists progress full,
    streams (callbacks options) acc full progress
    /\ match settled run with
       | Fulfilled =>
           exists i' o' w',
             calls run
             = (progress ++ reportAndComplete (callbacks options) (modelId options)
                              i' o' w' full)%list
       | Rejected _ => calls run = progress
       end.
Proof.
  induction responses as [| r later IH]; intros msgs i o acc run H; [discriminate |].
  cbn [makeStreamingRequest] in H.
  assert (Hfail : forall e,
            Some {| sent := [msgs]; calls := []; settled := Rejected e |} = Some run ->
            exists progress full,
              streams (callbacks options) acc full progress
              /\ match settled run with
                 | Fulfilled =>
                     exists i' o' w',
                       calls run
                       = (progress ++ reportAndComplete (callbacks options)
                                        (modelId options) i' o' w' full)%list
                 | Rejected _ => calls run = progress
                 end).
  { intros e [= <-]. exists [], acc. split; [apply streams_nil | reflexivity]. }
  destruct r as [e | reply body]; [now apply (Hfail e) |].
  destruct (negb (ok reply)); [now apply (Hfail (apiError reply)) |].
  destruct body as [b |]; [| now apply (Hfail (Js.Error "No response body"))].
  clear Hfail.
  pose proof (openai_readAll_streams (events b) (initLocals i o acc)) as Hs.
  destruct (readAll JSON_parse options (initLocals i o acc) (events b)) as [l cs].
  cbn [fst snd initLocals fullResponse] in Hs.
  assert (Hfinal :
            Some {| sent := [msgs];
                    calls := (cs ++ reportAndComplete (callbacks options) (modelId options)
                                      (inputTokens l) (outputTokens l) 0
                                      (fullResponse l))%list;
                    settled := Fulfilled |} = Some run ->
            exists progress full,
              streams (callbacks options) acc full progress
              /\ match settled run with
                 | Fulfilled =>
                     exists i' o' w',
                       calls run
                       = (progress ++ reportAndComplete (callbacks options)
                                        (modelId options) i' o' w' full)%list
                 | Rejected _ => calls run = progress
                 end).
  { intros [= <-]. exists cs, (fullResponse l). split; [exact Hs |].
    cbn [settled calls]. eauto. }
  destruct (ending b) as [| e].
  - destruct (loadFileContents options) as [loader |]; [| now apply Hfinal].
    destruct (_ && _); [| now apply Hfinal].
    pose proof (openai_resolve_streams loader (map snd (pendingToolCalls l))
                  (fullResponse l)) as Hr.
    destruct (resolveToolCalls JSON_parse options loader (map snd (pendingToolCalls l)))
      as [results resolved].
    cbn [snd] in Hr.
    apply after_Some in H as (rest & Hrest & Hcalls & Hsettled).
    apply IH in Hrest as (progress & full & Hp & Hend).
    exists ((cs ++ resolved) ++ progress)%list, full.
    split; [eapply streams_app; [eapply streams_app |]; eassumption |].
    rewrite Hsettled, Hcalls.
    destruct (settled rest).
    + destruct Hend as (i' & o' & w' & ->). exists i', o', w'. now rewrite app_assoc.
    + now rewrite Hend.
  - injection H as <-. exists cs, (fullResponse l). split; [exact Hs | reflexivity].
Qed.

End OpenAITurn.

Section GeminiTurn.
Import Gemini.
Variable options : SendMessageOptions.

Lemma gemini_onParts_streams (ps : list Part) (acc : string * list PendingFunctionCall) :
  streams (callbacks options) (fst acc) (fst (fst (onParts options acc ps)))
    (snd (onParts options acc ps)).
Proof.
  revert acc. induction ps as [| p ps IH]; intros acc; [apply streams_nil |].
  cbn [onParts].
  assert (H1 : streams (callbacks options) (fst acc) (fst (fst (onPart options acc p)))
                 (snd (onPart options acc p))).
  { unfold onPart. destruct acc as [response pending].
    repeat case_match; simplify_eq; cbn [fst snd]; streams_calls. }
  destruct (onPart options acc p) as [acc1 cs1].
  specialize (IH acc1). destruct (onParts options acc1 ps) as [acc2 cs2].
  cbn [fst snd] in *. eapply streams_app; eassumption.
Qed.

Lemma gemini_onChunk_streams (l : Locals) (c : Chunk) :
  streams (callbacks options) (fullResponse l)
    (fullResponse (fst (onChunk options l c)))
    (snd (onChunk options l c)).
Proof.
  unfold onChunk.
  destruct (candidate c) as [cand |]; [| repeat case_match; cbn; apply streams_nil].
  destruct (parts cand) as [ps |]; [| repeat case_match; cbn; apply streams_nil].
  pose proof (gemini_onParts_streams ps (fullResponse l, pendingFunctionCalls l)) as H.
  destruct (onParts options (fullResponse l, pendingFunctionCalls l) ps) as [[r p] cs].
  repeat case_match; simplify_eq; cbn [fst snd fullResponse] in *; exact H.
Qed.

Lemma gemini_readAll_streams (chunks : list Chunk) (l : Locals) :
  streams (callbacks options) (fullResponse l)
    (fullResponse (fst (readAll options l chunks)))
    (snd (readAll options l chunks)).
Proof.
  revert l. induction chunks as [| c chunks IH]; intros l; [apply streams_nil |].
  cbn [readAll].
  pose proof (gemini_onChunk_streams l c) as H1.
  destruct (onChunk options l c) as [l1 cs1].
  specialize (IH l1). destruct (readAll options l1 chunks) as [l2 cs2].
  cbn [fst snd] in *. eapply streams_app; eassumption.
Qed.

Lemma gemini_resolve_streams (loader : JsPath -> LoadOutcome)
  (pending : list PendingFunctionCall) (s : string) :
  streams (callbacks options) s s (snd (resolveFunctionCalls options loader pending)).
Proof.
  induction pending as [| fc pending IH]; [apply streams_nil |].
  cbn [resolveFunctionCalls].
  assert (H1 : streams (callbacks options) s s
                 (snd (resolveFunctionCall options loader fc))).
  { unfold resolveFunctionCall.
    destruct (String.eqb _ _); [| apply streams_nil].
    destruct (loadOne _ _). cbn [snd]. streams_calls. }
  destruct (resolveFunctionCall options loader fc) as [r1 cs1].
  destruct (resolveFunctionCalls options loader pending) as [r2 cs2].
  cbn [snd] in *. eapply streams_app; eassumption.
Qed.

Lemma gemini_run_shape (responses : list (Fetched (option (Body Chunk)))) :
  forall msgs i o acc run,
  makeStreamingRequest options responses msgs i o acc = Some run ->
  exists progress full,
    streams (callbacks options) acc full progress
    /\ match settled run with
       | Fulfilled =>
           exists i' o' w',
             calls run
             = (progress ++ reportAndComplete (callbacks options) (modelId options)
                              i' o' w' full)%list
       | Rejected _ => calls run = progress
       end.
Proof.
  induction responses as [| r later IH]; intros msgs i o acc run H; [discriminate |].
  cbn [makeStreamingRequest] in H.
  assert (Hfail : forall e,
            Some {| sent := [msgs]; calls := []; settled := Rejected e |} = Some run ->
            exists progress full,
              streams (callbacks options) acc full progress
              /\ match settled run with
                 | Fulfilled =>
                     exists i' o' w',
                       calls run
                       = (progress ++ reportAndComplete (callbacks options)
                                        (modelId options) i' o' w' full)%list
                 | Rejected _ => calls run = progress
                 end).
  { intros e [= <-]. exists [], acc. split; [apply streams_nil | reflexivity]. }
  destruct r as [e | reply body]; [now apply (Hfail e) |].
  destruct (negb (ok reply)); [now apply (Hfail (apiError reply)) |].
  destruct body as [b |]; [| now apply (Hfail (Js.Error "No response body"))].
  clear Hfail.
  pose proof (gemini_readAll_streams (events b) (initLocals i o acc)) as Hs.
  destruct (readAll options (initLocals i o acc) (events b)) as [l cs].
  cbn [fst snd initLocals fullResponse] in Hs.
  assert (Hfinal :
            Some {| sent := [msgs];
                    calls := (cs ++ reportAndComplete (callbacks options) (modelId options)
                                      (inputTokens l) (outputTokens l) 0
                                      (fullResponse l))%list;
                    settled := Fulfilled |} = Some run ->
            exists progress full,
              streams (callbacks options) acc full progress
              /\ match settled run with
                 | Fulfilled =>
                     exists i' o' w',
                       calls run
                       = (progress ++ reportAndComplete (callbacks options)
                                        (modelId options) i' o' w' full)%list
                 | Rejected _ => calls run = progress
                 end).
  { intros [= <-]. exists cs, (fullResponse l). split; [exact Hs |].
    cbn [settled calls]. eauto. }
  destruct (ending b) as [| e].
  - destruct (loadFileContents options) as [loader |]; [| now apply Hfinal].
    destruct (0 <? _)%nat; [| now apply Hfinal].
    pose proof (gemini_resolve_streams loader (pendingFunctionCalls l) (fullResponse l))
      as Hr.
    destruct (resolveFunctionCalls options loader (pendingFunctionCalls l))
      as [results resolved].
    cbn [snd] in Hr.
    apply after_Some in H as (rest & Hrest & Hcalls & Hsettled).
    apply IH in Hrest as (progress & full & Hp & Hend).
    exists ((cs ++ resolved) ++ progress)%list, full.
    split; [eapply streams_app; [eapply streams_app |]; eassumption |].
    rewrite Hsettled, Hcalls.
    destruct (settled rest).
    + destruct Hend as (i' & o' & w' & ->). exists i', o', w'. now rewrite app_assoc.
    + now rewrite Hend.
  - injection H as <-. exists cs, (fullResponse l). split; [exact Hs | reflexivity].
Qed.

End GeminiTurn.

(** ** The calls of a whole turn *)

Lemma run_turnShape {Req : Type} (options : SendMessageOptions) (run : Run Req)
  (errorCalls : Js.Thrown -> list Call) :
  (forall e, errorCalls e = [] \/ exists m, errorCalls e = invoke (callbacks options) (OnError m)) ->
  (exists progress full,
     streams (callbacks options) "" full progress
     /\ match settled run with
        | Fulfilled =>
            exists i' o' w',
              calls run
              = (progress ++ reportAndComplete (callbacks options) (modelId options)
                               i' o' w' full)%list
        | Rejected _ => calls run = progress
        end) ->
  turnShape options
    (invoke (callbacks options) OnStart
     ++ calls run
     ++ match settled run with
        | Fulfilled => []
        | Rejected err => errorCalls err
        end)%list.
Proof.
  intros Herr (progress & full & Hp & Hend).
  destruct (settled run) as [| e].
  - destruct Hend as (i & o & w & ->).
    exists progress, full, (reportAndComplete (callbacks options) (modelId options) i o w full).
    rewrite app_nil_r. split; [reflexivity |]. split; [exact Hp |].
    right. right. eauto.
  - rewrite Hend. exists progress, full, (errorCalls e).
    split; [reflexivity |]. split; [exact Hp |].
    destruct (Herr e) as [-> | Hm]; [now left | right; now left].
Qed.

Lemma anthropic_turn (JSON_parse : string -> Parse) (options : SendMessageOptions)
  (responses : list (Fetched (option (Body Anthropic.Event)))) (trace : list Call) :
  Anthropic.sendMessage JSON_parse options responses = Some trace ->
  turnShape options trace.
Proof.
  unfold Anthropic.sendMessage.
  destruct (Anthropic.makeStreamingRequest _ _ _ _ _ _ _ _) as [run |] eqn:Hrun;
    [| discriminate].
  intros [= <-]. apply run_turnShape with (errorCalls := fun err =>
      if Js.is_abort err then []
      else invoke (callbacks options) (OnError (Js.message_or err "Failed to send message"))).
  - intros e. destruct (Js.is_abort e); eauto.
  - eapply anthropic_run_shape, Hrun.
Qed.

Lemma openai_turn (JSON_parse : string -> Parse) (options : SendMessageOptions)
  (responses : list (Fetched (option (Body OpenAI.Chunk)))) (trace : list Call) :
  OpenAI.sendMessage JSON_parse options responses = Some trace ->
  turnShape options trace.
Proof.
  unfold OpenAI.sendMessage.
  destruct (OpenAI.makeStreamingRequest _ _ _ _ _ _ _) as [run |] eqn:Hrun;
    [| discriminate].
  intros [= <-]. apply run_turnShape with (errorCalls := fun err =>
      if Js.is_abort err then []
      else invoke (callbacks options) (OnError (Js.message_or err "Failed to send message"))).
  - intros e. destruct (Js.is_abort e); eauto.
  - eapply openai_run_shape, Hrun.
Qed.

Lemma gemini_turn (options : SendMessageOptions)
  (responses : list (Fetched (option (Body Gemini.Chunk)))) (trace : list Call) :
  Gemini.sendMessage options responses = Some trace ->
  turnShape options trace.
Proof.
  unfold Gemini.sendMessage.
  destruct (Gemini.makeStreamingRequest _ _ _ _ _ _) as [run |] eqn:Hrun;
    [| discriminate].
  intros [= <-]. apply run_turnShape with (errorCalls := fun err =>
      if Js.is_abort err then []
      else
        let errorMessage := Js.message_or err "Failed to send message" in
        if Js.includes errorMessage "blocked" || Js.includes errorMessage "safety"
        then invoke (callbacks options)
               (OnError "Response was blocked by safety filters. Try rephrasing your question.")
        else invoke (callbacks options) (OnError errorMessage)).
  - intros e. cbv zeta. destruct (Js.is_abort e); [eauto |].
    destruct (_ || _); eauto.
  - eapply gemini_run_shape, Hrun.
Qed.

(** X20. Every turn of every adapter has the same shape: [onStart], then
    only calls that report progress (tokens, file loads, searches, code
    executions, tool errors), then its ending, which is nothing at all, or
    one [onError], or the usage report followed by [onComplete].  When the
    caller listens to tokens, the text given to [onComplete] is the
    concatenation of the tokens streamed before. *)
Theorem turn_shape :
  (forall JSON_parse options responses trace,
     Anthropic.sendMessage JSON_parse options responses = Some trace ->
     turnShape options trace)
  /\ (forall JSON_parse options responses trace,
        OpenAI.sendMessage JSON_parse options responses = Some trace ->
        turnShape options trace)
  /\ (forall options responses trace,
        Gemini.sendMessage options responses = Some trace ->
        turnShape options trace).
Proof.
  split; [| split]; intros.
  - eapply anthropic_turn; eassumption.
  - eapply openai_turn; eassumption.
  - eapply gemini_turn; eassumption.
Qed.

Lemma turn_shape_witness :
  turnShape (exampleOptions "claude-haiku-4-5-20251001")
    [ OnStart; OnToken "Let me look. "; OnFileLoad (Some "Loading file...");
      OnFileLoad (Some "notes/a.md"); OnFileLoad (Some "notes/a.md");
      OnFileLoaded (Some "notes/a.md") true; OnToken "It says alpha.";
      OnUsage (usageOf "claude-haiku-4-5-20251001" 250 50);
      OnComplete "Let me look. It says alpha." ].
Proof.
  apply (proj1 turn_shape parsePathObject (exampleOptions "claude-haiku-4-5-20251001")
           [anthropicToolRound (pathObject "notes/a.md"); anthropicTextRound]).
  vm_compute. reflexivity.
Defined.

Lemma progress_not_terminal (cs : list Call) :
  Forall (fun c => isProgress c = true) cs -> Forall (fun c => isTerminal c = false) cs.
Proof. apply List.Forall_impl. now intros []. Qed.

Lemma invoke_start_not_terminal (cb : StreamCallbacks) :
  Forall (fun c => isTerminal c = false) (invoke cb OnStart).
Proof. unfold invoke. destruct (supplied cb OnStart); repeat constructor. Qed.

Lemma turnEnding_removelast (cb : StreamCallbacks) (model full : string)
  (ending : list Call) :
  turnEnding cb model full ending ->
  Forall (fun c => isTerminal c = false) (removelast ending).
Proof.
  intros [-> | [(m & ->) | (i & o & w & ->)]]; [constructor | |].
  - unfold invoke. destruct (supplied _ _); constructor.
  - unfold reportAndComplete, invoke. cbn [supplied].
    destruct (onUsage cb && _), (onComplete cb); repeat constructor.
Qed.

Lemma turnShape_ends_once (options : SendMessageOptions) (trace : list Call) :
  turnShape options trace ->
  Forall (fun c => isTerminal c = false) (removelast trace).
Proof.
  intros (progress & full & ending & -> & [Hp _] & Hend).
  apply progress_not_terminal in Hp.
  pose proof (invoke_start_not_terminal (callbacks options)) as Hs.
  destruct ending as [| c ending].
  - rewrite app_nil_r. apply List.Forall_forall. intros x Hx.
    assert (Hin : In x (invoke (callbacks options) OnStart ++ progress)).
    { clear -Hx. generalize dependent (invoke (callbacks options) OnStart ++ progress)%list.
      intros l. induction l as [| a [| b l] IH]; cbn; [tauto | tauto |].
      intros [<- | H]; [now left | right; now apply IH]. }
    apply in_app_iff in Hin as [Hin | Hin];
      [rewrite List.Forall_forall in Hs | rewrite List.Forall_forall in Hp]; auto.
  - rewrite app_assoc, removelast_app by discriminate.
    apply Forall_app_2; [now apply Forall_app_2 |].
    eapply turnEnding_removelast, Hend.
Qed.

Lemma turnShape_text (options : SendMessageOptions) (trace : list Call) (full : string) :
  turnShape options trace -> onToken (callbacks options) = true ->
  In (OnComplete full) trace -> full = concatAll (tokensOf trace).
Proof.
  intros (progress & full' & ending & -> & [Hp Ht] & Hend) Hcb Hin.
  assert (Hstart : tokensOf (invoke (callbacks options) OnStart) = []).
  { unfold invoke. now destruct (supplied _ _). }
  rewrite !tokensOf_app, Hstart. cbn [app].
  rewrite (Ht Hcb), append_nil_l in *.
  apply in_app_iff in Hin as [Hin | Hin].
  { unfold invoke in Hin. destruct (supplied _ _); [| destruct Hin].
    destruct Hin as [Hin | []]. discriminate. }
  apply in_app_iff in Hin as [Hin | Hin].
  { rewrite List.Forall_forall in Hp. now apply Hp in Hin. }
  destruct Hend as [-> | [(m & ->) | (i & o & w & ->)]]; [destruct Hin | |].
  - unfold invoke in Hin. destruct (supplied _ _); [| destruct Hin].
    destruct Hin as [Hin | []]. discriminate.
  - assert (Hend : tokensOf (reportAndComplete (callbacks options) (modelId options) i o w
                               (concatAll (tokensOf progress))) = []).
    { unfold reportAndComplete, invoke. cbn [supplied].
      destruct (onUsage _ && _), (onComplete _); reflexivity. }
    rewrite Hend, app_nil_r.
    unfold reportAndComplete, invoke in Hin. cbn [supplied] in Hin.
    destruct (onUsage _ && _), (onComplete _); cbn in Hin;
      intuition congruence.
Qed.

(** X21. In every turn of every adapter a call that ends the turn
    ([onComplete] or [onError]) can only be the last call, so a turn is
    ended at most once.  When the caller listens to tokens, the text given
    to [onComplete] is the concatenation of all the tokens of the turn. *)
Theorem turn_ends_once_with_streamed_text :
  (forall JSON_parse options responses trace,
     Anthropic.sendMessage JSON_parse options responses = Some trace ->
     Forall (fun c => isTerminal c = false) (removelast trace)
     /\ (onToken (callbacks options) = true ->
         forall full, In (OnComplete full) trace -> full = concatAll (tokensOf trace)))
  /\ (forall JSON_parse options responses trace,
        OpenAI.sendMessage JSON_parse options responses = Some trace ->
        Forall (fun c => isTerminal c = false) (removelast trace)
        /\ (onToken (callbacks options) = true ->
            forall full, In (OnComplete full) trace -> full = concatAll (tokensOf trace)))
  /\ (forall options responses trace,
        Gemini.sendMessage options responses = Some trace ->
        Forall (fun c => isTerminal c = false) (removelast trace)
        /\ (onToken (callbacks options) = true ->
            forall full, In (OnComplete full) trace -> full = concatAll (tokensOf trace))).
Proof.
  split; [| split]; intros.
  - assert (Hshape : turnShape options trace) by (eapply anthropic_turn; eassumption).
    split; [eapply turnShape_ends_once; eassumption |].
    intros. eapply turnShape_text; eassumption.
  - assert (Hshape : turnShape options trace) by (eapply openai_turn; eassumption).
    split; [eapply turnShape_ends_once; eassumption |].
    intros. eapply turnShape_text; eassumption.
  - assert (Hshape : turnShape options trace) by (eapply gemini_turn; eassumption).
    split; [eapply turnShape_ends_once; eassumption |].
    intros. eapply turnShape_text; eassumption.
Qed.

Lemma turn_ends_once_with_streamed_text_witness :
  "It says alpha."
  = concatAll (tokensOf [ OnStart; OnFileLoad (Some "notes/a.md");
                          OnFileLoad (Some "notes/a.md");
                          OnFileLoaded (Some "notes/a.md") true; OnToken "It says alpha.";
                          OnUsage (usageOf "gemini-3-flash-preview" 150 30);
                          OnComplete "It says alpha." ]).
Proof.
  refine (proj2 (proj2 (proj2 turn_ends_once_with_streamed_text)
                   (exampleOptions "gemini-3-flash-preview")
                   [geminiToolRound "notes/a.md"; geminiTextRound] _ _)
            eq_refl "It says alpha." _).
  - vm_compute. reflexivity.
  - cbn. tauto.
Defined.

(** ** The requests of a turn *)

Section AnthropicHistory.
Import Anthropic.
Variable JSON_parse : string -> Parse.
Variable options : SendMessageOptions.

Lemma anthropic_onEvent_queued (l : Locals) (ev : Event) :
  anthropicQueued l -> anthropicQueued (fst (onEvent JSON_parse options l ev)).
Proof.
  intros [Hsame Hall]. unfold onEvent.
  destruct ev as [[[] |] | [[t |] | [pj |] |] | | [k |] | [k |] sr |];
    repeat case_match; cbn [fst]; try (split; assumption).
  all: try match goal with
           | H : _ && _ = true |- _ =>
               apply andb_true_iff in H as [H _]; apply andb_true_iff in H as [H _];
               apply String.eqb_eq in H
           end.
  all: split; cbn [contentBlocks pendingToolCalls setCurrentTool pushToolCall];
    [now rewrite Hsame | try assumption].
  all: apply Forall_app_2; [assumption | repeat constructor; assumption].
Qed.

Lemma anthropic_readAll_queued (evs : list Event) (l : Locals) :
  anthropicQueued l -> anthropicQueued (fst (readAll JSON_parse options l evs)).
Proof.
  revert l. induction evs as [| ev evs IH]; intros l Hl; [exact Hl |].
  cbn [readAll].
  pose proof (anthropic_onEvent_queued l ev Hl) as H1.
  destruct (onEvent JSON_parse options l ev) as [l1 cs1].
  specialize (IH l1 H1). destruct (readAll JSON_parse options l1 evs) as [l2 cs2].
  exact IH.
Qed.

Lemma anthropic_resolve_answers (loader : JsPath -> LoadOutcome)
  (pending : list PendingToolCall) :
  Forall (fun c => name c = "load_file") pending ->
  fst (resolveToolCalls options loader pending) = map (anthropicAnswer loader) pending.
Proof.
  induction 1 as [| tc pending Hname _ IH]; [reflexivity |].
  cbn [resolveToolCalls map]. unfold resolveToolCall at 1, anthropicAnswer at 1.
  rewrite Hname. cbn [String.eqb Ascii.eqb Bool.eqb].
  destruct (loadOne loader (arg_path (input tc))) as [content success].
  destruct (resolveToolCalls options loader pending) as [r2 cs2].
  cbn [fst app] in *. now rewrite IH.
Qed.

Lemma anthropic_history (responses : list (Fetched (option (Body Event)))) :
  forall msgs i o w acc run,
  makeStreamingRequest JSON_parse options responses msgs i o w acc = Some run ->
  (exists rest, sent run = msgs :: rest)
  /\ grows (anthropicToolRoundAdded options) (sent run).
Proof.
  induction responses as [| r later IH]; intros msgs i o w acc run H; [discriminate |].
  cbn [makeStreamingRequest] in H.
  assert (Hone : forall cs st,
            Some {| sent := [msgs]; calls := cs; settled := st |} = Some run ->
            (exists rest, sent run = msgs :: rest)
            /\ grows (anthropicToolRoundAdded options) (sent run)).
  { intros cs st [= <-]. split; [now exists [] | constructor]. }
  destruct r as [e | reply body]; [now apply (Hone _ _ H) |].
  destruct (negb (ok reply)); [now apply (Hone _ _ H) |].
  destruct body as [b |]; [| now apply (Hone _ _ H)].
  pose proof (anthropic_readAll_queued (events b) (initLocals i o w acc)) as Hq.
  destruct (readAll JSON_parse options (initLocals i o w acc) (events b)) as [l cs].
  cbn [fst] in Hq. destruct Hq as [Hsame Hall]; [split; [reflexivity | constructor] |].
  destruct (ending b) as [| e]; [| now apply (Hone _ _ H)].
  destruct (loadFileContents options) as [loader |] eqn:Hloader; [| now apply (Hone _ _ H)].
  destruct (_ && _) eqn:Htool; [| now apply (Hone _ _ H)].
  pose proof (anthropic_resolve_answers loader (pendingToolCalls l) Hall) as Hr.
  destruct (resolveToolCalls options loader (pendingToolCalls l)) as [results resolved].
  cbn [fst] in Hr. subst results.
  destruct (makeStreamingRequest JSON_parse options later _ _ _ _ _) as [rest |] eqn:Hrest;
    [| discriminate].
  injection H as <-. cbn [after sent].
  apply IH in Hrest as [(rest' & Hsent) Hgrows].
  split; [eauto |]. rewrite Hsent in *.
  apply grows_more; [| exact Hgrows].
  exists loader, (if Js.truthy (fullResponse l) then [text_block (fullResponse l)] else []),
         (pendingToolCalls l).
  split; [exact Hloader |]. split.
  - apply andb_true_iff in Htool as [_ Htool]. apply Nat.ltb_lt in Htool.
    destruct (pendingToolCalls l); [cbn in Htool; lia | discriminate].
  - split.
    + destruct (fullResponse l) as [| c s]; [now left |]. right. eexists.
      split; [reflexivity | discriminate].
    + unfold assistantContent. now rewrite Hsame.
Qed.

End AnthropicHistory.

Section OpenAIHistory.
Import OpenAI.
Variable JSON_parse : string -> Parse.
Variable options : SendMessageOptions.

Lemma openai_resolve_ids (loader : JsPath -> LoadOutcome) (pending : list PendingToolCall) :
  Forall (fun tr => In (fst tr) (map id pending))
         (fst (resolveToolCalls JSON_parse options loader pending)).
Proof.
  induction pending as [| tc pending IH]; [constructor |].
  cbn [resolveToolCalls].
  assert (H1 : Forall (fun tr => fst tr = id tc)
                 (fst (resolveToolCall JSON_parse options loader tc))).
  { unfold resolveToolCall.
    destruct (String.eqb _ _); [| constructor].
    destruct (JSON_parse _); [destruct (loadOne _ _) |]; repeat constructor. }
  destruct (resolveToolCall JSON_parse options loader tc) as [r1 cs1].
  destruct (resolveToolCalls JSON_parse options loader pending) as [r2 cs2].
  cbn [fst map] in *. apply Forall_app_2.
  - eapply Forall_impl; [exact H1 |]. intros tr ->. now left.
  - eapply Forall_impl; [exact IH |]. intros tr H. now right.
Qed.

Lemma openai_history (responses : list (Fetched (option (Body Chunk)))) :
  forall msgs i o acc run,
  makeStreamingRequest JSON_parse options responses msgs i o acc = Some run ->
  (exists rest, sent run = msgs :: rest)
  /\ grows openaiToolRoundAdded (sent run).
Proof.
  induction responses as [| r later IH]; intros msgs i o acc run H; [discriminate |].
  cbn [makeStreamingRequest] in H.
  assert (Hone : forall cs st,
            Some {| sent := [msgs]; calls := cs; settled := st |} = Some run ->
            (exists rest, sent run = msgs :: rest)
            /\ grows openaiToolRoundAdded (sent run)).
  { intros cs st [= <-]. split; [now exists [] | constructor]. }
  destruct r as [e | reply body]; [now apply (Hone _ _ H) |].
  destruct (negb (ok reply)); [now apply (Hone _ _ H) |].
  destruct body as [b |]; [| now apply (Hone _ _ H)].
  destruct (readAll JSON_parse options (initLocals i o acc) (events b)) as [l cs].
  destruct (ending b) as [| e]; [| now apply (Hone _ _ H)].
  destruct (loadFileContents options) as [loader |] eqn:Hloader; [| now apply (Hone _ _ H)].
  destruct (_ && _) eqn:Htool; [| now apply (Hone _ _ H)].
  pose proof (openai_resolve_ids loader (map snd (pendingToolCalls l))) as Hr.
  destruct (resolveToolCalls JSON_parse options loader (map snd (pendingToolCalls l)))
    as [results resolved].
  cbn [fst] in Hr.
  destruct (makeStreamingRequest JSON_parse options later _ _ _ _) as [rest |] eqn:Hrest;
    [| discriminate].
  injection H as <-. cbn [after sent].
  apply IH in Hrest as [(rest' & Hsent) Hgrows].
  split; [eauto |]. rewrite Hsent in *.
  apply grows_more; [| exact Hgrows].
  eexists _, (map snd (pendingToolCalls l)), results.
  split; [| split; [reflexivity | exact Hr]].
  apply andb_true_iff in Htool as [_ Htool]. apply Nat.ltb_lt in Htool.
  destruct (pendingToolCalls l); [cbn in Htool; lia | discriminate].
Qed.

End OpenAIHistory.

Section GeminiHistory.
Import Gemini.
Variable options : SendMessageOptions.

Lemma gemini_history (responses : list (Fetched (option (Body Chunk)))) :
  forall msgs i o acc run,
  makeStreamingRequest options responses msgs i o acc = Some run ->
  (exists rest, sent run = msgs :: rest)
  /\ grows geminiToolRoundAdded (sent run).
Proof.
  induction responses as [| r later IH]; intros msgs i o acc run H; [discriminate |].
  cbn [makeStreamingRequest] in H.
  assert (Hone : forall cs st,
            Some {| sent := [msgs]; calls := cs; settled := st |} = Some run ->
            (exists rest, sent run = msgs :: rest)
            /\ grows geminiToolRoundAdded (sent run)).
  { intros cs st [= <-]. split; [now exists [] | constructor]. }
  destruct r as [e | reply body]; [now apply (Hone _ _ H) |].
  destruct (negb (ok reply)); [now apply (Hone _ _ H) |].
  destruct body as [b |]; [| now apply (Hone _ _ H)].
  destruct (readAll options (initLocals i o acc) (events b)) as [l cs].
  destruct (ending b) as [| e]; [| now apply (Hone _ _ H)].
  destruct (loadFileContents options) as [loader |] eqn:Hloader; [| now apply (Hone _ _ H)].
  destruct (0 <? _)%nat eqn:Htool; [| now apply (Hone _ _ H)].
  destruct (resolveFunctionCalls options loader (pendingFunctionCalls l))
    as [results resolved].
  destruct (makeStreamingRequest options later _ _ _ _) as [rest |] eqn:Hrest;
    [| discriminate].
  injection H as <-. cbn [after sent].
  apply IH in Hrest as [(rest' & Hsent) Hgrows].
  split; [eauto |]. rewrite Hsent in *.
  apply grows_more; [| exact Hgrows].
  eexists (modelParts l), results.
  split; [| reflexivity].
  apply Nat.ltb_lt in Htool. unfold modelParts.
  destruct (pendingFunctionCalls l); [cbn in Htool; lia |].
  destruct (Js.truthy _); discriminate.
Qed.

End GeminiHistory.

(** X22. Within a turn the conversation sent to the vendor only grows.
    The first request carries the messages the turn started from, and each
    later request carries the one before it, unchanged, followed by what
    one tool round adds.  For Anthropic that is the assistant message with
    one tool_use block for each queued call, and a user message with one
    tool_result for each call, in the same order and under the same ids;
    for OpenAI the assistant message with its tool calls, followed by tool
    messages that each answer one of those calls; for Gemini a model turn
    and a user turn. *)
Theorem history_is_append_only :
  (forall JSON_parse options responses msgs i o w acc run,
     Anthropic.makeStreamingRequest JSON_parse options responses msgs i o w acc = Some run ->
     (exists rest, sent run = msgs :: rest)
     /\ grows (anthropicToolRoundAdded options) (sent run))
  /\ (forall JSON_parse options responses msgs i o acc run,
        OpenAI.makeStreamingRequest JSON_parse options responses msgs i o acc = Some run ->
        (exists rest, sent run = msgs :: rest)
        /\ grows openaiToolRoundAdded (sent run))
  /\ (forall options responses msgs i o acc run,
        Gemini.makeStreamingRequest options responses msgs i o acc = Some run ->
        (exists rest, sent run = msgs :: rest)
        /\ grows geminiToolRoundAdded (sent run)).
Proof.
  split; [| split]; intros.
  - eapply anthropic_history; eassumption.
  - eapply openai_history; eassumption.
  - eapply gemini_history; eassumption.
Qed.

Lemma history_is_append_only_witness :
  exists run,
    Anthropic.makeStreamingRequest parsePathObject
      (exampleOptions "claude-haiku-4-5-20251001")
      [anthropicToolRound (pathObject "notes/a.md"); anthropicTextRound]
      (Anthropic.initialMessages (exampleOptions "claude-haiku-4-5-20251001")) 0 0 0 ""
    = Some run
    /\ length (sent run) = 2%nat
    /\ grows (anthropicToolRoundAdded (exampleOptions "claude-haiku-4-5-20251001"))
         (sent run).
Proof.
  eexists. split; [vm_compute; reflexivity |]. split; [reflexivity |].
  refine (proj2 (proj1 history_is_append_only parsePathObject
                   (exampleOptions "claude-haiku-4-5-20251001")
                   [anthropicToolRound (pathObject "notes/a.md"); anthropicTextRound]
                   (Anthropic.initialMessages (exampleOptions "claude-haiku-4-5-20251001"))
                   0 0 0 "" _ _)).
  vm_compute. reflexivity.
Defined.

(** ** Tool arguments that arrive in fragments *)

Section OpenAIArguments.
Import OpenAI.
Variable JSON_parse : string -> Parse.
Variable options : SendMessageOptions.

Lemma get_update (i j : Z) (f : PendingToolCall -> PendingToolCall)
  (m : list (Z * PendingToolCall)) :
  get i (update j f m) = if i =? j then f <$> get i m else get i m.
Proof.
  unfold get. induction m as [| [k p] m IH]; cbn [update List.find fst].
  - now destruct (i =? j).
  - destruct (k =? j) eqn:Ekj; cbn [List.find fst].
    + apply Z.eqb_eq in Ekj. subst k.
      destruct (j =? i) eqn:Eji.
      * apply Z.eqb_eq in Eji. subst. now rewrite Z.eqb_refl.
      * rewrite Z.eqb_sym, Eji. reflexivity.
    + destruct (k =? i) eqn:Eki.
      * apply Z.eqb_eq in Eki. subst k. rewrite Ekj. reflexivity.
      * exact IH.
Qed.

Lemma get_new (i j : Z) (p : PendingToolCall) (m : list (Z * PendingToolCall)) :
  has j m = false ->
  get i (m ++ [(j, p)]) = if i =? j then Some p else get i m.
Proof.
  unfold get, has. induction m as [| [k q] m IH]; cbn [existsb app List.find fst].
  - intros _. rewrite Z.eqb_sym. now destruct (i =? j).
  - intros H. apply orb_false_iff in H as [Hk H].
    destruct (k =? i) eqn:Eki; [| now apply IH].
    apply Z.eqb_eq in Eki. subst k. now rewrite Hk.
Qed.

Lemma has_get (j : Z) (m : list (Z * PendingToolCall)) :
  has j m = true -> exists p, get j m = Some p.
Proof.
  unfold has, get. induction m as [| [k q] m IH]; cbn [existsb List.find fst];
    [discriminate |].
  destruct (k =? j); [eauto | exact IH].
Qed.

Lemma has_not_get (j : Z) (m : list (Z * PendingToolCall)) :
  has j m = false -> get j m = None.
Proof.
  unfold has, get. induction m as [| [k q] m IH]; cbn [existsb List.find fst];
    [reflexivity |].
  destruct (k =? j); [discriminate | exact IH].
Qed.

Lemma openai_onToolCallDelta_map (m : list (Z * PendingToolCall)) (tc : ToolCallDelta) :
  let j := default 0 (index tc) in
  fst (onToolCallDelta JSON_parse options m tc)
  = update j
      (fun p =>
         {| id := if truthy_prop (tc_id tc) then default "" (tc_id tc) else id p;
            name := if truthy_prop (function_name tc)
                    then default "" (function_name tc) else name p;
            arguments := if truthy_prop (function_arguments tc)
                         then arguments p ++ default "" (function_arguments tc)
                         else arguments p |})
      (if has j m then m
       else (m ++ [(j, {| id := Js.or_default (tc_id tc) "";
                          name := Js.or_default (function_name tc) "";
                          arguments := "" |})])%list).
Proof. cbv zeta. unfold onToolCallDelta. now destruct (has _ m). Qed.

Lemma openai_onToolCallDelta_arguments (i : Z) (m : list (Z * PendingToolCall))
  (tc : ToolCallDelta) :
  openaiArgumentsAt i (fst (onToolCallDelta JSON_parse options m tc))
  = openaiArgumentsAt i m ++ concatAll (openaiFragments i [tc]).
Proof.
  rewrite openai_onToolCallDelta_map.
  unfold openaiFragments, openaiArgumentsAt. cbn [flat_map app].
  rewrite app_nil_r, get_update.
  set (j := default 0 (index tc)).
  set (f := fun p : PendingToolCall => _).
  assert (Hf : forall p, arguments (f p)
                         = arguments p ++ default "" (function_arguments tc)).
  { intros p. subst f. cbn [arguments].
    destruct (function_arguments tc) as [[| c a] |]; cbn; now rewrite ?append_nil_r. }
  assert (Hfrag : concatAll match function_arguments tc with
                            | Some a => [a]
                            | None => []
                            end = default "" (function_arguments tc)).
  { destruct (function_arguments tc); cbn; now rewrite ?append_nil_r. }
  rewrite (Z.eqb_sym i j).
  destruct (j =? i) eqn:E.
  - apply Z.eqb_eq in E. subst i. rewrite Hfrag.
    destruct (has j m) eqn:Hhas.
    + destruct (has_get j m Hhas) as (p & ->). cbn. apply Hf.
    + rewrite (get_new _ _ _ _ Hhas), Z.eqb_refl, (has_not_get j m Hhas).
      exact (Hf {| id := Js.or_default (tc_id tc) "";
                   name := Js.or_default (function_name tc) ""; arguments := "" |}).
  - cbn [concatAll fold_right]. rewrite append_nil_r.
    destruct (has j m) eqn:Hhas; [reflexivity |].
    now rewrite (get_new _ _ _ _ Hhas), Z.eqb_sym, E.
Qed.

Lemma openaiFragments_app (i : Z) (a b : list ToolCallDelta) :
  openaiFragments i (a ++ b) = (openaiFragments i a ++ openaiFragments i b)%list.
Proof. unfold openaiFragments. apply flat_map_app. Qed.

Lemma openai_onToolCallDeltas_arguments (i : Z) (tcs : list ToolCallDelta)
  (m : list (Z * PendingToolCall)) :
  openaiArgumentsAt i (fst (onToolCallDeltas JSON_parse options m tcs))
  = openaiArgumentsAt i m ++ concatAll (openaiFragments i tcs).
Proof.
  revert m. induction tcs as [| tc tcs IH]; intros m.
  - cbn. now rewrite append_nil_r.
  - cbn [onToolCallDeltas].
    pose proof (openai_onToolCallDelta_arguments i m tc) as H1.
    destruct (onToolCallDelta JSON_parse options m tc) as [m1 cs1].
    specialize (IH m1). destruct (onToolCallDeltas JSON_parse options m1 tcs) as [m2 cs2].
    cbn [fst] in *. rewrite IH, H1.
    change (tc :: tcs) with ([tc] ++ tcs)%list.
    now rewrite openaiFragments_app, concatAll_app, append_assoc.
Qed.

Lemma openai_readAll_arguments (i : Z) (chunks : list Chunk) (l : Locals) :
  openaiArgumentsAt i (pendingToolCalls (fst (readAll JSON_parse options l chunks)))
  = openaiArgumentsAt i (pendingToolCalls l)
    ++ concatAll (openaiFragments i (openaiToolDeltas chunks)).
Proof.
  revert l. induction chunks as [| c chunks IH]; intros l.
  - cbn. now rewrite append_nil_r.
  - cbn [readAll].
    assert (H1 : openaiArgumentsAt i (pendingToolCalls (fst (onChunk JSON_parse options l c)))
                 = openaiArgumentsAt i (pendingToolCalls l)
                   ++ concatAll (openaiFragments i (openaiToolDeltas [c]))).
    { unfold openaiToolDeltas. cbn [flat_map]. rewrite app_nil_r.
      unfold onChunk.
      destruct (delta c) as [d |].
      - destruct (tool_calls d) as [tcs |].
        + pose proof (openai_onToolCallDeltas_arguments i tcs (pendingToolCalls l)) as Ht.
          destruct (onToolCallDeltas JSON_parse options (pendingToolCalls l) tcs) as [m cs].
          repeat case_match; simplify_eq; cbn [fst pendingToolCalls] in *; exact Ht.
        + repeat case_match; simplify_eq; cbn [fst pendingToolCalls].
          all: cbn; now rewrite append_nil_r.
      - repeat case_match; simplify_eq; cbn [fst pendingToolCalls].
        all: cbn; now rewrite append_nil_r. }
    destruct (onChunk JSON_parse options l c) as [l1 cs1].
    specialize (IH l1). destruct (readAll JSON_parse options l1 chunks) as [l2 cs2].
    cbn [fst] in *. rewrite IH, H1.
    change (c :: chunks) with ([c] ++ chunks)%list.
    unfold openaiToolDeltas. rewrite flat_map_app.
    now rewrite openaiFragments_app, concatAll_app, append_assoc.
Qed.

End OpenAIArguments.

Section AnthropicArguments.
Import Anthropic.
Variable JSON_parse : string -> Parse.
Variable options : SendMessageOptions.

Lemma anthropic_readAll_app (l : Locals) (a b : list Event) :
  fst (readAll JSON_parse options l (a ++ b))
  = fst (readAll JSON_parse options (fst (readAll JSON_parse options l a)) b).
Proof.
  revert l. induction a as [| ev a IH]; intros l; [reflexivity |].
  cbn [app readAll].
  destruct (onEvent JSON_parse options l ev) as [l1 cs1].
  specialize (IH l1).
  destruct (readAll JSON_parse options l1 (a ++ b)) as [l2 cs2].
  destruct (readAll JSON_parse options l1 a) as [l3 cs3].
  cbn [fst] in *. rewrite IH.
  now destruct (readAll JSON_parse options l3 b).
Qed.

Lemma anthropic_fragments (fragments : list string) (l : Locals) :
  let l' := fst (readAll JSON_parse options l
                   (map (fun pj => content_block_delta (input_json_delta (Some pj)))
                        fragments)) in
  currentToolId l' = currentToolId l
  /\ currentToolName l' = currentToolName l
  /\ currentToolInput l' = currentToolInput l ++ concatAll fragments
  /\ pendingToolCalls l' = pendingToolCalls l.
Proof.
  revert l. induction fragments as [| pj fragments IH]; intros l.
  - cbn. now rewrite append_nil_r.
  - cbn [map readAll].
    assert (H1 : let l1 := fst (onEvent JSON_parse options l
                                  (content_block_delta (input_json_delta (Some pj)))) in
                 currentToolId l1 = currentToolId l
                 /\ currentToolName l1 = currentToolName l
                 /\ currentToolInput l1 = currentToolInput l ++ pj
                 /\ pendingToolCalls l1 = pendingToolCalls l).
    { cbn [onEvent]. destruct pj as [| c pj]; cbn [Js.truthy fst];
        [now rewrite append_nil_r | repeat split]. }
    destruct (onEvent JSON_parse options l _) as [l1 cs1].
    specialize (IH l1). cbv zeta in *.
    destruct (readAll JSON_parse options l1 _) as [l2 cs2].
    cbn [fst] in *.
    destruct H1 as (Hi & Hn & Hin & Hp). destruct IH as (Hi' & Hn' & Hin' & Hp').
    rewrite Hi', Hn', Hin', Hp', Hi, Hn, Hin, Hp.
    repeat split. cbn [concatAll fold_right]. now rewrite append_assoc.
Qed.

Lemma anthropic_tool_block (id : string) (fragments : list string) (l : Locals) :
  pendingToolCalls (fst (readAll JSON_parse options l (anthropicToolBlock id fragments)))
  = (pendingToolCalls l
     ++ if Js.truthy id && Js.truthy (concatAll fragments)
        then match JSON_parse (concatAll fragments) with
             | Parsed inp => [ {| Anthropic.id := id; name := "load_file"; input := inp |} ]
             | SyntaxError _ => []
             end
        else [])%list.
Proof.
  unfold anthropicToolBlock.
  change ([content_block_start (Some (tool_use (Some id) (Some "load_file")))] ++ ?x)%list
    with (content_block_start (Some (tool_use (Some id) (Some "load_file"))) :: x).
  cbn [readAll].
  set (l0 := setCurrentTool (Js.or_default (Some id) "") (Js.or_default (Some "load_file") "")
               "" l).
  assert (Hstart : fst (onEvent JSON_parse options l
                          (content_block_start (Some (tool_use (Some id) (Some "load_file")))))
                   = l0) by reflexivity.
  destruct (onEvent JSON_parse options l _) as [l0' cs0]. cbn [fst] in Hstart. subst l0'.
  pose proof (anthropic_readAll_app l0
                (map (fun pj => content_block_delta (input_json_delta (Some pj))) fragments)
                [content_block_stop]) as Happ.
  destruct (readAll JSON_parse options l0 (_ ++ _)) as [l2 cs2].
  cbn [fst] in *. subst l2.
  destruct (anthropic_fragments fragments l0) as (Hi & Hn & Hin & Hp).
  cbv zeta in *.
  set (l1 := fst (readAll JSON_parse options l0 _)) in *.
  cbn [readAll onEvent]. rewrite Hi, Hn, Hin.
  assert (Hid : currentToolId l0 = id).
  { subst l0. cbn. unfold Js.or_else. now destruct id. }
  rewrite Hid. subst l0. cbn [currentToolName currentToolInput setCurrentTool] in *.
  rewrite append_nil_l.
  change (Js.or_default (Some "load_file") "") with "load_file".
  cbn [String.eqb Ascii.eqb Bool.eqb andb].
  destruct (Js.truthy id && Js.truthy (concatAll fragments));
    [| cbn; now rewrite Hp, app_nil_r].
  destruct (JSON_parse (concatAll fragments)); cbn; now rewrite Hp, ?app_nil_r.
Qed.

End AnthropicArguments.

(** X23. The arguments of a tool call that arrive in fragments are put
    together in the order of arrival.  OpenAI: after a stream of chunks the
    argument text kept for the call at an index is what was kept before,
    followed by the fragments sent for that index, in order, whatever else
    the chunks carry in between.  Anthropic: a load_file block queues one
    call with the parse of its concatenated fragments, and no call when the
    id or the text is empty or the text does not parse. *)
Theorem tool_arguments_are_assembled_in_order :
  (forall JSON_parse options index chunks l,
     openaiArgumentsAt index
       (OpenAI.pendingToolCalls (fst (OpenAI.readAll JSON_parse options l chunks)))
     = openaiArgumentsAt index (OpenAI.pendingToolCalls l)
       ++ concatAll (openaiFragments index (openaiToolDeltas chunks)))
  /\ (forall JSON_parse options id fragments l,
        Anthropic.pendingToolCalls
          (fst (Anthropic.readAll JSON_parse options l (anthropicToolBlock id fragments)))
        = (Anthropic.pendingToolCalls l
           ++ if Js.truthy id && Js.truthy (concatAll fragments)
              then match JSON_parse (concatAll fragments) with
                   | Parsed inp =>
                       [ {| Anthropic.id := id; Anthropic.name := "load_file";
                            Anthropic.input := inp |} ]
                   | SyntaxError _ => []
                   end
              else [])%list).
Proof.
  split; intros.
  - apply openai_readAll_arguments.
  - apply anthropic_tool_block.
Qed.

(** ** The chat's file loader, routing, and the files route *)


(** X24. The loader the chat hands to the adapters asks the files route
    for one path.  A load succeeds only when the route answers 2xx with a
    first file whose content is not error-marked, and the tool result is
    then that file; when the request fails or the status is not 2xx, the
    model is told that the file could not be loaded. *)
Theorem chat_file_loads (endpoint : list JsPath -> Fetched BrainChatApi.FilesBody)
  (path : JsPath) :
  let result := loadOne (BrainChatApi.providerLoader endpoint) path in
  (snd result = false -> fst result = notLoadedResult path)
  /\ (snd result = true ->
      exists response p c rest,
        endpoint [path] = FetchResolves response (BrainChatApi.files_array ((p, c) :: rest))
        /\ ok response = true
        /\ Js.startsWith c "[Error" = false
        /\ fst result = fileResult {| file_path := p; file_content := c |})
  /\ (forall e, endpoint [path] = FetchRejects e -> result = (notLoadedResult path, false))
  /\ (forall response body, endpoint [path] = FetchResolves response body ->
        ok response = false -> result = (notLoadedResult path, false)).
Proof.
  cbv zeta.
  unfold loadOne, BrainChatApi.providerLoader, BrainChatApi.fileLoader,
    BrainChatApi.loadFileContents.
  destruct (endpoint [path]) as [e | response body].
  { cbn. repeat split; intros; try discriminate; try congruence. }
  destruct (ok response) eqn:Hok; cbn [negb].
  2: { cbn. repeat split; intros; try discriminate; try congruence. }
  destruct body as [[| [p c] rest] |]; cbn [map];
    try (cbn; repeat split; intros; try discriminate; congruence).
  unfold notErrorMarked. cbn [file_content BrainChatApi.content snd fst BrainChatApi.path].
  destruct (Js.startsWith c "[Error") eqn:Hc; cbn [negb fst snd].
  - repeat split; intros; try discriminate; congruence.
  - split; [discriminate |]. split; [| split; intros; try discriminate; congruence].
    intros _. exists response, p, c, rest. repeat split; assumption.
Qed.

Lemma chat_file_loads_witness :
  fst (loadOne (BrainChatApi.providerLoader
                  (fun _ => FetchRejects (Js.Error "Failed to fetch")))
         (Some "notes/a.md"))
  = notLoadedResult (Some "notes/a.md").
Proof.
  apply (proj1 (chat_file_loads (fun _ => FetchRejects (Js.Error "Failed to fetch"))
                  (Some "notes/a.md"))).
  reflexivity.
Defined.

(** X25. The chat's [sendMessage] hands the turn to the adapter of the
    active provider, with the messages, system prompt, key and callbacks it
    was given, the file loader, and the web-search and code-execution
    switches as they were given: every provider is configured as supporting
    both.  The model is the one passed in when that is not empty, else the
    model selected for the active provider, which belongs to that
    provider's catalog. *)
Theorem chat_sendMessage_routes (JSON_parse : string -> Parse) (storage : StorageRef)
  (endpoint : list JsPath -> Fetched BrainChatApi.FilesBody) (vendors : Vendors)
  (messages : list ChatTurn) (systemPrompt apiKey : string) (callbacks : StreamCallbacks)
  (modelId : option string) (options : BrainChatApi.ToolOptions) :
  exists model,
    BrainChatApi.sendMessage JSON_parse storage endpoint vendors messages systemPrompt
      apiKey callbacks modelId options
    = sendMessage JSON_parse (getActiveProvider storage)
        (Build_SendMessageOptions messages systemPrompt apiKey model callbacks
           (BrainChatApi.tool_enableWebSearch options)
           (BrainChatApi.tool_enableCodeExecution options)
           (Some (BrainChatApi.providerLoader endpoint)))
        vendors
    /\ (if truthy_prop modelId then modelId = Some model
        else getSelectedModel (getActiveProvider storage) storage = Some model
             /\ In model (map id (getModelsForProvider (getActiveProvider storage)))).
Proof.
  unfold BrainChatApi.sendMessage, BrainChat.getActiveProviderFromStorage,
    BrainChat.getProviderSelectedModel, BrainChatApi.providerSendMessage.
  assert (Hflags : forall p, supportsWebSearch (PROVIDERS p) = true
                             /\ supportsCodeExecution (PROVIDERS p) = true)
    by (intros []; split; reflexivity).
  destruct (Hflags (getActiveProvider storage)) as [-> ->]. rewrite !andb_true_r.
  destruct (truthy_prop modelId) eqn:Hm.
  - destruct modelId as [m |]; [| discriminate]. exists m. split; reflexivity.
  - destruct (getSelectedModel_in_models (getActiveProvider storage) storage)
      as (m & Hsel & Hin).
    rewrite Hsel. exists (id m). split; [reflexivity |]. split; [reflexivity |].
    now apply in_map.
Qed.

(** X26. What the model sees for a file the files route could not serve.
    The route answers a path with a record under that path.  A record whose
    error flag is set reaches the model as a failed load, except the notice
    for a file above the size limit: that notice does not start with the
    error marker, so the chat reports a successful load and gives the model
    the notice as the content of the file.  A record whose error flag is
    not set carries the decoded text GitHub returned. *)
Theorem files_route_notices (github : Fetched FilesRoute.GithubBody) (p : string)
  (endpoint : list JsPath -> Fetched BrainChatApi.FilesBody) (response : HttpReply) :
  let record := FilesRoute.loadPath github p in
  endpoint [Some p]
  = FetchResolves response
      (BrainChatApi.files_array [(FilesRoute.path record, FilesRoute.content record)]) ->
  ok response = true ->
  let result := loadOne (BrainChatApi.providerLoader endpoint) (Some p) in
  FilesRoute.path record = p
  /\ (FilesRoute.error record = true ->
      result
      = if tooLarge github
        then (fileResult {| file_path := p; file_content := FilesRoute.content record |},
              true)
        else (notLoadedResult (Some p), false))
  /\ (FilesRoute.error record = false ->
      exists reply size text,
        github = FetchResolves reply (FilesRoute.contents size (inr text))
        /\ FilesRoute.content record = text).
Proof.
  intros record Hendpoint Hok result.
  assert (Hresult : result
                    = if Js.startsWith (FilesRoute.content record) "[Error"
                      then (notLoadedResult (Some p), false)
                      else (fileResult {| file_path := FilesRoute.path record;
                                          file_content := FilesRoute.content record |},
                            true)).
  { subst result.
    unfold loadOne, BrainChatApi.providerLoader, BrainChatApi.fileLoader,
      BrainChatApi.loadFileContents.
    rewrite Hendpoint, Hok. cbn [negb map fst snd BrainChatApi.path BrainChatApi.content].
    unfold notErrorMarked. cbn [file_content].
    now destruct (Js.startsWith _ _). }
  assert (Hpath : FilesRoute.path record = p).
  { subst record. unfold FilesRoute.loadPath, FilesRoute.caught.
    repeat case_match; reflexivity. }
  split; [exact Hpath |]. rewrite Hresult, Hpath. clear Hresult Hendpoint result.
  subst record. unfold FilesRoute.loadPath, FilesRoute.caught, FilesRoute.oversize, tooLarge.
  destruct github as [e | reply [e | [n |] [e | text]]];
    try destruct (ok reply); cbn [negb andb FilesRoute.error FilesRoute.content];
    try destruct (FilesRoute.MAX_FILE_SIZE <? n);
    cbn [FilesRoute.error FilesRoute.content];
    (split; [first [discriminate | intros _] | first [discriminate | intros _]]);
    try reflexivity; eauto.
Qed.

Lemma files_route_notices_witness :
  loadOne (BrainChatApi.providerLoader
             (fun _ => FetchResolves ok200
                         (BrainChatApi.files_array
                            [("notes/big.md", "[File too large: 200KB, max 100KB]")])))
    (Some "notes/big.md")
  = (fileResult {| file_path := "notes/big.md";
                   file_content := "[File too large: 200KB, max 100KB]" |}, true).
Proof.
  apply (proj1 (proj2 (files_route_notices
                         (FetchResolves ok200
                            (FilesRoute.contents (Some 204800) (inr "big")))
                         "notes/big.md"
                         (fun _ => FetchResolves ok200
                                     (BrainChatApi.files_array
                                        [("notes/big.md",
                                          "[File too large: 200KB, max 100KB]")]))
                         ok200 eq_refl eq_refl))).
  reflexivity.
Defined.

(** ** Requests that fail *)

(** X27. A request that fails before any of its stream is read is reported
    once.  When [fetch] rejects with anything but an abort, the status is
    not 2xx, or the response has no body, the calls of the turn are
    [onStart] and one [onError], whatever responses were still to come.  The
    text is the message of what was thrown.  For a non-2xx answer that is
    the vendor's message or, without one, the status; when the error body
    is the JSON value null it is the message of the TypeError that reading
    the body throws.  The Gemini adapter replaces a message that mentions
    blocked or safety by a notice of its own. *)
Theorem request_failures_are_reported :
  (forall JSON_parse options first later e,
     requestFailure first = Some e -> Js.is_abort e = false ->
     Anthropic.sendMessage JSON_parse options (first :: later)
     = Some (invoke (callbacks options) OnStart
             ++ invoke (callbacks options) (OnError (errorText e)))%list)
  /\ (forall JSON_parse options first later e,
        requestFailure first = Some e -> Js.is_abort e = false ->
        OpenAI.sendMessage JSON_parse options (first :: later)
        = Some (invoke (callbacks options) OnStart
                ++ invoke (callbacks options) (OnError (errorText e)))%list)
  /\ (forall options first later e,
        requestFailure first = Some e -> Js.is_abort e = false ->
        Gemini.sendMessage options (first :: later)
        = Some (invoke (callbacks options) OnStart
                ++ invoke (callbacks options) (OnError (geminiErrorText e)))%list)
  /\ (forall reply,
        Js.is_abort (apiError reply) = false
        /\ errorText (apiError reply)
           = match errorBody reply with
             | null_body typeError => typeError
             | error_body message =>
                 Js.or_default message ("API error: " ++ pretty (status reply))
             end).
Proof.
  split; [| split; [| split]].
  - intros JSON_parse options first later e Hfail Habort.
    unfold Anthropic.sendMessage. cbn [Anthropic.makeStreamingRequest].
    destruct first as [e0 | reply [b |]]; cbn [requestFailure] in Hfail;
      try destruct (negb (ok reply)); simplify_eq; cbn [calls settled app];
      rewrite ?Habort; reflexivity.
  - intros JSON_parse options first later e Hfail Habort.
    unfold OpenAI.sendMessage. cbn [OpenAI.makeStreamingRequest].
    destruct first as [e0 | reply [b |]]; cbn [requestFailure] in Hfail;
      try destruct (negb (ok reply)); simplify_eq; cbn [calls settled app];
      rewrite ?Habort; reflexivity.
  - intros options first later e Hfail Habort.
    unfold Gemini.sendMessage, geminiErrorText, errorText.
    cbn [Gemini.makeStreamingRequest].
    destruct first as [e0 | reply [b |]]; cbn [requestFailure] in Hfail;
      try destruct (negb (ok reply)); simplify_eq; cbn [calls settled app];
      rewrite ?Habort; cbv zeta; now destruct (_ || _).
  - intros reply. unfold apiError, apiErrorMessage.
    destruct (errorBody reply); split; reflexivity.
Qed.

Lemma request_failures_are_reported_witness :
  Anthropic.sendMessage parsePathObject (exampleOptions "claude-haiku-4-5-20251001")
    [FetchResolves {| status := 529; errorBody := error_body (Some "Overloaded") |} None]
  = Some [OnStart; OnError "Overloaded"]
  /\ OpenAI.sendMessage parsePathObject (exampleOptions "gpt-5-nano")
       [FetchResolves
          {| status := 500;
             errorBody := null_body "Cannot read properties of null (reading 'error')" |}
          None]
     = Some [OnStart; OnError "Cannot read properties of null (reading 'error')"].
Proof.
  split.
  - apply (proj1 request_failures_are_reported parsePathObject
             (exampleOptions "claude-haiku-4-5-20251001")
             (FetchResolves {| status := 529; errorBody := error_body (Some "Overloaded") |}
                None) []
             (Js.Error "Overloaded")); reflexivity.
  - apply (proj1 (proj2 request_failures_are_reported) parsePathObject
             (exampleOptions "gpt-5-nano")
             (FetchResolves
                {| status := 500;
                   errorBody :=
                     null_body "Cannot read properties of null (reading 'error')" |}
                None) []
             (Js.ErrorObj "TypeError" "Cannot read properties of null (reading 'error')"));
      reflexivity.
Defined.
